(** * Instagram caption orchestrator (app.py): a shallow embedding

    The four "agents" of [app.py] ([fetch_subtopics], [choose_subtopic],
    [generate_caption], [generate_image_prompt]), the retry decorator, the
    shared [TTLCache] and the part of the Streamlit script that keeps the
    session state are embedded as executable definitions.

    - Python [str] is a list of Unicode code points.
    - The generation backend is opaque: the outcome of its n-th invocation
      is given by an oracle.  Prompts only travel to the backend.
    - Steps are computations in a state-and-exception monad over [world]
      (clock, cache, number of backend invocations, sleeps, log records).
    - The Unicode tables behind [\d] and [str.isprintable] are variables of
      the section, and so are the truth of a float and [==] where it
      depends on floats or on the identity of objects.
    - A run of the script goes from the initial state to the history.  The
      side bar and the feedback form are left out of it: they display what
      the session holds or write to a file. *)

From Stdlib Require Import String Ascii.
From Stdlib Require Import ZArith NArith List Bool Lia.
From Stdlib Require Import DecimalString DecimalN DecimalFacts.
Import ListNotations.

Set Implicit Arguments.
Set Warnings "-register-all,-abstract-large-number".

(** ** Python strings *)

Definition char := N.
Bind Scope N_scope with char.
Definition str := list char.

(** An ASCII literal as a [str]. *)
Definition lit (s : string) : str :=
  List.map N_of_ascii (list_ascii_of_string s).
Arguments lit s%_string.

Definition char_eqb (a b : char) : bool := N.eqb a b.

Fixpoint str_eqb (a b : str) : bool :=
  match a, b with
  | [], [] => true
  | x :: a', y :: b' => char_eqb x y && str_eqb a' b'
  | _, _ => false
  end.

Definition in_range (lo hi c : char) : bool := (N.leb lo c) && (N.leb c hi).

(** [Py_UNICODE_ISSPACE]: what [\s] matches in a [str] pattern and what
    [str.strip()] removes. *)
Definition isspace (c : char) : bool :=
  in_range 9 13 c || in_range 28 32 c || N.eqb c 133 || N.eqb c 160
  || N.eqb c 5760 || in_range 8192 8202 c || N.eqb c 8232 || N.eqb c 8233
  || N.eqb c 8239 || N.eqb c 8287 || N.eqb c 12288.

(** [Py_UNICODE_ISLINEBREAK]: the separators of [str.splitlines()]. *)
Definition islinebreak (c : char) : bool :=
  in_range 10 13 c || in_range 28 30 c || N.eqb c 133
  || N.eqb c 8232 || N.eqb c 8233.

Fixpoint lstrip (s : str) : str :=
  match s with
  | c :: s' => if isspace c then lstrip s' else s
  | [] => []
  end.

Definition rstrip (s : str) : str := rev (lstrip (rev s)).

(** [s.strip()] *)
Definition strip (s : str) : str := rstrip (lstrip s).

(** [s.splitlines()]: [cur] is the current line reversed, [after_cr] says
    that the previous character was a carriage return, so that a line feed
    right after it belongs to the same separator. *)
Fixpoint splitlines_go (after_cr : bool) (cur : str) (s : str) : list str :=
  match s with
  | [] => match cur with [] => [] | _ => [rev cur] end
  | c :: s' =>
      if after_cr && N.eqb c 10 then splitlines_go false cur s'
      else if islinebreak c then rev cur :: splitlines_go (N.eqb c 13) [] s'
      else splitlines_go false (c :: cur) s'
  end.

Definition splitlines (s : str) : list str := splitlines_go false [] s.

(** [l[:n]] for any integer [n] (a negative [n] counts from the end). *)
Definition slice_to {A} (n : Z) (l : list A) : list A :=
  if (0 <=? n)%Z then firstn (Z.to_nat n) l
  else firstn (length l - Z.to_nat (- n)) l.

(** [str(n)] for an integer. *)
Definition str_of_int (n : Z) : str :=
  match n with
  | Zneg p => lit "-" ++ lit (NilEmpty.string_of_uint (Pos.to_uint p))
  | _ => lit (NilEmpty.string_of_uint (N.to_uint (Z.to_N n)))
  end.

(** ** Regular expressions ([re]) *)

(** The fragment of [re] syntax the patterns of [app.py] use.  Repetition
    is greedy and only applied to one-character classes, as in [\s*],
    [\d+] and [.+]. *)
Inductive regex : Type :=
| Chr (p : char -> bool)
| Bol
| Eol
| Seq (r1 r2 : regex)
| Alt (r1 r2 : regex)
| Star (p : char -> bool)
| Group (r : regex).

Definition Plus (p : char -> bool) : regex := Seq (Chr p) (Star p).

Fixpoint Lit (s : str) (r : regex) : regex :=
  match s with
  | [] => r
  | c :: s' => Seq (Chr (char_eqb c)) (Lit s' r)
  end.

(** Matcher state: the character before the current position (for [^]),
    the text still to read, and what group 1 captured. *)
Record mstate : Type := MState {
  prev : option char;
  rest : str;
  grp : option str
}.

(** Greedy repetition with backtracking: longest run first. *)
Fixpoint star (p : char -> bool) (pr : option char) (s : str)
    (k : option char -> str -> option mstate) : option mstate :=
  match s with
  | c :: s' =>
      if p c then
        match star p (Some c) s' k with
        | Some st => Some st
        | None => k pr s
        end
      else k pr s
  | [] => k pr s
  end.

(** Backtracking matcher in continuation-passing style; [^] and [$] have
    their [re.MULTILINE] meaning. *)
Fixpoint run (r : regex) (st : mstate) (k : mstate -> option mstate)
    : option mstate :=
  match r with
  | Chr p =>
      match rest st with
      | c :: s' => if p c then k (MState (Some c) s' (grp st)) else None
      | [] => None
      end
  | Bol =>
      match prev st with
      | None => k st
      | Some c => if N.eqb c 10 then k st else None
      end
  | Eol =>
      match rest st with
      | [] => k st
      | c :: _ => if N.eqb c 10 then k st else None
      end
  | Seq r1 r2 => run r1 st (fun st' => run r2 st' k)
  | Alt r1 r2 =>
      match run r1 st k with
      | Some st' => Some st'
      | None => run r2 st k
      end
  | Star p => star p (prev st) (rest st) (fun pr s => k (MState pr s (grp st)))
  | Group r1 =>
      run r1 st (fun st' =>
        k (MState (prev st') (rest st')
             (Some (firstn (length (rest st) - length (rest st')) (rest st)))))
  end.

Definition match_at (r : regex) (pr : option char) (s : str) : option mstate :=
  run r (MState pr s None) Some.

Definition group1 (st : mstate) : str :=
  match grp st with Some g => g | None => [] end.

(** [re.search(r, s)]: the leftmost match. *)
Fixpoint search_from (r : regex) (pr : option char) (s : str) : option mstate :=
  match match_at r pr s with
  | Some st => Some st
  | None =>
      match s with
      | c :: s' => search_from r (Some c) s'
      | [] => None
      end
  end.

Definition re_search (r : regex) (s : str) : option mstate :=
  search_from r None s.

(** [re.findall(r, s)] for a pattern with one group: group 1 of the
    successive non-overlapping matches.  [skip] counts the characters of
    the last match still to step over. *)
Fixpoint findall_from (r : regex) (pr : option char) (s : str) (skip : nat)
    : list str :=
  match skip with
  | S n =>
      match s with
      | c :: s' => findall_from r (Some c) s' n
      | [] => []
      end
  | O =>
      match match_at r pr s with
      | Some st =>
          group1 st ::
          match s with
          | c :: s' =>
              findall_from r (Some c) s' (length s - length (rest st) - 1)
          | [] => []
          end
      | None =>
          match s with
          | c :: s' => findall_from r (Some c) s' 0
          | [] => []
          end
      end
  end.

Definition re_findall (r : regex) (s : str) : list str :=
  findall_from r None s 0.

Definition one_of (cs : list char) (c : char) : bool := existsb (char_eqb c) cs.

(** [.] without [re.DOTALL] *)
Definition dot (c : char) : bool := negb (N.eqb c 10).

Definition bullet : char := 8226.

(** ** Python values and [json.loads] *)

Local Open Scope N_scope.

(** The values the steps handle: what [json.loads] can return, lists of
    strings and dictionaries.  A float keeps the text it was read from. *)
Inductive value : Type :=
| VNone
| VBool (b : bool)
| VInt (z : Z)
| VFloat (lexeme : str)
| VStr (s : str)
| VList (l : list value)
| VDict (d : list (str * value)).

(** [d[k] = v]: a key already present keeps its place. *)
Fixpoint dict_set (k : str) (v : value) (d : list (str * value))
    : list (str * value) :=
  match d with
  | [] => [(k, v)]
  | (k', v') :: d' =>
      if str_eqb k k' then (k', v) :: d' else (k', v') :: dict_set k v d'
  end.

Fixpoint dict_get (k : str) (d : list (str * value)) : option value :=
  match d with
  | [] => None
  | (k', v') :: d' => if str_eqb k k' then Some v' else dict_get k d'
  end.

Definition json_ws (c : char) : bool :=
  N.eqb c 32 || N.eqb c 9 || N.eqb c 10 || N.eqb c 13.

Fixpoint skip_ws (s : str) : str :=
  match s with
  | c :: s' => if json_ws c then skip_ws s' else s
  | [] => []
  end.

Definition ascii_digit (c : char) : bool := in_range 48 57 c.

Definition hexval (c : char) : option N :=
  if in_range 48 57 c then Some (c - 48)%N
  else if in_range 97 102 c then Some (c - 87)%N
  else if in_range 65 70 c then Some (c - 55)%N
  else None.

Definition hex4 (a b c d : char) : option N :=
  match hexval a, hexval b, hexval c, hexval d with
  | Some x, Some y, Some z, Some w => Some (((x * 16 + y) * 16 + z) * 16 + w)%N
  | _, _, _, _ => None
  end.

Definition unescape (c : char) : option char :=
  if N.eqb c 34 then Some 34
  else if N.eqb c 92 then Some 92
  else if N.eqb c 47 then Some 47
  else if N.eqb c 98 then Some 8
  else if N.eqb c 102 then Some 12
  else if N.eqb c 110 then Some 10
  else if N.eqb c 114 then Some 13
  else if N.eqb c 116 then Some 9
  else None.

(** The body of a JSON string, after its opening quote (strict mode:
    no raw control character).  Returns the string and what follows the
    closing quote. *)
Fixpoint scanstring (acc : str) (s : str) : option (str * str) :=
  match s with
  | [] => None
  | c :: s' =>
      if N.eqb c 34 then Some (rev acc, s')
      else if N.eqb c 92 then
        match s' with
        | e :: s'' =>
            if N.eqb e 117 then
              match s'' with
              | a :: b :: c1 :: d :: s3 =>
                  match hex4 a b c1 d with
                  | Some u =>
                      match s3 with
                      | b1 :: u1 :: e1 :: f1 :: g1 :: h1 :: s4 =>
                          if in_range 55296 56319 u && N.eqb b1 92 && N.eqb u1 117
                          then
                            match hex4 e1 f1 g1 h1 with
                            | Some u2 =>
                                if in_range 56320 57343 u2
                                then scanstring
                                       ((65536 + (u - 55296) * 1024 + (u2 - 56320))%N
                                        :: acc) s4
                                else scanstring (u :: acc) s3
                            | None => None
                            end
                          else scanstring (u :: acc) s3
                      | _ => scanstring (u :: acc) s3
                      end
                  | None => None
                  end
              | _ => None
              end
            else
              match unescape e with
              | Some x => scanstring (x :: acc) s''
              | None => None
              end
        | [] => None
        end
      else if N.leb c 31 then None
      else scanstring (c :: acc) s'
  end.

Fixpoint span (p : char -> bool) (s : str) : str * str :=
  match s with
  | c :: s' =>
      if p c then let (a, b) := span p s' in (c :: a, b) else ([], s)
  | [] => ([], [])
  end.

Definition int_of_digits (ds : str) : Z :=
  fold_left (fun a c => (a * 10 + Z.of_N (c - 48))%Z) ds 0%Z.

(** A JSON number: an optional minus sign, an integer part without
    leading zero, an optional fraction, an optional exponent. *)
Definition match_number (s : str) : option (value * str) :=
  let (sign, s1) :=
    match s with
    | c :: s' => if N.eqb c 45 then ([c], s') else ([], s)
    | [] => ([], s)
    end in
  match s1 with
  | c :: s2 =>
      if ascii_digit c then
        let (ds, s3) := if N.eqb c 48 then ([c], s2) else span ascii_digit s1 in
        let (frac, s4) :=
          match s3 with
          | p :: q :: _ =>
              if N.eqb p 46 && ascii_digit q
              then let (fs, r) := span ascii_digit (tl s3) in (p :: fs, r)
              else ([], s3)
          | _ => ([], s3)
          end in
        let (ex, s5) :=
          match s4 with
          | e :: t =>
              if N.eqb e 101 || N.eqb e 69 then
                let (sg, t') :=
                  match t with
                  | g :: t1 =>
                      if N.eqb g 43 || N.eqb g 45 then ([g], t1) else ([], t)
                  | [] => ([], t)
                  end in
                match t' with
                | q :: _ =>
                    if ascii_digit q
                    then let (es, r) := span ascii_digit t' in
                         (e :: sg ++ es, r)
                    else ([], s4)
                | [] => ([], s4)
                end
              else ([], s4)
          | [] => ([], s4)
          end in
        match frac, ex with
        | [], [] =>
            Some (VInt (match sign with
                        | [] => int_of_digits ds
                        | _ => (- int_of_digits ds)%Z
                        end), s5)
        | _, _ => Some (VFloat (sign ++ ds ++ frac ++ ex), s5)
        end
      else None
  | [] => None
  end.

Fixpoint strip_prefix (p s : str) : option str :=
  match p, s with
  | [], _ => Some s
  | a :: p', b :: s' => if char_eqb a b then strip_prefix p' s' else None
  | _ :: _, [] => None
  end.

Inductive jmode : Type :=
| JValue
| JArray (acc : list value)
| JObject (acc : list (str * value)).

(** The scanner: one JSON term ([JValue]), the elements of an array after
    its bracket ([JArray]) or the members of an object after its brace
    ([JObject]).  Returns the value and the text after it. *)
Fixpoint scan (fuel : nat) (m : jmode) (s : str) : option (value * str) :=
  match fuel with
  | O => None
  | S fuel' =>
    match m with
    | JValue =>
        match s with
        | [] => None
        | c :: s' =>
            if N.eqb c 34 then
              match scanstring [] s' with
              | Some (x, r) => Some (VStr x, r)
              | None => None
              end
            else if N.eqb c 123 then
              match skip_ws s' with
              | c1 :: r =>
                  if N.eqb c1 125 then Some (VDict [], r)
                  else scan fuel' (JObject []) (c1 :: r)
              | [] => None
              end
            else if N.eqb c 91 then
              match skip_ws s' with
              | c1 :: r =>
                  if N.eqb c1 93 then Some (VList [], r)
                  else scan fuel' (JArray []) (c1 :: r)
              | [] => None
              end
            else
              match strip_prefix (lit "null") s, strip_prefix (lit "true") s,
                    strip_prefix (lit "false") s with
              | Some r, _, _ => Some (VNone, r)
              | _, Some r, _ => Some (VBool true, r)
              | _, _, Some r => Some (VBool false, r)
              | _, _, _ =>
                  match strip_prefix (lit "NaN") s,
                        strip_prefix (lit "Infinity") s,
                        strip_prefix (lit "-Infinity") s with
                  | Some r, _, _ => Some (VFloat (lit "NaN"), r)
                  | _, Some r, _ => Some (VFloat (lit "Infinity"), r)
                  | _, _, Some r => Some (VFloat (lit "-Infinity"), r)
                  | _, _, _ => match_number s
                  end
              end
        end
    | JArray acc =>
        match scan fuel' JValue s with
        | Some (v, s1) =>
            match skip_ws s1 with
            | c :: r =>
                if N.eqb c 93 then Some (VList (rev (v :: acc)), r)
                else if N.eqb c 44 then scan fuel' (JArray (v :: acc)) (skip_ws r)
                else None
            | [] => None
            end
        | None => None
        end
    | JObject acc =>
        match s with
        | c :: s' =>
            if N.eqb c 34 then
              match scanstring [] s' with
              | Some (key, s1) =>
                  match skip_ws s1 with
                  | c1 :: s2 =>
                      if N.eqb c1 58 then
                        match scan fuel' JValue (skip_ws s2) with
                        | Some (v, s3) =>
                            match skip_ws s3 with
                            | c2 :: r =>
                                if N.eqb c2 125
                                then Some (VDict (dict_set key v acc), r)
                                else if N.eqb c2 44
                                then scan fuel' (JObject (dict_set key v acc))
                                          (skip_ws r)
                                else None
                            | [] => None
                            end
                        | None => None
                        end
                      else None
                  | [] => None
                  end
              | None => None
              end
            else None
        | [] => None
        end
    end
  end.

(** [json.loads(raw)] for a [str]: [None] stands for the exception it
    raises on text that is not one JSON document.  The fuel is more than
    the scanner can use: at most two nested calls are made per character
    read.  Nesting is not bounded here; the interpreter gives up on
    extremely deep nesting with an exception that the callers below treat
    like any decoding failure. *)
Definition json_loads (raw : str) : option value :=
  match raw with
  | 65279%N :: _ => None
  | _ =>
      match scan (2 * length raw + 2)%nat JValue (skip_ws raw) with
      | Some (v, r) => match skip_ws r with [] => Some v | _ => None end
      | None => None
      end
  end.

Local Close Scope N_scope.

(** ** Exceptions and the state-and-exception monad *)

(** The exceptions of the steps and of the script; [DuplicateWidgetID] is
    the error of Streamlit for two widgets with one key. *)
Inductive exn : Type :=
| BackendError (tag : nat)
| IndexError
| KeyError
| TypeError
| AttributeError
| DuplicateWidgetID.

(** A computation over a state [St]: it returns or raises, and leaves a
    state behind either way. *)
Definition M (St A : Type) : Type := St -> (exn + A) * St.

Definition ret {St A} (a : A) : M St A := fun s => (inr a, s).

Definition raise {St A} (e : exn) : M St A := fun s => (inl e, s).

Definition bind {St A B} (m : M St A) (f : A -> M St B) : M St B :=
  fun s =>
    match m s with
    | (inr a, s') => f a s'
    | (inl e, s') => (inl e, s')
    end.

Declare Scope monad_scope.
Delimit Scope monad_scope with monad.
Notation "x <- m ;; k" := (bind m (fun x => k))
  (at level 61, m at next level, right associativity) : monad_scope.
Notation "m ;;; k" := (bind m (fun _ => k))
  (at level 61, right associativity) : monad_scope.
Local Open Scope monad_scope.

(** ** The shared cache: [TTLCache(maxsize=100, ttl=600)] *)

Record entry : Type := Entry {
  ekey : str;
  evalue : value;
  eexpires : Z
}.

(** Entries from least to most recently used. *)
Definition ttlcache := list entry.

Definition maxsize : nat := 100.
Definition ttl : Z := 600.

Definition live (now : Z) (e : entry) : bool := (now <? eexpires e)%Z.

Definition has_key (k : str) (e : entry) : bool := str_eqb k (ekey e).

Definition remove (k : str) (c : ttlcache) : ttlcache :=
  filter (fun e => negb (has_key k e)) c.

(** [key in cache]: present and not expired; the cache is not touched. *)
Definition contains (now : Z) (k : str) (c : ttlcache) : bool :=
  match find (has_key k) c with
  | Some e => live now e
  | None => false
  end.

(** [cache[key]]: the entry becomes the most recently used; an expired or
    absent key gives no value ([KeyError]). *)
Definition getitem (now : Z) (k : str) (c : ttlcache) : option value * ttlcache :=
  match find (has_key k) c with
  | Some e =>
      (if live now e then Some (evalue e) else None, remove k c ++ [e])
  | None => (None, c)
  end.

(** [expire()]: drops what has expired.  The library walks the entries
    from the oldest deadline on and stops at the first live one; with a
    single [ttl] and a clock that never goes back, that is every expired
    entry. *)
Definition expire (now : Z) (c : ttlcache) : ttlcache := filter (live now) c.

(** [cache[key] = value]: expired entries go first; a new key evicts the
    least recently used entries while the cache is full; the entry is then
    the most recent one and expires [ttl] from now. *)
Definition setitem (now : Z) (k : str) (v : value) (c : ttlcache) : ttlcache :=
  let c1 := expire now c in
  let c2 :=
    match find (has_key k) c1 with
    | Some _ => c1
    | None => skipn (length c1 + 1 - maxsize) c1
    end in
  remove k c2 ++ [Entry k v (now + ttl)].

(** ** The retry policy of [tenacity] *)

(** [stop_after_attempt(n)] *)
Definition stop_after_attempt (max_attempt_number attempt_number : nat) : bool :=
  Nat.leb max_attempt_number attempt_number.

(** [wait_exponential(multiplier, min, max)] with [exp_base=2], as
    tenacity 8 computes it: the wait after attempt [attempt_number]
    (counted from 1) is [multiplier * 2 ** (attempt_number - 1)], clamped
    between [min] and [max]. *)
Definition wait_exponential (multiplier min max : Z) (attempt_number : nat) : Z :=
  let exp := (2 ^ (Z.of_nat attempt_number - 1))%Z in
  let result := (multiplier * exp)%Z in
  Z.max (Z.max 0 min) (Z.min result max).

(** ** The world of the steps *)

Inductive reply : Type :=
| Text (t : option str)
| Raises (e : exn).

Record world : Type := World {
  clock : Z;
  cache : ttlcache;
  calls : nat;
  sleeps : list Z;
  logged : nat
}.

Definition set_cache (c : ttlcache) (w : world) : world :=
  World (clock w) c (calls w) (sleeps w) (logged w).

(** Time passing outside the steps. *)
Definition elapse (dt : Z) (w : world) : world :=
  World (clock w + dt) (cache w) (calls w) (sleeps w) (logged w).

Definition cache_contains (k : str) : M world bool :=
  fun w => (inr (contains (clock w) k (cache w)), w).

Definition cache_getitem (k : str) : M world value :=
  fun w =>
    match getitem (clock w) k (cache w) with
    | (Some v, c) => (inr v, set_cache c w)
    | (None, c) => (inl KeyError, set_cache c w)
    end.

Definition cache_setitem (k : str) (v : value) : M world unit :=
  fun w => (inr tt, set_cache (setitem (clock w) k v (cache w)) w).

(** [time.sleep(d)] *)
Definition sleep (d : Z) : M world unit :=
  fun w =>
    (inr tt, World (clock w + d) (cache w) (calls w) (sleeps w ++ [d]) (logged w)).

(** [logger.info(...)] *)
Definition log_info : M world unit :=
  fun w => (inr tt, World (clock w) (cache w) (calls w) (sleeps w) (S (logged w))).

(** [resp.text or ''], the empty string when there is no text *)
Definition or_empty (t : option str) : str :=
  match t with
  | Some s => s
  | None => []
  end.

(** [l[0]] *)
Definition index0 {St} (l : list str) : M St str :=
  match l with
  | x :: _ => ret x
  | [] => raise IndexError
  end.

(** [doc[key]] inside [try]: only a dictionary with the key gives a value;
    anything else raises. *)
Definition subscript (doc : value) (key : str) : option value :=
  match doc with
  | VDict d => dict_get key d
  | _ => None
  end.

Definition is_empty {A} (l : list A) : bool :=
  match l with
  | [] => true
  | _ => false
  end.

Definition hexdigit (n : N) : char :=
  if N.ltb n 10 then (48 + n)%N else (87 + n)%N.

Fixpoint hex_fixed (width : nat) (n : N) : str :=
  match width with
  | O => []
  | S w => hex_fixed w (n / 16)%N ++ [hexdigit (n mod 16)%N]
  end.

(** ** The Streamlit script *)

(** An entry of the history (line 222). *)
Record post : Type := Post { tema : str; subtema : value; legenda : value }.

(** [st.session_state]: the keys the script keeps between two runs.  The
    check boxes of the second tab keep their state under keys of their
    own, [sub_] followed by the subtopic, which are none of these. *)
Record session : Type := Session {
  ss_theme : option str;
  ss_subtopics : option value;
  ss_chosen : option value;
  ss_caption_res : option value;
  ss_img_prompt : option str;
  ss_history : option (list post)
}.

(** What the widgets return in one run of the script. *)
Record widgets : Type := Widgets {
  theme_input : str;
  next_button : bool;
  num_subs : Z;
  length_radio : str;
  formality_radio : str;
  caption_button : bool;
  image_button : bool
}.

Record app : Type := App {
  sess : session;
  wld : world
}.

Inductive outcome : Type :=
| Stopped
| Finished.

Definition lift {A} (m : M world A) : M app A :=
  fun a => let (r, w) := m (wld a) in (r, App (sess a) w).

Definition get_session : M app session := fun a => (inr (sess a), a).

Definition put_session (s : session) : M app unit :=
  fun a => (inr tt, App s (wld a)).

Definition set_theme (t : str) : M app unit :=
  s <- get_session ;;
  put_session (Session (Some t) (ss_subtopics s) (ss_chosen s)
                 (ss_caption_res s) (ss_img_prompt s) (ss_history s)).

Definition set_subtopics (v : value) : M app unit :=
  s <- get_session ;;
  put_session (Session (ss_theme s) (Some v) (ss_chosen s)
                 (ss_caption_res s) (ss_img_prompt s) (ss_history s)).

Definition set_chosen (v : value) : M app unit :=
  s <- get_session ;;
  put_session (Session (ss_theme s) (ss_subtopics s) (Some v)
                 (ss_caption_res s) (ss_img_prompt s) (ss_history s)).

Definition set_caption_res (v : value) : M app unit :=
  s <- get_session ;;
  put_session (Session (ss_theme s) (ss_subtopics s) (ss_chosen s)
                 (Some v) (ss_img_prompt s) (ss_history s)).

Definition set_img_prompt (p : str) : M app unit :=
  s <- get_session ;;
  put_session (Session (ss_theme s) (ss_subtopics s) (ss_chosen s)
                 (ss_caption_res s) (Some p) (ss_history s)).

Definition set_history (h : list post) : M app unit :=
  s <- get_session ;;
  put_session (Session (ss_theme s) (ss_subtopics s) (ss_chosen s)
                 (ss_caption_res s) (ss_img_prompt s) (Some h)).

(** [st.session_state[key]] *)
Definition lookup {St A} (o : option A) : M St A :=
  match o with
  | Some a => ret a
  | None => raise KeyError
  end.

Definition unless {St} (b : bool) (m : M St unit) : M St unit :=
  if b then ret tt else m.

Definition present {A} (o : option A) : bool :=
  match o with
  | Some _ => true
  | None => false
  end.

(** A list of strings read back from a value; the script only ever stores
    such lists under ['subtopics']. *)
Fixpoint strs_of (l : list value) : option (list str) :=
  match l with
  | [] => Some []
  | VStr s :: l' => option_map (cons s) (strs_of l')
  | _ :: _ => None
  end.

Definition as_strs {St} (v : value) : M St (list str) :=
  match v with
  | VList l =>
      match strs_of l with
      | Some ss => ret ss
      | None => raise TypeError
      end
  | _ => raise TypeError
  end.

(** Lines 171-173: one check box per subtopic, with the key [sub_]
    followed by the subtopic.  Streamlit refuses a second widget with a
    key already used in the run. *)
Fixpoint has_duplicates (l : list str) : bool :=
  match l with
  | [] => false
  | x :: l' => existsb (str_eqb x) l' || has_duplicates l'
  end.

Definition checkboxes {St} (l : list str) : M St unit :=
  if has_duplicates l then raise DuplicateWidgetID else ret tt.

(** [d[key]] outside [try]. *)
Definition item {St} (d : value) (key : str) : M St value :=
  match subscript d key with
  | Some v => ret v
  | None => raise KeyError
  end.

(** [d.get(key, '')] *)
Definition dict_get_default {St} (d : value) (key : str) : M St value :=
  match d with
  | VDict kv =>
      match dict_get key kv with
      | Some v => ret v
      | None => ret (VStr [])
      end
  | _ => raise AttributeError
  end.

Section Orchestrator.

(** Unicode tables of the interpreter: the decimal digits [\d] matches and
    the printable characters [repr] leaves as they are. *)
Variable isdecimal : char -> bool.
Variable isprintable : char -> bool.

(** The generation backend: what its n-th invocation does. *)
Variable backend : nat -> reply.

(** Whether the float read from a text counts as true, and [==] between
    two values of which one is a float or both are containers: these
    depend on the arithmetic of floats and on the identity of objects,
    which are not fixed here. *)
Variable float_truthy : str -> bool.
Variable other_eq : value -> value -> bool.

(** The truth of a value in a condition. *)
Definition truthy (v : value) : bool :=
  match v with
  | VNone => false
  | VBool b => b
  | VInt z => negb (Z.eqb z 0)
  | VFloat x => float_truthy x
  | VStr s => negb (is_empty s)
  | VList l => negb (is_empty l)
  | VDict d => negb (is_empty d)
  end.

(** A Boolean or an integer as an integer. *)
Definition int_of (v : value) : option Z :=
  match v with
  | VBool b => Some (if b then 1 else 0)%Z
  | VInt z => Some z
  | _ => None
  end.

(** [a == b]: a string only equals the same string, [None] only [None],
    Booleans and integers compare as integers. *)
Definition value_eq (a b : value) : bool :=
  match a, b with
  | VStr x, VStr y => str_eqb x y
  | VStr _, _ | _, VStr _ => false
  | VNone, VNone => true
  | VNone, _ | _, VNone => false
  | _, _ =>
      match int_of a, int_of b with
      | Some x, Some y => Z.eqb x y
      | _, _ => other_eq a b
      end
  end.

(** The test of line 223 for one entry [h] of the history. *)
Definition same_post (entry h : post) : bool :=
  str_eqb (tema h) (tema entry) && value_eq (subtema h) (subtema entry).

(** Lines 221-224, on the theme, the choice and the caption of the run. *)
Definition record_history (theme : str) (choice caption : value)
    (history : list post) : list post :=
  if truthy caption then
    let entry := Post theme choice caption in
    if existsb (same_post entry) history then history else history ++ [entry]
  else history.

(** [r'^\s*(?:\d+[\.)]|[-•])\s*(.+)$'] *)
Definition subtopic_re : regex :=
  Seq Bol
   (Seq (Star isspace)
    (Seq (Alt (Seq (Plus isdecimal) (Chr (one_of (lit ".)"))))
              (Chr (one_of [45%N; bullet])))
     (Seq (Star isspace)
      (Seq (Group (Plus dot)) Eol)))).

(** [r'Choice\s*:\s*(.+)'] *)
Definition choice_re : regex :=
  Lit (lit "Choice")
   (Seq (Star isspace)
    (Seq (Chr (char_eqb 58))
     (Seq (Star isspace) (Group (Plus dot))))).

(** [repr(s)] for a string. *)
Definition repr_char (quote : char) (c : char) : str :=
  if char_eqb c quote || char_eqb c 92 then [92%N; c]
  else if char_eqb c 9 then lit "\t"
  else if char_eqb c 10 then lit "\n"
  else if char_eqb c 13 then lit "\r"
  else if N.ltb c 32 || char_eqb c 127 then lit "\x" ++ hex_fixed 2 c
  else if N.ltb c 127 then [c]
  else if isprintable c then [c]
  else if N.ltb c 256 then lit "\x" ++ hex_fixed 2 c
  else if N.ltb c 65536 then lit "\u" ++ hex_fixed 4 c
  else lit "\U" ++ hex_fixed 8 c.

Definition repr_str (s : str) : str :=
  let quote : char :=
    if existsb (char_eqb 39) s && negb (existsb (char_eqb 34) s)
    then 34%N else 39%N in
  quote :: flat_map (repr_char quote) s ++ [quote].

Fixpoint join (sep : str) (l : list str) : str :=
  match l with
  | [] => []
  | [x] => x
  | x :: l' => x ++ sep ++ join sep l'
  end.

(** [str(tuple(l))] for a list of strings. *)
Definition repr_tuple (l : list str) : str :=
  match l with
  | [x] => lit "(" ++ repr_str x ++ lit ",)"
  | _ => lit "(" ++ join (lit ", ") (List.map repr_str l) ++ lit ")"
  end.

(** [client.models.generate_content(...)] followed by [.text]: one
    backend invocation. *)
Definition generate_content : M world (option str) :=
  fun w =>
    let w' := World (clock w) (cache w) (S (calls w)) (sleeps w) (logged w) in
    match backend (calls w) with
    | Text t => (inr t, w')
    | Raises e => (inl e, w')
    end.

(** The loop of [tenacity.retry(stop=stop_after_attempt(3),
    wait=wait_exponential(multiplier=1, min=2, max=10),
    retry=retry_if_exception_type(Exception), reraise=True)]. *)
Fixpoint retry_loop {A} (fuel attempt_number : nat) (f : M world A) : M world A :=
  fun w =>
    match f w with
    | (inr r, w') => (inr r, w')
    | (inl e, w') =>
        if stop_after_attempt 3 attempt_number then (inl e, w')
        else
          match fuel with
          | O => (inl e, w')
          | S fuel' =>
              retry_loop fuel' (S attempt_number) f
                (snd (sleep (wait_exponential 1 2 10 attempt_number) w'))
          end
    end.

(** The body of the decorator: call, then log. *)
Definition wrapper {A} (func : M world A) : M world A :=
  result <- func ;;
  log_info ;;;
  ret result.

Definition retry_on_failure {A} (func : M world A) : M world A :=
  retry_loop 3 1 (wrapper func).

Definition subtopics_key (theme : str) (count : Z) : str :=
  lit "subtopics:" ++ theme ++ lit ":" ++ str_of_int count.

Definition choice_key (theme : str) (subtopics : list str) : str :=
  lit "choice:" ++ theme ++ lit ":" ++ repr_tuple subtopics.

(** Lines 65-68 and the slice: the items read from the backend text. *)
Definition parse_subtopics (text : str) (count : Z) : list str :=
  let items := re_findall subtopic_re text in
  let items :=
    if is_empty items
    then List.map strip
           (filter (fun line => Nat.ltb 5 (length (strip line))) (splitlines text))
    else items in
  slice_to count items.

Definition fetch_subtopics_func (theme : str) (count : Z) : M world value :=
  let cache_key := subtopics_key theme count in
  hit <- cache_contains cache_key ;;
  if hit then cache_getitem cache_key
  else
    resp <- generate_content ;;
    let text := or_empty resp in
    cache_setitem cache_key (VList (List.map VStr (parse_subtopics text count))) ;;;
    ret (VList (List.map VStr (parse_subtopics text count))).

Definition fetch_subtopics (theme : str) (count : Z) : M world value :=
  retry_on_failure (fetch_subtopics_func theme count).

Definition selection (choice reason : value) : value :=
  VDict [(lit "choice", choice); (lit "reason", reason)].

(** The [try] block of [choose_subtopic]: [None] when it raises. *)
Definition decode_selection (raw : str) : option value :=
  match json_loads raw with
  | Some doc =>
      match subscript doc (lit "choice"), subscript doc (lit "reason") with
      | Some c, Some r => Some (selection c r)
      | _, _ => None
      end
  | None => None
  end.

(** Lines 85-91: the result built from the raw text. *)
Definition parse_choice {St} (raw : str) (subtopics : list str) : M St value :=
  match decode_selection raw with
  | Some result => ret result
  | None =>
      choice <- match re_search choice_re raw with
                | Some m => ret (strip (group1 m))
                | None => index0 subtopics
                end ;;
      ret (selection (VStr choice) (VStr raw))
  end.

Definition choose_subtopic_func (theme : str) (subtopics : list str)
    : M world value :=
  let cache_key := choice_key theme subtopics in
  hit <- cache_contains cache_key ;;
  if hit then cache_getitem cache_key
  else
    resp <- generate_content ;;
    let raw := or_empty resp in
    result <- parse_choice raw subtopics ;;
    cache_setitem cache_key result ;;;
    ret result.

Definition choose_subtopic (theme : str) (subtopics : list str) : M world value :=
  retry_on_failure (choose_subtopic_func theme subtopics).

(** The arguments of the last two steps only enter the prompt. *)
Definition generate_caption_func (subtopic : value) (length formality : str)
    : M world value :=
  resp <- generate_content ;;
  let raw := or_empty resp in
  match json_loads raw with
  | Some doc => ret doc
  | None => ret (VDict [(lit "caption", VStr raw)])
  end.

Definition generate_caption (subtopic : value) (length formality : str)
    : M world value :=
  retry_on_failure (generate_caption_func subtopic length formality).

Definition generate_image_prompt_func (subtopic : value) : M world str :=
  resp <- generate_content ;;
  ret (or_empty resp).

Definition generate_image_prompt (subtopic : value) : M world str :=
  retry_on_failure (generate_image_prompt_func subtopic).

(** [run_in_executor(func, *args)]: the result of the call, or the
    exception it raised. *)
Definition run_in_executor {A} (call : M world A) : M app A := lift call.

(** One run of the script, from the initial state (lines 134-137) to the
    history (lines 221-224). *)
Definition script (ui : widgets) : M app outcome :=
  s0 <- get_session ;;
  unless (present (ss_history s0)) (set_history []) ;;;
  unless (present (ss_caption_res s0)) (set_caption_res (VDict [])) ;;;
  (if next_button ui then
     unless (is_empty (strip (theme_input ui)))
       (set_theme (strip (theme_input ui)))
   else ret tt) ;;;
  s1 <- get_session ;;
  match ss_theme s1 with
  | None => ret Stopped
  | Some theme =>
      unless (present (ss_subtopics s1))
        (v <- run_in_executor (fetch_subtopics theme (num_subs ui)) ;;
         set_subtopics v) ;;;
      s2 <- get_session ;;
      subs <- lookup (ss_subtopics s2) ;;
      l <- as_strs subs ;;
      checkboxes l ;;;
      unless (present (ss_chosen s2))
        (v <- run_in_executor (choose_subtopic theme l) ;;
         set_chosen v) ;;;
      s3 <- get_session ;;
      chosen <- lookup (ss_chosen s3) ;;
      choice <- item chosen (lit "choice") ;;
      _ <- item chosen (lit "reason") ;;
      (if caption_button ui then
         v <- run_in_executor
                (generate_caption choice (length_radio ui) (formality_radio ui)) ;;
         set_caption_res v
       else ret tt) ;;;
      s4 <- get_session ;;
      res <- lookup (ss_caption_res s4) ;;
      caption <- dict_get_default res (lit "caption") ;;
      (if negb (present (ss_img_prompt s4)) && image_button ui then
         p <- run_in_executor (generate_image_prompt choice) ;;
         set_img_prompt p
       else ret tt) ;;;
      s5 <- get_session ;;
      history <- lookup (ss_history s5) ;;
      set_history (record_history theme choice caption history) ;;;
      ret Finished
  end.

(** ** Notions used in the statements *)

(** The state after one backend invocation. *)
Definition called (w : world) : world :=
  World (clock w) (cache w) (S (calls w)) (sleeps w) (logged w).

(** The state after one successful attempt that stored nothing. *)
Definition answered (w : world) : world :=
  World (clock w) (cache w) (S (calls w)) (sleeps w) (S (logged w)).

(** The state after one successful attempt that stored [v] under [k]. *)
Definition stored (k : str) (v : value) (w : world) : world :=
  World (clock w) (setitem (clock w) k v (cache w)) (S (calls w)) (sleeps w)
        (S (logged w)).

(** The state a step leaves when all three attempts raised: two sleeps of
    [d1] and [d2], three backend invocations, nothing else. *)
Definition exhausted (d1 d2 : Z) (w : world) : world :=
  World (clock w + d1 + d2) (cache w) (calls w + 3) (sleeps w ++ [d1; d2])
        (logged w).

(** The time spent sleeping. *)
Definition total_wait (w : world) : Z := fold_right Z.add 0%Z (sleeps w).

(** Lines 104-107: the caption result read from the raw text. *)
Definition caption_of (raw : str) : value :=
  match json_loads raw with
  | Some doc => doc
  | None => VDict [(lit "caption", VStr raw)]
  end.

(** The raw text decodes as structured data with both fields. *)
Definition decodes (raw : str) (c r : value) : Prop :=
  exists doc,
    json_loads raw = Some doc /\
    subscript doc (lit "choice") = Some c /\
    subscript doc (lit "reason") = Some r.

Definition structured (raw : str) : Prop := exists c r, decodes raw c r.

(** The characters of [str(n)]. *)
Definition digit_or_minus (c : char) : bool := ascii_digit c || N.eqb c 45.

(** ** Where cached values come from *)

(** An entry written by [fetch_subtopics]. *)
Definition fetch_entry (e : entry) : Prop :=
  exists theme count text,
    ekey e = subtopics_key theme count /\
    evalue e = VList (List.map VStr (parse_subtopics text count)).

(** An entry written by [choose_subtopic]. *)
Definition choice_entry (e : entry) : Prop :=
  exists theme subtopics raw,
    ekey e = choice_key theme subtopics /\
    parse_choice raw subtopics tt = (inr (evalue e), tt).

Definition cache_ok (c : ttlcache) : Prop :=
  Forall (fun e => fetch_entry e \/ choice_entry e) c.

(** A code point of Unicode, and strings of such. *)
Definition valid_char (c : char) : bool := N.leb c 1114111.

Definition valid_str (s : str) : bool := forallb valid_char s.

(** An entry written by [choose_subtopic] for subtopics that are strings
    of Unicode code points, as every [str] of the interpreter is. *)
Definition unicode_choice_entry (e : entry) : Prop :=
  exists theme subtopics raw,
    forallb valid_str subtopics = true /\
    ekey e = choice_key theme subtopics /\
    parse_choice raw subtopics tt = (inr (evalue e), tt).

Definition cache_unicode (c : ttlcache) : Prop :=
  Forall (fun e => fetch_entry e \/ unicode_choice_entry e) c.

(** ** Reading [repr] back *)

(** The number a text of hexadecimal digits writes. *)
Definition unhex (ds : str) : option N :=
  fold_left (fun acc d =>
               match acc, hexval d with
               | Some a, Some v => Some (a * 16 + v)%N
               | _, _ => None
               end) ds (Some 0%N).

(** The character at the head of a text written by [repr_char], and what
    follows it. *)
Definition unrepr_char (s : str) : option (char * str) :=
  match s with
  | [] => None
  | c :: post =>
      if N.eqb c 92 then
        match post with
        | [] => None
        | t :: post' =>
            if N.eqb t 92 || N.eqb t 39 || N.eqb t 34 then Some (t, post')
            else if N.eqb t 116 then Some (9%N, post')
            else if N.eqb t 110 then Some (10%N, post')
            else if N.eqb t 114 then Some (13%N, post')
            else
              let width :=
                if N.eqb t 120 then 2 else if N.eqb t 117 then 4 else 8 in
              match unhex (firstn width post') with
              | Some n => Some (n, skipn width post')
              | None => None
              end
        end
      else Some (c, post)
  end.

(** No quote [q] in the text but right after a backslash; [prev] is the
    character before the text. *)
Fixpoint closed_from (prev q : char) (b : str) : bool :=
  match b with
  | [] => true
  | c :: b' => (negb (N.eqb c q) || N.eqb prev 92) && closed_from c q b'
  end.

(** What [repr] writes for a string: a quote, a text in which this quote
    only comes after a backslash, and the quote again. *)
Definition quoted (e : str) : Prop :=
  exists q b,
    e = q :: b ++ [q] /\ (q = 34%N \/ q = 39%N) /\ closed_from 0 q b = true.

(** ** Well-formed list lines *)

(** The prefix of a list line: digits and a closing [.] or [)], or a
    bullet. *)
Inductive marker : Type :=
| Numbered (digits : str) (closer : char)
| Bullet (b : char).

Record item_line : Type := ItemLine {
  indent : str;
  mark : marker;
  gap : str;
  content : str
}.

Definition render_mark (m : marker) : str :=
  match m with
  | Numbered ds c => ds ++ [c]
  | Bullet b => [b]
  end.

Definition render (l : item_line) : str :=
  indent l ++ render_mark (mark l) ++ gap l ++ content l.

(** White space that stays on the line. *)
Definition blank (c : char) : bool := isspace c && dot c.

(** Indentation and gap are blanks; the digits are decimal digits; the
    content is not empty, starts with a visible character and stays on the
    line. *)
Definition well_formed (l : item_line) : bool :=
  forallb blank (indent l) && forallb blank (gap l)
  && match mark l with
     | Numbered ds c =>
         negb (is_empty ds)
         && forallb (fun d => isdecimal d && negb (isspace d)) ds
         && one_of (lit ".)") c && negb (isdecimal c)
     | Bullet b => one_of [45%N; bullet] b && negb (isdecimal b)
     end
  && match content l with
     | c :: _ => negb (isspace c)
     | [] => false
     end
  && forallb dot (content l).

(** The character before the position reached after reading [u]. *)
Definition prev_after (pr : option char) (u : str) : option char :=
  fold_left (fun _ c => Some c) u pr.

(** A position where [^] matches. *)
Definition line_start (pr : option char) : bool :=
  match pr with
  | None => true
  | Some c => N.eqb c 10
  end.

(** A position where [$] matches. *)
Definition line_end (s : str) : bool :=
  match s with
  | [] => true
  | c :: _ => N.eqb c 10
  end.

(** A character no list prefix starts with. *)
Definition inert (c : char) : bool :=
  negb (isdecimal c) && negb (one_of [45%N; bullet] c).

Definition inert_head (s : str) : bool :=
  match s with
  | [] => true
  | c :: _ => inert c
  end.

(** White space that is not a digit. *)
Definition spacer (c : char) : bool := isspace c && negb (isdecimal c).

(** A line of the backend text: an item of the list, or anything that
    does not start like one (prose, a heading, an empty line). *)
Inductive text_line : Type :=
| Item (l : item_line)
| Plain (s : str).

Definition render_line (ln : text_line) : str :=
  match ln with
  | Item l => render l
  | Plain s => s
  end.

(** A plain line stays on the line and does not start, after its
    indentation, with a digit or a bullet. *)
Definition plain_ok (s : str) : bool :=
  forallb dot s
  && forallb (fun c => negb (isspace c) || spacer c) s
  && inert_head (lstrip s).

Definition ok_line (ln : text_line) : bool :=
  match ln with
  | Item l => well_formed l
  | Plain s => plain_ok s
  end.

(** The contents of the item lines, in order. *)
Definition items_of (lines : list text_line) : list str :=
  flat_map (fun ln => match ln with Item l => [content l] | Plain _ => [] end)
    lines.

(** A line without a line break of any kind. *)
Definition no_break (s : str) : bool :=
  forallb (fun c => negb (islinebreak c)) s.

(** A line the fallback keeps: longer than 5 characters once stripped. *)
Definition long_line (line : str) : bool := Nat.ltb 5 (length (strip line)).

(** A line that matches the list pattern when it is taken alone. *)
Definition matches_alone (line : str) : bool :=
  negb (is_empty (re_findall subtopic_re line)).

(** The text does not start with white space. *)
Definition visible_head (s : str) : bool :=
  match s with
  | [] => true
  | c :: _ => negb (isspace c)
  end.

(** ** Sample inputs *)

(** The two tables on ASCII, where they are known without the Unicode
    database. *)
Definition ascii_printable (c : char) : bool := in_range 32 126 c.

Definition fresh : world := World 0 [] 0 [] 0.

Definition failing_backend (n : nat) : reply := Raises (BackendError n).

(** A backend text of five numbered lines, and its items. *)
Definition five_lines : str :=
  lit "1. Moda circular" ++ [10%N] ++
  lit "2. Energia solar em casa" ++ [10%N] ++
  lit "3. Consumo consciente" ++ [10%N] ++
  lit "4. Mobilidade urbana" ++ [10%N] ++
  lit "5. Reciclagem criativa".

Definition five_items : list str :=
  [lit "Moda circular"; lit "Energia solar em casa";
   lit "Consumo consciente"; lit "Mobilidade urbana";
   lit "Reciclagem criativa"].

Definition topics : list str := [lit "Topic A"; lit "Topic B"; lit "Topic C"].

Definition marked_text : str :=
  lit "Looking at the audience:" ++ [10%N] ++
  lit "Choice: Topic B" ++ [10%N] ++
  lit "It is the most timely one.".

Definition listing_backend (n : nat) : reply := Text (Some five_lines).

Definition marker_backend (n : nat) : reply := Text (Some marked_text).

(** A marker naming something that is not among the subtopics. *)
Definition stray_backend (n : nat) : reply := Text (Some (lit "Choice: Topic D")).

(** Plain prose: no structure, no marker. *)
Definition prose_backend (n : nat) : reply := Text (Some (lit "hello")).

(** Responses without text. *)
Definition silent_backend (n : nat) : reply := Text None.

(** A listing for the first invocation, a marker afterwards. *)
Definition pipeline_backend (n : nat) : reply :=
  match n with
  | O => Text (Some five_lines)
  | S _ => Text (Some (lit "Choice: Energia solar em casa"))
  end.

Definition no_session : session := Session None None None None None None.

(** The user types a theme and presses the button of the first tab. *)
Definition enter_theme (t : str) : widgets :=
  Widgets t true 5 (lit "Media") (lit "Media") false false.

(** The five numbered lines, piece by piece. *)
Definition numbered (n : char) (text : str) : item_line :=
  ItemLine [] (Numbered [n] 46%N) [32%N] text.

Definition five_item_lines : list item_line :=
  [numbered 49 (lit "Moda circular"); numbered 50 (lit "Energia solar em casa");
   numbered 51 (lit "Consumo consciente"); numbered 52 (lit "Mobilidade urbana");
   numbered 53 (lit "Reciclagem criativa")].

(** The same list after a sentence and an empty line. *)
Definition announced_lines : list text_line :=
  Plain (lit "Claro! Aqui estao os subtemas:") :: Plain [] ::
  List.map Item five_item_lines.

(** An attempt invokes the backend at most once and never sleeps. *)
Definition single_call {A} (func : M world A) : Prop :=
  forall w,
    calls w <= calls (snd (func w)) <= S (calls w) /\
    sleeps (snd (func w)) = sleeps w.

(** ** Further notions *)

(** The session after lines 134-137: a history and a caption result are
    always there. *)
Definition with_defaults (s : session) : session :=
  Session (ss_theme s) (ss_subtopics s) (ss_chosen s)
    (Some (match ss_caption_res s with Some v => v | None => VDict [] end))
    (ss_img_prompt s)
    (Some (match ss_history s with Some h => h | None => [] end)).

(** The caption read from a caption result that is a dictionary
    (line 195). *)
Definition caption_text (d : list (str * value)) : value :=
  match dict_get (lit "caption") d with
  | Some v => v
  | None => VStr []
  end.

(** ** The download of the image prompt (line 215) *)

(** What [json.dumps] writes for one character of a string with
    [ensure_ascii=False]: the quote, the backslash and the control
    characters are escaped, every other character is written as it is. *)
Definition escape_char (c : char) : str :=
  if N.eqb c 34 then [92; 34]%N
  else if N.eqb c 92 then [92; 92]%N
  else if N.eqb c 10 then [92; 110]%N
  else if N.eqb c 13 then [92; 114]%N
  else if N.eqb c 9 then [92; 116]%N
  else if N.eqb c 12 then [92; 102]%N
  else if N.eqb c 8 then [92; 98]%N
  else if N.leb c 31
       then [92; 117; 48; 48; hexdigit (c / 16); hexdigit (c mod 16)]%N
  else [c].

Definition encode_basestring (s : str) : str :=
  [34%N] ++ flat_map escape_char s ++ [34%N].

(** [json.dumps({'prompt': prompt}, ensure_ascii=False, indent=2)]: the
    one member on a line of its own, indented by two spaces. *)
Definition dumps_prompt (prompt : str) : str :=
  lit "{" ++ [10%N] ++ lit "  " ++ encode_basestring (lit "prompt") ++ lit ": "
    ++ encode_basestring prompt ++ [10%N] ++ lit "}".

(** ** The side bar and the history over several runs *)

(** [l[-n:]] for a positive [n]. *)
Definition slice_last {A} (n : nat) (l : list A) : list A :=
  skipn (length l - n) l.

Fixpoint enumerate {A} (i : nat) (l : list A) : list (nat * A) :=
  match l with
  | [] => []
  | x :: l' => (i, x) :: enumerate (S i) l'
  end.

(** Lines 227-228: the lines of the sidebar, each with the number it is
    written with. *)
Definition sidebar_history (history : list post) : list (nat * post) :=
  List.map (fun p => (fst p + 1, snd p)) (enumerate 0 (rev (slice_last 3 history))).

(** The history after a sequence of runs that reach line 221, each given
    by its theme, its choice and its caption, from the empty history of
    line 135. *)
Definition history_after (runs : list (str * value * value)) : list post :=
  fold_left (fun h r => record_history (fst (fst r)) (snd (fst r)) (snd r) h)
    runs [].

(** Every entry has a caption that counts as true, and none has the theme
    and the subtopic of an earlier entry. *)
Definition no_repeat (history : list post) : Prop :=
  forall before entry after,
    history = before ++ entry :: after ->
    truthy (legenda entry) = true /\
    forall h, In h before -> same_post entry h = false.

(** The choice of every run is a string. *)
Definition string_choices (runs : list (str * value * value)) : Prop :=
  Forall (fun r => exists c, snd (fst r) = VStr c) runs.

(** What line 223 compares of an entry. *)
Definition post_key (p : post) : str * value := (tema p, subtema p).

(** ** Text that is not JSON *)

(** The characters a JSON document can begin with: a quote, a brace, a
    bracket, a minus sign, a digit, and the first letters of [null],
    [true], [false], [NaN] and [Infinity]. *)
Definition json_start (c : char) : bool :=
  N.eqb c 34 || N.eqb c 123 || N.eqb c 91 || N.eqb c 45 || ascii_digit c
  || N.eqb c 110 || N.eqb c 116 || N.eqb c 102 || N.eqb c 78 || N.eqb c 73.

(** The text is empty or blank, or begins with another character. *)
Definition prose (raw : str) : bool :=
  match skip_ws raw with
  | [] => true
  | c :: _ => negb (json_start c)
  end.

(** ** Further sample inputs *)

(** A backend that raises once and lists afterwards. *)
Definition flaky_backend (n : nat) : reply :=
  match n with
  | O => Raises (BackendError 0)
  | S _ => Text (Some five_lines)
  end.

(** A backend that answers with a number. *)
Definition number_backend (n : nat) : reply := Text (Some (lit "42")).

(** A cache filled to its capacity at time 0. *)
Definition full_cache : ttlcache :=
  List.map (fun i => Entry (lit "k" ++ str_of_int (Z.of_nat i)) VNone 600)
    (seq 0 100).

Definition full_world : world := World 0 full_cache 0 [] 0.

(** Two lines without a list prefix, one of them short. *)
Definition plain_text : str := lit "Moda circular" ++ [10%N] ++ lit "sol".

(** Nothing is pressed; the caption button is pressed. *)
Definition idle : widgets :=
  Widgets [] false 5 (lit "Media") (lit "Media") false false.

Definition press_caption : widgets :=
  Widgets [] false 5 (lit "Media") (lit "Media") true false.

(** A session in which the first three steps are done. *)
Definition filled : session :=
  Session (Some (lit "praia")) (Some (VList (List.map VStr five_items)))
    (Some (selection (VStr (lit "Moda circular")) (VStr (lit "raw"))))
    (Some (VDict [])) None (Some []).

(** The same session once a caption has been generated and recorded. *)
Definition first_post : post :=
  Post (lit "praia") (VStr (lit "Moda circular")) (VStr (lit "Sol e mar")).

Definition captioned : session :=
  Session (Some (lit "praia")) (Some (VList (List.map VStr five_items)))
    (Some (selection (VStr (lit "Moda circular")) (VStr (lit "raw"))))
    (Some (VDict [(lit "caption", VStr (lit "Sol e mar"))])) None
    (Some [first_post]).

(** Every float counts as true; values that are not compared as strings,
    [None] or integers are never equal. *)
Definition any_float (x : str) : bool := true.

Definition never_eq (a b : value) : bool := false.

(** Three list lines of which the first has nothing after its prefix but
    a space, and three lines of which none is a list line. *)
Definition gapped_text : str :=
  lit "1. " ++ [10%N] ++ lit "2. Praia" ++ [10%N] ++ lit "3. Neve".

Definition bare_text : str :=
  lit "1." ++ [10%N] ++ lit "abc" ++ [10%N] ++ lit "Longer line here".

Definition gapped_backend (n : nat) : reply := Text (Some gapped_text).

Definition bare_backend (n : nat) : reply := Text (Some bare_text).



(** Four runs: a caption, another caption for the same post, an empty
    caption, a caption for another post. *)
Definition four_runs : list (str * value * value) :=
  [(lit "praia", VStr (lit "Moda circular"), VStr (lit "primeira"));
   (lit "praia", VStr (lit "Moda circular"), VStr (lit "segunda"));
   (lit "praia", VStr (lit "Consumo consciente"), VStr []);
   (lit "neve", VStr (lit "Moda circular"), VStr (lit "terceira"))].

Definition four_posts : list post :=
  [Post (lit "a") VNone VNone; Post (lit "b") VNone VNone;
   Post (lit "c") VNone VNone; Post (lit "d") VNone VNone].

(** * Properties *)

(** ** Strings and keys *)

Lemma str_eqb_refl (a : str) : str_eqb a a = true.
Proof.
  induction a as [|x a IH]; simpl; trivial.
  unfold char_eqb. now rewrite N.eqb_refl.
Qed.

Lemma str_eqb_eq (a b : str) : str_eqb a b = true -> a = b.
Proof.
  revert b. induction a as [|x a IH]; destruct b as [|y b]; simpl; intros H;
    try discriminate; trivial.
  apply andb_true_iff in H. destruct H as [Hx Hab].
  apply N.eqb_eq in Hx. apply IH in Hab. now subst.
Qed.

Lemma lit_app (a b : string) : lit (a ++ b) = lit a ++ lit b.
Proof.
  unfold lit. induction a as [|c a IH]; simpl; trivial. now rewrite IH.
Qed.

Lemma lit_inj (a b : string) : lit a = lit b -> a = b.
Proof.
  unfold lit. revert b.
  induction a as [|c a IH]; destruct b as [|d b]; simpl; intros H;
    try discriminate; trivial.
  injection H as Hc Hab. apply IH in Hab. subst b.
  f_equal. rewrite <- (ascii_N_embedding c), <- (ascii_N_embedding d).
  now rewrite Hc.
Qed.

Lemma string_of_uint_digits (d : Decimal.uint) :
  forallb ascii_digit (lit (NilEmpty.string_of_uint d)) = true.
Proof.
  induction d; simpl; trivial.
Qed.

Lemma forallb_weaken (p q : char -> bool) (s : str) :
  (forall c, p c = true -> q c = true) ->
  forallb p s = true -> forallb q s = true.
Proof.
  intros Hpq. induction s as [|c s IH]; simpl; trivial.
  intros H. apply andb_true_iff in H. destruct H as [H1 H2].
  now rewrite (Hpq _ H1), IH.
Qed.

Lemma str_of_int_chars (n : Z) : forallb digit_or_minus (str_of_int n) = true.
Proof.
  assert (W : forall d, forallb digit_or_minus (lit (NilEmpty.string_of_uint d)) = true).
  { intros d. apply forallb_weaken with (p := ascii_digit).
    - intros c Hc. unfold digit_or_minus. now rewrite Hc.
    - apply string_of_uint_digits. }
  destruct n; unfold str_of_int.
  - apply W.
  - apply W.
  - rewrite forallb_app, W. reflexivity.
Qed.

Lemma string_of_uint_inj (d d' : Decimal.uint) :
  NilEmpty.string_of_uint d = NilEmpty.string_of_uint d' -> d = d'.
Proof.
  intros H. apply (f_equal NilEmpty.uint_of_string) in H.
  rewrite !NilEmpty.usu in H. congruence.
Qed.

Lemma str_of_int_inj (n m : Z) : str_of_int n = str_of_int m -> n = m.
Proof.
  assert (D : forall d s, lit "-" ++ s <> lit (NilEmpty.string_of_uint d)).
  { intros d s H. pose proof (string_of_uint_digits d) as F.
    rewrite <- H in F. simpl in F. discriminate. }
  assert (P : forall p q, lit (NilEmpty.string_of_uint (Pos.to_uint p)) =
                          lit (NilEmpty.string_of_uint (Pos.to_uint q)) -> p = q).
  { intros p q H. apply lit_inj, string_of_uint_inj in H.
    now apply DecimalPos.Unsigned.to_uint_inj. }
  assert (Z0P : forall p, lit (NilEmpty.string_of_uint (N.to_uint 0)) <>
                          lit (NilEmpty.string_of_uint (Pos.to_uint p))).
  { intros p H. apply lit_inj, string_of_uint_inj in H.
    change (N.to_uint 0 = N.to_uint (Npos p)) in H.
    apply DecimalN.Unsigned.to_uint_inj in H. discriminate. }
  destruct n as [|p|p], m as [|q|q]; unfold str_of_int; simpl Z.to_N; intros H;
    trivial.
  - now apply Z0P in H.
  - symmetry in H. now apply D in H.
  - symmetry in H. now apply Z0P in H.
  - f_equal. now apply P.
  - symmetry in H. now apply D in H.
  - now apply D in H.
  - now apply D in H.
  - apply app_inv_head in H. f_equal. now apply P.
Qed.

Lemma split_at_first (x : char) (u u' v v' : str) :
  ~ In x u -> ~ In x u' ->
  u ++ x :: v = u' ++ x :: v' -> u = u' /\ v = v'.
Proof.
  revert u'. induction u as [|c u IH]; intros [|c' u'] Hu Hu' H; simpl in *.
  - injection H as H. now split.
  - injection H as Hx _. exfalso. apply Hu'. now left.
  - injection H as Hx _. exfalso. apply Hu. now left.
  - injection H as Hc H. subst c'.
    destruct (IH u') as [E1 E2]; trivial.
    + intros F. apply Hu. now right.
    + intros F. apply Hu'. now right.
    + subst. now split.
Qed.

(** Two texts that agree after a separator absent from their tails agree
    piece by piece. *)
Lemma split_at_last (x : char) (a a' b b' : str) :
  ~ In x b -> ~ In x b' ->
  a ++ x :: b = a' ++ x :: b' -> a = a' /\ b = b'.
Proof.
  intros Hb Hb' H.
  assert (R : rev b ++ x :: rev a = rev b' ++ x :: rev a').
  { apply (f_equal (@rev char)) in H.
    rewrite !rev_app_distr in H. simpl in H.
    now rewrite <- !app_assoc in H. }
  apply split_at_first in R.
  - destruct R as [R1 R2].
    apply (f_equal (@rev char)) in R1, R2.
    rewrite !rev_involutive in R1, R2. now split.
  - now rewrite <- in_rev.
  - now rewrite <- in_rev.
Qed.

Lemma str_of_int_no_colon (n : Z) : ~ In 58%N (str_of_int n).
Proof.
  intros H. pose proof (str_of_int_chars n) as F.
  rewrite forallb_forall in F. apply F in H. discriminate.
Qed.

Lemma subtopics_key_inj (theme theme' : str) (count count' : Z) :
  subtopics_key theme count = subtopics_key theme' count' ->
  theme = theme' /\ count = count'.
Proof.
  unfold subtopics_key. intros H. apply app_inv_head in H.
  change (lit ":") with [58%N] in H. simpl in H.
  apply split_at_last in H; try apply str_of_int_no_colon.
  destruct H as [H1 H2]. split; trivial. now apply str_of_int_inj.
Qed.

Lemma subtopics_key_not_choice (theme theme' : str) (count : Z) (l : list str) :
  subtopics_key theme count <> choice_key theme' l.
Proof.
  unfold subtopics_key, choice_key. simpl. discriminate.
Qed.

(** ** The cache *)

Lemma find_key (k : str) (c : ttlcache) (e : entry) :
  find (has_key k) c = Some e -> In e c /\ ekey e = k.
Proof.
  intros H. apply find_some in H. destruct H as [Hin Hk]. split; trivial.
  symmetry. now apply str_eqb_eq.
Qed.

Lemma find_remove (k : str) (c : ttlcache) : find (has_key k) (remove k c) = None.
Proof.
  unfold remove. induction c as [|e c IH]; simpl; trivial.
  destruct (has_key k e) eqn:E; simpl; trivial. now rewrite E.
Qed.

Lemma find_app_none (k : str) (c c' : ttlcache) :
  find (has_key k) c = None -> find (has_key k) (c ++ c') = find (has_key k) c'.
Proof.
  induction c as [|e c IH]; simpl; trivial.
  destruct (has_key k e); [discriminate | exact IH].
Qed.

Lemma find_written (k : str) (v : value) (x : Z) (c : ttlcache) :
  find (has_key k) (remove k c ++ [Entry k v x]) = Some (Entry k v x).
Proof.
  rewrite find_app_none by apply find_remove.
  simpl. unfold has_key. simpl. now rewrite str_eqb_refl.
Qed.

Lemma find_setitem (now : Z) (k : str) (v : value) (c : ttlcache) :
  find (has_key k) (setitem now k v c) = Some (Entry k v (now + ttl)).
Proof. unfold setitem. apply find_written. Qed.

Lemma contains_setitem (now now' : Z) (k : str) (v : value) (c : ttlcache) :
  (now' < now + ttl)%Z -> contains now' k (setitem now k v c) = true.
Proof.
  intros H. unfold contains. rewrite find_setitem.
  unfold live. simpl. now apply Z.ltb_lt.
Qed.

Lemma getitem_setitem (now now' : Z) (k : str) (v : value) (c : ttlcache) :
  (now' < now + ttl)%Z -> fst (getitem now' k (setitem now k v c)) = Some v.
Proof.
  intros H. unfold getitem. rewrite find_setitem. simpl.
  unfold live. simpl. apply Z.ltb_lt in H. now rewrite H.
Qed.

Lemma contains_hit (now : Z) (k : str) (c : ttlcache) :
  contains now k c = true ->
  exists e, find (has_key k) c = Some e /\
            getitem now k c = (Some (evalue e), remove k c ++ [e]).
Proof.
  unfold contains, getitem. destruct (find (has_key k) c) as [e|]; intros H;
    [|discriminate].
  exists e. now rewrite H.
Qed.

Lemma contains_later (now now' : Z) (k : str) (c : ttlcache) :
  (now <= now')%Z -> contains now k c = false -> contains now' k c = false.
Proof.
  unfold contains. intros Hle. destruct (find (has_key k) c) as [e|]; trivial.
  unfold live. rewrite !Z.ltb_ge. lia.
Qed.

Lemma cache_ok_filter (p : entry -> bool) (c : ttlcache) :
  cache_ok c -> cache_ok (filter p c).
Proof.
  unfold cache_ok. rewrite !Forall_forall. intros H e He.
  apply filter_In in He. now apply H.
Qed.

Lemma cache_ok_skipn (n : nat) (c : ttlcache) : cache_ok c -> cache_ok (skipn n c).
Proof.
  unfold cache_ok. rewrite !Forall_forall. intros H e He.
  apply H. rewrite <- (firstn_skipn n c). apply in_or_app. now right.
Qed.

Lemma cache_ok_setitem (now : Z) (k : str) (v : value) (c : ttlcache) :
  cache_ok c ->
  fetch_entry (Entry k v (now + ttl)) \/ choice_entry (Entry k v (now + ttl)) ->
  cache_ok (setitem now k v c).
Proof.
  intros Hc He. unfold setitem. apply Forall_app. split.
  - apply cache_ok_filter.
    destruct (find (has_key k) (expire now c)).
    + now apply cache_ok_filter.
    + now apply cache_ok_skipn, cache_ok_filter.
  - now constructor.
Qed.

Lemma cache_ok_getitem (now : Z) (k : str) (c : ttlcache) :
  cache_ok c -> cache_ok (snd (getitem now k c)).
Proof.
  intros Hc. unfold getitem. destruct (find (has_key k) c) as [e|] eqn:E; simpl;
    trivial.
  apply Forall_app. split.
  - now apply cache_ok_filter.
  - constructor; [|constructor].
    apply find_key in E. destruct E as [Hin _].
    unfold cache_ok in Hc. rewrite Forall_forall in Hc. now apply Hc.
Qed.

(** A live entry under a [fetch_subtopics] key was computed by
    [fetch_subtopics] for that theme and that count. *)
Lemma fetch_hit_origin (theme : str) (count : Z) (c : ttlcache) (e : entry) :
  cache_ok c ->
  find (has_key (subtopics_key theme count)) c = Some e ->
  exists text, evalue e = VList (List.map VStr (parse_subtopics text count)).
Proof.
  intros Hc Hf. apply find_key in Hf. destruct Hf as [Hin Hk].
  unfold cache_ok in Hc. rewrite Forall_forall in Hc.
  destruct (Hc e Hin) as [(t & n & text & Hk' & Hv) | (t & l & raw & Hk' & _)].
  - rewrite Hk in Hk'. apply subtopics_key_inj in Hk'. destruct Hk' as [_ <-].
    now exists text.
  - rewrite Hk in Hk'. now apply subtopics_key_not_choice in Hk'.
Qed.

(** ** The retry decorator *)

Lemma wait_exponential_bounds (n : nat) :
  (2 <= wait_exponential 1 2 10 n <= 10)%Z.
Proof. unfold wait_exponential. lia. Qed.

Lemma wait_first : wait_exponential 1 2 10 1 = 2%Z.
Proof. reflexivity. Qed.

Lemma wait_second : wait_exponential 1 2 10 2 = 2%Z.
Proof. reflexivity. Qed.

Lemma wrapper_run {A} (func : M world A) (w : world) :
  wrapper func w =
  match func w with
  | (inr r, w') => (inr r, snd (log_info w'))
  | (inl e, w') => (inl e, w')
  end.
Proof.
  unfold wrapper, bind. destruct (func w) as [[e|r] w']; reflexivity.
Qed.

Lemma retry_loop_step {A} (fuel n : nat) (f : M world A) (w : world) :
  retry_loop (S fuel) n f w =
  match f w with
  | (inr r, w') => (inr r, w')
  | (inl e, w') =>
      if stop_after_attempt 3 n then (inl e, w')
      else retry_loop fuel (S n) f (snd (sleep (wait_exponential 1 2 10 n) w'))
  end.
Proof. reflexivity. Qed.

(** A first attempt that returns ends the call. *)
Lemma retry_returns {A} (func : M world A) (w w' : world) (r : A) :
  func w = (inr r, w') ->
  retry_on_failure func w = (inr r, snd (log_info w')).
Proof.
  intros H. unfold retry_on_failure.
  now rewrite retry_loop_step, wrapper_run, H.
Qed.

(** Three attempts that raise: two sleeps, then the third exception. *)
Lemma retry_raises {A} (func : M world A) (w w1 w2 w3 : world) (e1 e2 e3 : exn) :
  func w = (inl e1, w1) ->
  func (snd (sleep 2 w1)) = (inl e2, w2) ->
  func (snd (sleep 2 w2)) = (inl e3, w3) ->
  retry_on_failure func w = (inl e3, w3).
Proof.
  intros H1 H2 H3. unfold retry_on_failure.
  rewrite retry_loop_step, wrapper_run, H1.
  change (stop_after_attempt 3 1) with false. cbv iota. rewrite wait_first.
  rewrite retry_loop_step, wrapper_run, H2.
  change (stop_after_attempt 3 2) with false. cbv iota. rewrite wait_second.
  now rewrite retry_loop_step, wrapper_run, H3.
Qed.

(** What every raising attempt and every sleep preserve, a raising call
    preserves. *)
Lemma retry_loop_raise {A} (R : world -> world -> Prop) (f : M world A) :
  (forall w, R w w) ->
  (forall w1 w2 w3, R w1 w2 -> R w2 w3 -> R w1 w3) ->
  (forall n w, R w (snd (sleep (wait_exponential 1 2 10 n) w))) ->
  (forall w e w', f w = (inl e, w') -> R w w') ->
  forall fuel n w e w', retry_loop fuel n f w = (inl e, w') -> R w w'.
Proof.
  intros Hrefl Htrans Hsleep Hf.
  induction fuel as [|fuel IH]; intros n w e w' H; cbn [retry_loop] in H;
    destruct (f w) as [[e1|r] w1] eqn:E; try discriminate;
    destruct (stop_after_attempt 3 n).
  - injection H as <- <-. now apply Hf in E.
  - injection H as <- <-. now apply Hf in E.
  - injection H as <- <-. now apply Hf in E.
  - apply IH in H. apply Hf in E.
    eapply Htrans; [exact E|]. eapply Htrans; [apply Hsleep | exact H].
Qed.

(** An invariant of the attempts and of the sleeps is an invariant of the
    call; what every returning attempt establishes, a returning call
    establishes. *)
Lemma retry_loop_inv {A} (I : world -> Prop) (Q : A -> Prop) (f : M world A) :
  (forall d w, I w -> I (snd (sleep d w))) ->
  (forall w, I w -> I (snd (f w)) /\ forall r, fst (f w) = inr r -> Q r) ->
  forall fuel n w, I w ->
    I (snd (retry_loop fuel n f w)) /\
    forall r, fst (retry_loop fuel n f w) = inr r -> Q r.
Proof.
  intros Hsleep Hf.
  induction fuel as [|fuel IH]; intros n w Hw; cbn [retry_loop];
    destruct (Hf w Hw) as [Hi Hq];
    destruct (f w) as [[e1|r] w1] eqn:E; cbn [fst snd] in *;
    try (split; [exact Hi | exact Hq]);
    destruct (stop_after_attempt 3 n); cbn [fst snd];
    try (split; [exact Hi | intros r; discriminate]).
  apply IH. now apply Hsleep.
Qed.

Lemma wrapper_inv {A} (I : world -> Prop) (Q : A -> Prop) (func : M world A) :
  (forall w, I w -> I (snd (log_info w))) ->
  (forall w, I w -> I (snd (func w)) /\ forall r, fst (func w) = inr r -> Q r) ->
  forall w, I w ->
    I (snd (wrapper func w)) /\ forall r, fst (wrapper func w) = inr r -> Q r.
Proof.
  intros Hlog Hf w Hw. rewrite wrapper_run.
  destruct (Hf w Hw) as [Hi Hq].
  destruct (func w) as [[e|r] w']; simpl in *.
  - split; [exact Hi | intros r; discriminate].
  - split; [now apply Hlog | exact Hq].
Qed.

(** ** One attempt of each step *)

Ltac run_step :=
  cbv beta iota zeta delta
    [bind ret raise cache_contains cache_getitem cache_setitem
     generate_content index0].

Lemma fetch_func_miss_text (theme : str) (count : Z) (w : world) (t : option str) :
  contains (clock w) (subtopics_key theme count) (cache w) = false ->
  backend (calls w) = Text t ->
  let v := VList (List.map VStr (parse_subtopics (or_empty t) count)) in
  fetch_subtopics_func theme count w =
  (inr v,
   set_cache (setitem (clock w) (subtopics_key theme count) v (cache w)) (called w)).
Proof.
  intros Hmiss Hb v. unfold fetch_subtopics_func. run_step.
  now rewrite Hmiss, Hb.
Qed.

Lemma fetch_func_miss_raise (theme : str) (count : Z) (w : world) (e : exn) :
  contains (clock w) (subtopics_key theme count) (cache w) = false ->
  backend (calls w) = Raises e ->
  fetch_subtopics_func theme count w = (inl e, called w).
Proof.
  intros Hmiss Hb. unfold fetch_subtopics_func. run_step.
  now rewrite Hmiss, Hb.
Qed.

Lemma fetch_func_hit (theme : str) (count : Z) (w : world) :
  contains (clock w) (subtopics_key theme count) (cache w) = true ->
  exists e,
    find (has_key (subtopics_key theme count)) (cache w) = Some e /\
    fetch_subtopics_func theme count w =
    (inr (evalue e),
     set_cache (remove (subtopics_key theme count) (cache w) ++ [e]) w).
Proof.
  intros Hhit. destruct (contains_hit _ _ _ Hhit) as (e & Hf & Hg).
  exists e. split; trivial.
  unfold fetch_subtopics_func. run_step. now rewrite Hhit, Hg.
Qed.

Lemma choose_func_miss_text (theme : str) (l : list str) (w : world)
    (t : option str) (v : value) :
  contains (clock w) (choice_key theme l) (cache w) = false ->
  backend (calls w) = Text t ->
  parse_choice (or_empty t) l tt = (inr v, tt) ->
  choose_subtopic_func theme l w =
  (inr v, set_cache (setitem (clock w) (choice_key theme l) v (cache w)) (called w)).
Proof.
  intros Hmiss Hb Hp. unfold choose_subtopic_func. run_step.
  rewrite Hmiss, Hb. revert Hp. unfold parse_choice. run_step.
  destruct (decode_selection (or_empty t)) as [sel|].
  - intros [= <-]. reflexivity.
  - destruct (re_search choice_re (or_empty t)) as [m|].
    + intros [= <-]. reflexivity.
    + destruct l as [|x l]; [discriminate|]. intros [= <-]. reflexivity.
Qed.

Lemma choose_func_miss_index (theme : str) (l : list str) (w : world)
    (t : option str) (e : exn) :
  contains (clock w) (choice_key theme l) (cache w) = false ->
  backend (calls w) = Text t ->
  parse_choice (or_empty t) l tt = (inl e, tt) ->
  choose_subtopic_func theme l w = (inl e, called w).
Proof.
  intros Hmiss Hb Hp. unfold choose_subtopic_func. run_step.
  rewrite Hmiss, Hb. revert Hp. unfold parse_choice. run_step.
  destruct (decode_selection (or_empty t)) as [sel|]; [discriminate|].
  destruct (re_search choice_re (or_empty t)) as [m|]; [discriminate|].
  destruct l as [|x l]; [|discriminate]. intros [= <-]. reflexivity.
Qed.

Lemma choose_func_miss_raise (theme : str) (l : list str) (w : world) (e : exn) :
  contains (clock w) (choice_key theme l) (cache w) = false ->
  backend (calls w) = Raises e ->
  choose_subtopic_func theme l w = (inl e, called w).
Proof.
  intros Hmiss Hb. unfold choose_subtopic_func. run_step.
  now rewrite Hmiss, Hb.
Qed.

Lemma choose_func_hit (theme : str) (l : list str) (w : world) :
  contains (clock w) (choice_key theme l) (cache w) = true ->
  exists e,
    find (has_key (choice_key theme l)) (cache w) = Some e /\
    choose_subtopic_func theme l w =
    (inr (evalue e), set_cache (remove (choice_key theme l) (cache w) ++ [e]) w).
Proof.
  intros Hhit. destruct (contains_hit _ _ _ Hhit) as (e & Hf & Hg).
  exists e. split; trivial.
  unfold choose_subtopic_func. run_step. now rewrite Hhit, Hg.
Qed.

Lemma caption_func_text (subtopic : value) (len formality : str) (w : world)
    (t : option str) :
  backend (calls w) = Text t ->
  generate_caption_func subtopic len formality w =
  (inr (caption_of (or_empty t)), called w).
Proof.
  intros Hb. unfold generate_caption_func, caption_of. run_step. rewrite Hb.
  now destruct (json_loads (or_empty t)).
Qed.

Lemma caption_func_raise (subtopic : value) (len formality : str) (w : world)
    (e : exn) :
  backend (calls w) = Raises e ->
  generate_caption_func subtopic len formality w = (inl e, called w).
Proof.
  intros Hb. unfold generate_caption_func. run_step. now rewrite Hb.
Qed.

Lemma image_func_text (subtopic : value) (w : world) (t : option str) :
  backend (calls w) = Text t ->
  generate_image_prompt_func subtopic w = (inr (or_empty t), called w).
Proof.
  intros Hb. unfold generate_image_prompt_func. run_step. now rewrite Hb.
Qed.

Lemma image_func_raise (subtopic : value) (w : world) (e : exn) :
  backend (calls w) = Raises e ->
  generate_image_prompt_func subtopic w = (inl e, called w).
Proof.
  intros Hb. unfold generate_image_prompt_func. run_step. now rewrite Hb.
Qed.

(** ** The list pattern on well-formed lines *)

(** A greedy repetition whose longest run lets the rest of the pattern
    match takes that run. *)
Lemma star_greedy (p : char -> bool) (u s : str) (pr : option char)
    (k : option char -> str -> option mstate) (r : mstate) :
  forallb p u = true ->
  k (prev_after pr u) s = Some r ->
  match s with c :: _ => p c = false | [] => True end ->
  star p pr (u ++ s) k = Some r.
Proof.
  revert pr. induction u as [|a u IH]; intros pr Hu Hk Hs; simpl in *.
  - destruct s as [|c s]; simpl; trivial. now rewrite Hs.
  - apply andb_true_iff in Hu. destruct Hu as [Ha Hu].
    rewrite Ha. now rewrite (IH (Some a) Hu Hk Hs).
Qed.

Lemma prev_after_app (pr : option char) (u v : str) :
  prev_after pr (u ++ v) = prev_after (prev_after pr u) v.
Proof. unfold prev_after. apply fold_left_app. Qed.

Lemma prev_after_cons (pr : option char) (c : char) (u : str) :
  exists d, prev_after pr (c :: u) = Some d /\ In d (c :: u).
Proof.
  unfold prev_after. simpl. revert c.
  induction u as [|a u IH]; intros c; simpl.
  - exists c. split; trivial. now left.
  - destruct (IH a) as (d & Hd & Hin). exists d. split; trivial. now right.
Qed.

Lemma forallb_blank_space (u : str) :
  forallb blank u = true -> forallb isspace u = true.
Proof.
  apply forallb_weaken. intros c H. unfold blank in H.
  now apply andb_true_iff in H.
Qed.

(** The group and the end of line, from the first character of the
    content. *)
Lemma run_content (pr : option char) (g : option str) (c : char) (cs post : str) :
  forallb dot (c :: cs) = true ->
  line_end post = true ->
  run (Seq (Group (Plus dot)) Eol) (MState pr ((c :: cs) ++ post) g) Some =
  Some (MState (prev_after pr (c :: cs)) post (Some (c :: cs))).
Proof.
  intros Hdot Hend. simpl in Hdot. apply andb_true_iff in Hdot.
  destruct Hdot as [Hc Hcs].
  cbn [run Plus rest prev grp List.app]. rewrite Hc.
  apply star_greedy; trivial.
  - cbn [run rest prev grp].
    assert (L : length (c :: cs ++ post) - length post = length (c :: cs)).
    { change (c :: cs ++ post) with ((c :: cs) ++ post).
      rewrite length_app. lia. }
    rewrite L. change (c :: cs ++ post) with ((c :: cs) ++ post).
    rewrite !firstn_app, !firstn_all, !Nat.sub_diag. cbn [firstn].
    rewrite !List.app_nil_r.
    destruct post as [|x post]; [reflexivity|].
    simpl in Hend. now rewrite Hend.
  - destruct post as [|x post]; trivial.
    simpl in Hend. unfold dot. now rewrite Hend.
Qed.

Lemma run_seq (r1 r2 : regex) (st : mstate) (k : mstate -> option mstate) :
  run (Seq r1 r2) st k = run r1 st (fun st' => run r2 st' k).
Proof. reflexivity. Qed.

Lemma run_gap (pr : option char) (g : option str) (gp : str) (c : char)
    (cs post : str) :
  forallb blank gp = true ->
  isspace c = false ->
  forallb dot (c :: cs) = true ->
  line_end post = true ->
  run (Seq (Star isspace) (Seq (Group (Plus dot)) Eol))
      (MState pr (gp ++ (c :: cs) ++ post) g) Some =
  Some (MState (prev_after pr (gp ++ c :: cs)) post (Some (c :: cs))).
Proof.
  intros Hgp Hc Hdot Hend.
  change (run (Seq (Star isspace) (Seq (Group (Plus dot)) Eol))
            (MState pr (gp ++ (c :: cs) ++ post) g) Some)
    with (star isspace pr (gp ++ (c :: cs) ++ post)
            (fun pr' s =>
               run (Seq (Group (Plus dot)) Eol) (MState pr' s g) Some)).
  apply star_greedy.
  - now apply forallb_blank_space.
  - rewrite run_content by trivial. now rewrite prev_after_app.
  - exact Hc.
Qed.

(** The prefix of a well-formed line, in front of whatever lets the rest
    of the pattern match. *)
Lemma run_mark (mk : marker) (pr : option char) (g : option str) (s : str)
    (k : mstate -> option mstate) (r : mstate) :
  match mk with
  | Numbered ds c =>
      negb (is_empty ds)
      && forallb (fun d => isdecimal d && negb (isspace d)) ds
      && one_of (lit ".)") c && negb (isdecimal c)
  | Bullet b => one_of [45%N; bullet] b && negb (isdecimal b)
  end = true ->
  k (MState (prev_after pr (render_mark mk)) s g) = Some r ->
  run (Alt (Seq (Plus isdecimal) (Chr (one_of (lit ".)"))))
           (Chr (one_of [45%N; bullet])))
      (MState pr (render_mark mk ++ s) g) k = Some r.
Proof.
  intros Hmk Hk. destruct mk as [ds c|b]; simpl render_mark in *.
  - repeat (apply andb_true_iff in Hmk; destruct Hmk as [Hmk ?]).
    destruct ds as [|d ds]; [discriminate|].
    assert (Hds : forallb isdecimal (d :: ds) = true).
    { revert H1. apply forallb_weaken. intros x Hx.
      now apply andb_true_iff in Hx. }
    simpl in Hds. apply andb_true_iff in Hds. destruct Hds as [Hd Hds].
    rewrite prev_after_app in Hk. simpl in Hk.
    cbn [run Plus rest prev grp List.app]. rewrite Hd.
    rewrite <- app_assoc.
    rewrite (@star_greedy isdecimal ds ([c] ++ s) (Some d) _ r); trivial.
    + cbn [run rest prev grp List.app]. now rewrite H0.
    + simpl. now apply negb_true_iff.
  - apply andb_true_iff in Hmk. destruct Hmk as [Hb Hn].
    apply negb_true_iff in Hn.
    cbn [run Plus rest prev grp List.app]. rewrite Hn.
    now rewrite Hb.
Qed.

Lemma mark_starts_visible (mk : marker) :
  match mk with
  | Numbered ds c =>
      negb (is_empty ds)
      && forallb (fun d => isdecimal d && negb (isspace d)) ds
      && one_of (lit ".)") c && negb (isdecimal c)
  | Bullet b => one_of [45%N; bullet] b && negb (isdecimal b)
  end = true ->
  exists x xs, render_mark mk = x :: xs /\ isspace x = false.
Proof.
  intros Hmk. destruct mk as [ds c|b]; simpl render_mark.
  - repeat (apply andb_true_iff in Hmk; destruct Hmk as [Hmk ?]).
    destruct ds as [|d ds]; [discriminate|].
    simpl in H1. apply andb_true_iff in H1. destruct H1 as [Hd _].
    apply andb_true_iff in Hd. destruct Hd as [_ Hd].
    exists d, (ds ++ [c]). split; trivial. now apply negb_true_iff.
  - apply andb_true_iff in Hmk. destruct Hmk as [Hb _].
    exists b, []. split; trivial.
    unfold one_of in Hb. simpl in Hb. unfold char_eqb in Hb.
    apply orb_true_iff in Hb. destruct Hb as [Hb|Hb].
    + apply N.eqb_eq in Hb. now subst b.
    + rewrite orb_false_r in Hb. apply N.eqb_eq in Hb. now subst b.
Qed.

Lemma run_bol (r : regex) (pr : option char) (s : str) :
  line_start pr = true ->
  run (Seq Bol r) (MState pr s None) Some = run r (MState pr s None) Some.
Proof.
  intros H. cbn [run prev]. destruct pr as [c|]; trivial.
  simpl in H. now rewrite H.
Qed.

(** On a well-formed line, after any white space [B] that starts where
    [^] matches and up to where [$] matches, the pattern matches and
    captures the content of the line. *)
Lemma match_line (B : str) (l : item_line) (pr : option char) (post : str) :
  forallb isspace B = true ->
  well_formed l = true ->
  line_start pr = true ->
  line_end post = true ->
  match_at subtopic_re pr (B ++ render l ++ post) =
  Some (MState (prev_after pr (B ++ render l)) post (Some (content l))).
Proof.
  destruct l as [ind mk gp ct]. unfold well_formed, render.
  cbn [indent mark gap content]. intros HB Hwf Hstart Hend.
  repeat (apply andb_true_iff in Hwf; destruct Hwf as [Hwf ?]).
  destruct ct as [|c cs]; [discriminate|]. apply negb_true_iff in H0.
  destruct (mark_starts_visible mk H1) as (x & xs & Hx & Hvis).
  unfold match_at, subtopic_re. rewrite run_bol by exact Hstart.
  replace (B ++ (ind ++ render_mark mk ++ gp ++ c :: cs) ++ post)
    with ((B ++ ind) ++ render_mark mk ++ gp ++ (c :: cs) ++ post)
    by (now rewrite <- !app_assoc).
  match goal with
  | |- run (Seq (Star isspace) ?K) ?st Some = _ =>
      change (run (Seq (Star isspace) K) st Some)
        with (star isspace pr ((B ++ ind) ++ render_mark mk ++ gp ++ (c :: cs) ++ post)
                (fun pr' s => run K (MState pr' s None) Some))
  end.
  apply star_greedy.
  - rewrite forallb_app, HB. now apply forallb_blank_space.
  - cbv beta. rewrite run_seq. apply run_mark; trivial.
    rewrite run_gap by trivial.
    rewrite !prev_after_app. reflexivity.
  - rewrite Hx. exact Hvis.
Qed.

Lemma findall_skip (r : regex) (u s : str) (pr : option char) :
  findall_from r pr (u ++ s) (length u) = findall_from r (prev_after pr u) s 0.
Proof.
  revert pr. induction u as [|a u IH]; intros pr; [reflexivity|].
  simpl. apply IH.
Qed.

Lemma findall_from_here (r : regex) (pr : option char) (s : str) :
  findall_from r pr s 0 =
  match match_at r pr s with
  | Some st =>
      group1 st ::
      match s with
      | c :: s' => findall_from r (Some c) s' (length s - length (rest st) - 1)
      | [] => []
      end
  | None =>
      match s with
      | c :: s' => findall_from r (Some c) s' 0
      | [] => []
      end
  end.
Proof. destruct s; reflexivity. Qed.

Lemma match_at_inside (c : char) (s : str) :
  dot c = true -> match_at subtopic_re (Some c) s = None.
Proof.
  intros Hc. unfold match_at, subtopic_re. cbn [run prev].
  unfold dot in Hc. apply negb_true_iff in Hc. now rewrite Hc.
Qed.

Lemma match_at_end (pr : option char) : match_at subtopic_re pr [] = None.
Proof.
  unfold match_at, subtopic_re. destruct pr as [c|]; cbn; trivial.
  now destruct (c =? 10)%N.
Qed.

Lemma render_visible (l : item_line) (pr : option char) :
  well_formed l = true ->
  (exists x xs, render l = x :: xs) /\
  (exists d, prev_after pr (render l) = Some d /\ dot d = true).
Proof.
  destruct l as [ind mk gp ct]. unfold well_formed, render.
  cbn [indent mark gap content]. intros Hwf.
  repeat (apply andb_true_iff in Hwf; destruct Hwf as [Hwf ?]).
  destruct ct as [|c cs]; [discriminate|]. split.
  - destruct (ind ++ render_mark mk ++ gp ++ c :: cs) as [|x xs] eqn:E.
    + apply (f_equal (@length char)) in E. rewrite !length_app in E.
      simpl in E. lia.
    + now exists x, xs.
  - rewrite !app_assoc, prev_after_app.
    destruct (prev_after_cons (prev_after pr ((ind ++ render_mark mk) ++ gp)) c cs)
      as (d & Hd & Hin).
    exists d. split; trivial.
    rewrite forallb_forall in H. now apply H.
Qed.

(** One well-formed line gives one item; the search goes on after it. *)
Lemma findall_item (B : str) (l : item_line) (pr : option char) (post : str) :
  forallb isspace B = true ->
  well_formed l = true ->
  line_start pr = true ->
  line_end post = true ->
  exists d,
    dot d = true /\
    findall_from subtopic_re pr (B ++ render l ++ post) 0 =
    content l :: findall_from subtopic_re (Some d) post 0.
Proof.
  intros HB Hwf Hstart Hend.
  destruct (render_visible l (prev_after pr B) Hwf) as [(x & xs & Hx) (d & Hd & Hdot)].
  exists d. split; trivial.
  rewrite findall_from_here, match_line by trivial.
  cbn [group1 grp rest]. f_equal.
  rewrite <- Hd, <- prev_after_app.
  rewrite app_assoc.
  destruct (B ++ render l) as [|y ys] eqn:E.
  - rewrite Hx in E. now destruct B.
  - cbn [List.app].
    replace (length (y :: ys ++ post) - length post - 1) with (length ys)
      by (cbn [length]; rewrite length_app; lia).
    change (prev_after pr (y :: ys)) with (prev_after (Some y) ys).
    apply findall_skip.
Qed.

(** *** Lines that are not items *)

Lemma space_not_bullet (c : char) :
  isspace c = true -> one_of [45%N; bullet] c = false.
Proof.
  intros Hc. destruct (one_of [45%N; bullet] c) eqn:E; trivial.
  unfold one_of in E. simpl in E. unfold char_eqb in E.
  apply orb_true_iff in E. destruct E as [E|E].
  - apply N.eqb_eq in E. subst c. discriminate.
  - rewrite orb_false_r in E. apply N.eqb_eq in E. subst c. discriminate.
Qed.

Lemma spacer_inert (c : char) : spacer c = true -> inert c = true.
Proof.
  unfold spacer, inert. intros H. apply andb_true_iff in H.
  destruct H as [Hs Hd]. now rewrite Hd, (space_not_bullet c Hs).
Qed.

(** Where no prefix can start, the pattern fails after its leading white
    space. *)
Lemma prefix_fails (pr : option char) (v : str) (g : option str)
    (r : regex) (k : mstate -> option mstate) :
  inert_head v = true ->
  run (Seq (Alt (Seq (Plus isdecimal) (Chr (one_of (lit ".)"))))
                (Chr (one_of [45%N; bullet]))) r)
      (MState pr v g) k = None.
Proof.
  intros H. destruct v as [|c v]; [reflexivity|].
  simpl in H. unfold inert in H. apply andb_true_iff in H.
  destruct H as [Hd Hb]. apply negb_true_iff in Hd, Hb.
  cbn [run Plus rest]. now rewrite Hd, Hb.
Qed.

(** A repetition fails when what follows it fails after every run. *)
Lemma star_fails (p : char -> bool) (s : str) (pr : option char)
    (k : option char -> str -> option mstate) :
  (forall pr' u v, s = u ++ v -> forallb p u = true -> k pr' v = None) ->
  star p pr s k = None.
Proof.
  revert pr. induction s as [|c s IH]; intros pr H; simpl.
  - now apply (H pr [] []).
  - destruct (p c) eqn:Hc.
    + rewrite IH.
      * now apply (H pr [] (c :: s)).
      * intros pr' u v Hs Hu. apply (H pr' (c :: u) v).
        -- simpl. now rewrite Hs.
        -- simpl. now rewrite Hc.
    + now apply (H pr [] (c :: s)).
Qed.

Lemma spacers_then_inert (U tail u v : str) :
  forallb spacer U = true ->
  inert_head tail = true ->
  visible_head tail = true ->
  U ++ tail = u ++ v ->
  forallb isspace u = true ->
  inert_head v = true.
Proof.
  revert u. induction U as [|a U IH]; intros u HU Ht Hv E Hu.
  - simpl in E. destruct u as [|b u].
    + simpl in E. now subst v.
    + subst tail. simpl in Hu, Hv. apply andb_true_iff in Hu.
      destruct Hu as [Hb _]. rewrite Hb in Hv. discriminate.
  - simpl in HU. apply andb_true_iff in HU. destruct HU as [Ha HU].
    destruct u as [|b u].
    + simpl in E. subst v. simpl. now apply spacer_inert.
    + simpl in E. injection E as _ E. simpl in Hu.
      apply andb_true_iff in Hu. destruct Hu as [_ Hu].
      now apply (IH u).
Qed.

(** No match starts in white space followed by something that is not a
    prefix. *)
Lemma match_fails (U tail : str) (pr : option char) :
  forallb spacer U = true ->
  inert_head tail = true ->
  visible_head tail = true ->
  match_at subtopic_re pr (U ++ tail) = None.
Proof.
  intros HU Ht Hv. unfold match_at, subtopic_re.
  cbn [run prev rest].
  assert (F : star isspace pr (U ++ tail)
                (fun pr' s =>
                   run (Seq (Alt (Seq (Plus isdecimal) (Chr (one_of (lit ".)"))))
                                 (Chr (one_of [45%N; bullet])))
                            (Seq (Star isspace) (Seq (Group (Plus dot)) Eol)))
                       (MState pr' s None) Some) = None).
  { apply star_fails. intros pr' u v E Hu. apply prefix_fails.
    now apply (spacers_then_inert U tail u v). }
  destruct pr as [c|]; [destruct (c =? 10)%N; trivial|]; exact F.
Qed.

Lemma findall_spacers (U : str) (pr : option char) :
  forallb spacer U = true -> findall_from subtopic_re pr U 0 = [].
Proof.
  revert pr. induction U as [|a U IH]; intros pr HU.
  - now rewrite findall_from_here, match_at_end.
  - rewrite findall_from_here.
    rewrite <- (List.app_nil_r (a :: U)) at 1.
    rewrite match_fails by trivial.
    simpl in HU. apply andb_true_iff in HU. now apply IH.
Qed.

Lemma findall_skip_spacers (U : str) (x : char) (R : str) (pr : option char) :
  forallb spacer U = true ->
  inert x = true ->
  isspace x = false ->
  findall_from subtopic_re pr (U ++ x :: R) 0 =
  findall_from subtopic_re (Some x) R 0.
Proof.
  intros HU Hx Hv. revert pr. induction U as [|a U IH]; intros pr.
  - rewrite findall_from_here.
    rewrite (match_fails [] (x :: R) pr); simpl; trivial. now rewrite Hv.
  - rewrite findall_from_here.
    rewrite (match_fails (a :: U) (x :: R) pr); simpl; trivial.
    + simpl in HU. apply andb_true_iff in HU. now apply IH.
    + now rewrite Hv.
Qed.

(** Inside a line no match starts. *)
Lemma findall_inside (v post : str) (c : char) :
  dot c = true ->
  forallb dot v = true ->
  exists d,
    dot d = true /\
    findall_from subtopic_re (Some c) (v ++ post) 0 =
    findall_from subtopic_re (Some d) post 0.
Proof.
  revert c. induction v as [|a v IH]; intros c Hc Hv.
  - exists c. now split.
  - simpl in Hv. apply andb_true_iff in Hv. destruct Hv as [Ha Hv].
    destruct (IH a Ha Hv) as (d & Hd & E). exists d. split; trivial.
    cbn [List.app]. now rewrite findall_from_here, match_at_inside.
Qed.

Lemma lstrip_split (s : str) :
  exists w, s = w ++ lstrip s /\ forallb isspace w = true /\
            visible_head (lstrip s) = true.
Proof.
  induction s as [|c s (w & E & Hw & Hv)]; simpl.
  - now exists [].
  - destruct (isspace c) eqn:Hc.
    + exists (c :: w). simpl. rewrite Hc, Hw. repeat split; trivial.
      now rewrite <- E.
    + exists []. simpl. now rewrite Hc.
Qed.

Lemma spacers_of (w : str) :
  forallb isspace w = true ->
  forallb (fun c => negb (isspace c) || spacer c) w = true ->
  forallb spacer w = true.
Proof.
  induction w as [|c w IH]; simpl; trivial.
  intros H1 H2. apply andb_true_iff in H1, H2.
  destruct H1 as [Hc H1], H2 as [Hs H2].
  rewrite Hc in Hs. simpl in Hs. now rewrite Hs, IH.
Qed.

(** After a plain line the search is where it would be without it. *)
Lemma findall_plain (B s post : str) (pr : option char) :
  forallb spacer B = true ->
  plain_ok s = true ->
  lstrip s <> [] ->
  exists d,
    dot d = true /\
    findall_from subtopic_re pr (B ++ s ++ post) 0 =
    findall_from subtopic_re (Some d) post 0.
Proof.
  intros HB Hok Hvis. unfold plain_ok in Hok.
  repeat (apply andb_true_iff in Hok; destruct Hok as [Hok ?]).
  destruct (lstrip_split s) as (w & E & Hw & Hv).
  destruct (lstrip s) as [|x v]; [congruence|].
  rewrite E in Hok, H0. rewrite forallb_app in Hok, H0.
  apply andb_true_iff in Hok, H0.
  destruct Hok as [_ Hdot], H0 as [Hsp _].
  simpl in Hdot. apply andb_true_iff in Hdot. destruct Hdot as [Hx Hdot].
  simpl in Hv. apply negb_true_iff in Hv.
  destruct (findall_inside v post x Hx Hdot) as (d & Hd & F).
  exists d. split; trivial.
  rewrite E. rewrite <- F.
  replace (B ++ (w ++ x :: v) ++ post) with ((B ++ w) ++ x :: v ++ post)
    by (now rewrite <- !app_assoc).
  apply findall_skip_spacers; trivial.
  rewrite forallb_app, HB. now apply spacers_of.
Qed.

(** The items of a text are the contents of its item lines, in order,
    whatever plain and empty lines stand between them. *)
Lemma findall_text_from (lines : list text_line) :
  isdecimal 10 = false ->
  forall (B : str) (pr : option char),
    forallb ok_line lines = true ->
    forallb spacer B = true ->
    line_start pr = true ->
    findall_from subtopic_re pr
      (B ++ join [10%N] (List.map render_line lines)) 0 = items_of lines.
Proof.
  intros Hnl.
  assert (Snl : spacer 10 = true) by (unfold spacer; now rewrite Hnl).
  induction lines as [|ln ls IH]; intros B pr Hok HB Hstart.
  - simpl. rewrite List.app_nil_r. now apply findall_spacers.
  - simpl in Hok. apply andb_true_iff in Hok. destruct Hok as [Hln Hls].
    assert (HBs : forallb isspace B = true).
    { revert HB. apply forallb_weaken. intros c Hc. unfold spacer in Hc.
      now apply andb_true_iff in Hc. }
    assert (Hnext : forall d, dot d = true -> ls <> [] ->
              findall_from subtopic_re (Some d)
                ([10%N] ++ join [10%N] (List.map render_line ls)) 0 = items_of ls).
    { intros d Hd _. cbn [List.app].
      rewrite findall_from_here, match_at_inside by exact Hd.
      now apply (IH [] (Some 10%N)). }
    destruct ln as [l|s]; cbn [ok_line] in Hln.
    + (* an item *)
      destruct ls as [|l2 ls].
      * simpl join. simpl List.map. cbn [render_line items_of flat_map List.app].
        rewrite <- (List.app_nil_r (render l)).
        destruct (findall_item B l pr [] HBs Hln Hstart eq_refl) as (d & Hd & ->).
        now rewrite findall_from_here, match_at_end.
      * change (join [10%N] (List.map render_line (Item l :: l2 :: ls)))
          with (render l ++ [10%N] ++ join [10%N] (List.map render_line (l2 :: ls))).
        destruct (findall_item B l pr
                    ([10%N] ++ join [10%N] (List.map render_line (l2 :: ls)))
                    HBs Hln Hstart eq_refl) as (d & Hd & ->).
        rewrite (Hnext d Hd) by discriminate. reflexivity.
    + (* a plain line *)
      destruct (lstrip s) as [|x v] eqn:Els.
      * (* only white space *)
        assert (Hs : forallb spacer s = true).
        { unfold plain_ok in Hln.
          repeat (apply andb_true_iff in Hln; destruct Hln as [Hln ?]).
          destruct (lstrip_split s) as (w & E & Hw & _).
          rewrite Els, List.app_nil_r in E. subst w. now apply spacers_of. }
        destruct ls as [|l2 ls].
        -- simpl. apply findall_spacers. now rewrite forallb_app, HB, Hs.
        -- change (join [10%N] (List.map render_line (Plain s :: l2 :: ls)))
             with (s ++ [10%N] ++ join [10%N] (List.map render_line (l2 :: ls))).
           rewrite !app_assoc. rewrite <- (app_assoc B s).
           change (items_of (Plain s :: l2 :: ls)) with (items_of (l2 :: ls)).
           apply IH; trivial.
           rewrite !forallb_app, HB, Hs. simpl. now rewrite Snl.
      * (* something visible *)
        assert (Hvis : lstrip s <> []) by (rewrite Els; discriminate).
        destruct ls as [|l2 ls].
        -- simpl join. simpl List.map. cbn [render_line items_of flat_map List.app].
           rewrite <- (List.app_nil_r s).
           destruct (findall_plain B s [] pr HB Hln Hvis) as (d & Hd & ->).
           now rewrite findall_from_here, match_at_end.
        -- change (join [10%N] (List.map render_line (Plain s :: l2 :: ls)))
             with (s ++ [10%N] ++ join [10%N] (List.map render_line (l2 :: ls))).
           destruct (findall_plain B s
                       ([10%N] ++ join [10%N] (List.map render_line (l2 :: ls)))
                       pr HB Hln Hvis) as (d & Hd & ->).
           rewrite (Hnext d Hd) by discriminate. reflexivity.
Qed.

Lemma findall_text (lines : list text_line) :
  isdecimal 10 = false ->
  forallb ok_line lines = true ->
  re_findall subtopic_re (join [10%N] (List.map render_line lines)) =
  items_of lines.
Proof. intros Hnl Hok. now apply (findall_text_from lines Hnl [] None). Qed.

(** ** The marker pattern *)

Lemma run_value (pr : option char) (g : option str) (c : char) (cs post : str) :
  forallb dot (c :: cs) = true ->
  line_end post = true ->
  run (Group (Plus dot)) (MState pr ((c :: cs) ++ post) g) Some =
  Some (MState (prev_after pr (c :: cs)) post (Some (c :: cs))).
Proof.
  intros Hdot Hend. simpl in Hdot. apply andb_true_iff in Hdot.
  destruct Hdot as [Hc Hcs].
  cbn [run Plus rest prev grp List.app]. rewrite Hc.
  apply star_greedy; trivial.
  - cbn [run rest prev grp].
    assert (L : length (c :: cs ++ post) - length post = length (c :: cs)).
    { change (c :: cs ++ post) with ((c :: cs) ++ post).
      rewrite length_app. lia. }
    rewrite L. change (c :: cs ++ post) with ((c :: cs) ++ post).
    rewrite !firstn_app, !firstn_all, !Nat.sub_diag. cbn [firstn].
    now rewrite !List.app_nil_r.
  - destruct post as [|x post]; trivial.
    simpl in Hend. unfold dot. now rewrite Hend.
Qed.

(** At the marker: [Choice], white space, a colon, white space, then the
    value up to the end of the line. *)
Lemma match_marker (pr : option char) (ws1 ws2 : str) (c : char) (cs post : str) :
  forallb isspace ws1 = true ->
  forallb isspace ws2 = true ->
  isspace c = false ->
  forallb dot (c :: cs) = true ->
  line_end post = true ->
  exists pr',
    match_at choice_re pr
      (lit "Choice" ++ ws1 ++ [58%N] ++ ws2 ++ (c :: cs) ++ post) =
    Some (MState pr' post (Some (c :: cs))).
Proof.
  intros H1 H2 Hc Hdot Hend. eexists.
  unfold match_at, choice_re.
  change (lit "Choice") with [67%N; 104%N; 111%N; 105%N; 99%N; 101%N].
  cbn [Lit run rest prev grp List.app char_eqb N.eqb Pos.eqb].
  apply star_greedy; trivial.
  cbn [run rest prev grp List.app char_eqb N.eqb Pos.eqb].
  apply star_greedy; trivial.
  exact (run_value (prev_after (Some 58%N) ws2) None c cs post Hdot Hend).
Qed.

Lemma search_from_here (r : regex) (pr : option char) (s : str) :
  search_from r pr s =
  match match_at r pr s with
  | Some st => Some st
  | None =>
      match s with
      | c :: s' => search_from r (Some c) s'
      | [] => None
      end
  end.
Proof. destruct s; reflexivity. Qed.

(** The search finds the first marker, whatever precedes it, as long as no
    capital C does. *)
Lemma search_marker (pre ws1 ws2 : str) (c : char) (cs post : str) :
  ~ In 67%N pre ->
  forallb isspace ws1 = true ->
  forallb isspace ws2 = true ->
  isspace c = false ->
  forallb dot (c :: cs) = true ->
  line_end post = true ->
  exists m,
    re_search choice_re
      (pre ++ lit "Choice" ++ ws1 ++ [58%N] ++ ws2 ++ (c :: cs) ++ post) = Some m /\
    group1 m = c :: cs.
Proof.
  intros Hpre H1 H2 Hc Hdot Hend. unfold re_search. generalize (@None char).
  induction pre as [|x pre IH]; intros pr.
  - destruct (match_marker pr ws1 ws2 c cs post H1 H2 Hc Hdot Hend) as (pr' & Hm).
    eexists. cbn [List.app] in Hm |- *. split.
    + rewrite search_from_here, Hm. reflexivity.
    + reflexivity.
  - assert (Hx : (x =? 67)%N = false).
    { apply N.eqb_neq. intros ->. apply Hpre. now left. }
    destruct (IH (fun F => Hpre (or_intror F)) (Some x)) as (m & Hs & Hg).
    exists m. split; trivial.
    assert (Hfail : match_at choice_re pr
              (x :: pre ++ lit "Choice" ++ ws1 ++ [58%N] ++ ws2 ++ (c :: cs) ++ post)
            = None).
    { unfold match_at, choice_re.
      change (lit "Choice") with [67%N; 104%N; 111%N; 105%N; 99%N; 101%N].
      cbn [Lit run rest]. unfold char_eqb. rewrite N.eqb_sym. now rewrite Hx. }
    cbn [List.app] in Hfail, Hs |- *.
    rewrite search_from_here, Hfail. exact Hs.
Qed.

(** ** Retry bound *)

Lemma exhausted_eq (w : world) :
  called (snd (sleep 2 (called (snd (sleep 2 (called w)))))) = exhausted 2 2 w.
Proof.
  unfold called, sleep, exhausted. simpl. f_equal.
  - lia.
  - now rewrite <- app_assoc.
Qed.

Lemma total_wait_exhausted (d1 d2 : Z) (w : world) :
  total_wait (exhausted d1 d2 w) = (total_wait w + (d1 + d2))%Z.
Proof.
  unfold total_wait, exhausted. simpl.
  induction (sleeps w) as [|d l IH]; simpl; lia.
Qed.

(** Three raising attempts of a step whose attempts only invoke the
    backend. *)
Lemma retry_backend_raises {A} (func : M world A) (err : nat -> exn) (w : world) :
  (forall w', cache w' = cache w -> (clock w <= clock w')%Z ->
              func w' = (inl (err (calls w')), called w')) ->
  retry_on_failure func w = (inl (err (calls w + 2)), exhausted 2 2 w).
Proof.
  intros H. rewrite <- exhausted_eq.
  replace (calls w + 2) with (calls (snd (sleep 2 (called (snd (sleep 2 (called w)))))))
    by (simpl; lia).
  eapply retry_raises; apply H; simpl; trivial; lia.
Qed.

(** C1 (amended).  When the backend raises at every invocation, each of
    the four steps invokes it exactly three times, sleeps after the first
    and after the second attempt for [max(2, min(2 ** (n - 1), 10))]
    seconds, that is 2 and 2 (4 in total, never more than 10 at a time),
    and raises the exception of the third invocation unchanged, leaving
    the cache as it was. *)
Theorem retry_bound (err : nat -> exn) :
  (forall n, backend n = Raises (err n)) ->
  forall w,
    (forall theme count,
       contains (clock w) (subtopics_key theme count) (cache w) = false ->
       fetch_subtopics theme count w = (inl (err (calls w + 2)), exhausted 2 2 w)) /\
    (forall theme subtopics,
       contains (clock w) (choice_key theme subtopics) (cache w) = false ->
       choose_subtopic theme subtopics w =
       (inl (err (calls w + 2)), exhausted 2 2 w)) /\
    (forall subtopic len formality,
       generate_caption subtopic len formality w =
       (inl (err (calls w + 2)), exhausted 2 2 w)) /\
    (forall subtopic,
       generate_image_prompt subtopic w =
       (inl (err (calls w + 2)), exhausted 2 2 w)) /\
    calls (exhausted 2 2 w) = calls w + 3 /\
    sleeps (exhausted 2 2 w) = sleeps w ++ [2; 2]%Z /\
    total_wait (exhausted 2 2 w) = (total_wait w + 4)%Z /\
    (forall n, 2 <= wait_exponential 1 2 10 n <= 10)%Z.
Proof.
  intros Hb w. repeat split.
  - intros theme count Hmiss. apply retry_backend_raises. intros w' Hc Ht.
    apply fetch_func_miss_raise; [|apply Hb].
    rewrite Hc. now apply contains_later with (now := clock w).
  - intros theme l Hmiss. apply retry_backend_raises. intros w' Hc Ht.
    apply choose_func_miss_raise; [|apply Hb].
    rewrite Hc. now apply contains_later with (now := clock w).
  - intros s len f. apply retry_backend_raises. intros w' _ _.
    apply caption_func_raise, Hb.
  - intros s. apply retry_backend_raises. intros w' _ _.
    apply image_func_raise, Hb.
  - apply (total_wait_exhausted 2 2).
  - apply wait_exponential_bounds.
  - apply wait_exponential_bounds.
Qed.

(** ** Cache idempotence *)

Lemma stored_eq (k : str) (v : value) (w : world) :
  snd (log_info (set_cache (setitem (clock w) k v (cache w)) (called w))) =
  stored k v w.
Proof. reflexivity. Qed.

(** A first attempt that misses the cache and gets a text. *)
Lemma fetch_miss_returns (theme : str) (count : Z) (w : world) (t : option str) :
  contains (clock w) (subtopics_key theme count) (cache w) = false ->
  backend (calls w) = Text t ->
  let v := VList (List.map VStr (parse_subtopics (or_empty t) count)) in
  fetch_subtopics theme count w = (inr v, stored (subtopics_key theme count) v w).
Proof.
  intros Hmiss Hb v. unfold fetch_subtopics.
  pose proof (fetch_func_miss_text theme count w Hmiss Hb) as Hrun.
  cbv zeta in Hrun. now rewrite (retry_returns _ _ Hrun).
Qed.

(** C2.  On a cache that holds no live entry for [(theme, count)] and with
    a backend that answers, a call of [fetch_subtopics] followed, less
    than [ttl] later, by a second call with the same [(theme, count)]
    invokes the backend exactly once in total, and both calls return the
    same value. *)
Theorem cache_idempotence (theme : str) (count : Z) (w : world)
    (t : option str) (dt : Z) :
  contains (clock w) (subtopics_key theme count) (cache w) = false ->
  backend (calls w) = Text t ->
  (0 <= dt < ttl)%Z ->
  exists v w1 w2,
    fetch_subtopics theme count w = (inr v, w1) /\
    fetch_subtopics theme count (elapse dt w1) = (inr v, w2) /\
    calls w2 = S (calls w).
Proof.
  intros Hmiss Hb Hdt.
  set (k := subtopics_key theme count).
  set (v := VList (List.map VStr (parse_subtopics (or_empty t) count))).
  assert (Hhit : contains (clock (elapse dt (stored k v w))) k
                   (cache (elapse dt (stored k v w))) = true).
  { simpl. apply contains_setitem. lia. }
  destruct (fetch_func_hit theme count _ Hhit) as (e & Hf & Hrun).
  simpl in Hf. fold k in Hf. rewrite find_setitem in Hf. injection Hf as <-.
  eexists v, (stored k v w), _. split; [|split].
  - now apply fetch_miss_returns.
  - unfold fetch_subtopics. rewrite (retry_returns _ _ Hrun). reflexivity.
  - reflexivity.
Qed.

(** ** What the cache holds *)

Lemma parse_choice_pure (raw : str) (l : list str) :
  exists r, parse_choice raw l tt = (r, tt).
Proof.
  unfold parse_choice. run_step.
  destruct (decode_selection raw); [eexists; reflexivity|].
  destruct (re_search choice_re raw); [eexists; reflexivity|].
  destruct l; eexists; reflexivity.
Qed.

Lemma cache_ok_moved (k : str) (c : ttlcache) (e : entry) :
  cache_ok c -> find (has_key k) c = Some e -> cache_ok (remove k c ++ [e]).
Proof.
  intros Hc Hf. apply Forall_app. split.
  - now apply cache_ok_filter.
  - constructor; [|constructor].
    apply find_key in Hf. destruct Hf as [Hin _].
    unfold cache_ok in Hc. rewrite Forall_forall in Hc. now apply Hc.
Qed.

(** One attempt of [fetch_subtopics] keeps the cache well formed and, when
    it returns, returns items parsed for the requested count. *)
Lemma fetch_func_inv (theme : str) (count : Z) (w : world) :
  cache_ok (cache w) ->
  cache_ok (cache (snd (fetch_subtopics_func theme count w))) /\
  forall r, fst (fetch_subtopics_func theme count w) = inr r ->
    exists text, r = VList (List.map VStr (parse_subtopics text count)).
Proof.
  intros Hc.
  destruct (contains (clock w) (subtopics_key theme count) (cache w)) eqn:Hk.
  - destruct (fetch_func_hit theme count w Hk) as (e & Hf & ->). simpl. split.
    + now apply cache_ok_moved.
    + intros r [= <-]. now apply fetch_hit_origin with (theme := theme) (c := cache w).
  - destruct (backend (calls w)) as [t|e] eqn:Hb.
    + rewrite (fetch_func_miss_text theme count w Hk Hb). simpl. split.
      * apply cache_ok_setitem; trivial. left.
        exists theme, count, (or_empty t). now split.
      * intros r [= <-]. now exists (or_empty t).
    + rewrite (fetch_func_miss_raise theme count w Hk Hb). simpl. split; trivial.
      intros r. discriminate.
Qed.

Lemma choose_func_inv (theme : str) (l : list str) (w : world) :
  cache_ok (cache w) ->
  cache_ok (cache (snd (choose_subtopic_func theme l w))) /\
  forall r : value, fst (choose_subtopic_func theme l w) = inr r -> True.
Proof.
  intros Hc. split; trivial.
  destruct (contains (clock w) (choice_key theme l) (cache w)) eqn:Hk.
  - destruct (choose_func_hit theme l w Hk) as (e & Hf & ->). simpl.
    now apply cache_ok_moved.
  - destruct (backend (calls w)) as [t|e] eqn:Hb.
    + destruct (parse_choice_pure (or_empty t) l) as ([e|v] & Hp).
      * now rewrite (choose_func_miss_index theme l w Hk Hb Hp).
      * rewrite (choose_func_miss_text theme l w Hk Hb Hp). simpl.
        apply cache_ok_setitem; trivial. right.
        exists theme, l, (or_empty t). now split.
    + now rewrite (choose_func_miss_raise theme l w Hk Hb).
Qed.

Lemma retry_inv {A} (Q : A -> Prop) (func : M world A) :
  (forall w, cache_ok (cache w) ->
     cache_ok (cache (snd (func w))) /\ forall r, fst (func w) = inr r -> Q r) ->
  forall w, cache_ok (cache w) ->
    cache_ok (cache (snd (retry_on_failure func w))) /\
    forall r, fst (retry_on_failure func w) = inr r -> Q r.
Proof.
  intros Hf. unfold retry_on_failure.
  apply (retry_loop_inv (fun w => cache_ok (cache w)) Q).
  - intros d w Hw. exact Hw.
  - apply (wrapper_inv (fun w => cache_ok (cache w)) Q); trivial.
Qed.

(** The two caching steps keep the cache well formed, whatever the backend
    does; the other two never touch it. *)
Lemma cache_ok_preserved (w : world) :
  cache_ok (cache w) ->
  (forall theme count, cache_ok (cache (snd (fetch_subtopics theme count w)))) /\
  (forall theme l, cache_ok (cache (snd (choose_subtopic theme l w)))).
Proof.
  intros Hc. split.
  - intros theme count.
    now apply (retry_inv _ (fetch_subtopics_func theme count) (fetch_func_inv theme count)).
  - intros theme l.
    now apply (retry_inv _ (choose_subtopic_func theme l) (choose_func_inv theme l)).
Qed.

Lemma cache_ok_fresh : cache_ok (cache fresh).
Proof. constructor. Qed.

(** ** Subtopic discovery *)

Lemma slice_to_length {A} (n : Z) (l : list A) :
  (0 <= n)%Z -> (Z.of_nat (length (slice_to n l)) <= n)%Z.
Proof.
  intros Hn. unfold slice_to.
  destruct (0 <=? n)%Z eqn:E; [|apply Z.leb_gt in E; lia].
  pose proof (firstn_le_length (Z.to_nat n) l). lia.
Qed.

Lemma slice_to_firstn {A} (n : Z) (l : list A) :
  (0 <= n)%Z -> slice_to n l = firstn (Z.to_nat n) l.
Proof.
  intros Hn. unfold slice_to.
  destruct (0 <=? n)%Z eqn:E; [reflexivity|apply Z.leb_gt in E; lia].
Qed.

Lemma splitlines_go_line (x cur post : str) :
  no_break x = true ->
  splitlines_go false cur (x ++ post) = splitlines_go false (rev x ++ cur) post.
Proof.
  revert cur. induction x as [|c x IH]; intros cur Hx; trivial.
  simpl in Hx. apply andb_true_iff in Hx. destruct Hx as [Hc Hx].
  apply negb_true_iff in Hc. cbn [List.app splitlines_go andb]. rewrite Hc.
  rewrite IH by exact Hx. cbn [rev]. now rewrite <- app_assoc.
Qed.

Lemma long_line_empty : long_line [] = false.
Proof. reflexivity. Qed.

(** The lines of a text written line by line are these lines, but for an
    empty last line; the lines the fallback keeps are the same. *)
Lemma splitlines_join (ls : list str) :
  forallb no_break ls = true ->
  filter long_line (splitlines (join [10%N] ls)) = filter long_line ls.
Proof.
  unfold splitlines. induction ls as [|x ls IH]; intros Hls; trivial.
  cbn [forallb] in Hls. apply andb_true_iff in Hls. destruct Hls as [Hx Hls].
  destruct ls as [|y ls].
  - cbn [join]. rewrite <- (List.app_nil_r x) at 1.
    rewrite splitlines_go_line by exact Hx. rewrite List.app_nil_r.
    cbn [splitlines_go]. destruct (rev x) as [|c r] eqn:E.
    + assert (x = []) as ->
        by (rewrite <- (rev_involutive x), E; reflexivity).
      reflexivity.
    + rewrite <- E, rev_involutive. reflexivity.
  - change (join [10%N] (x :: y :: ls))
      with (x ++ 10%N :: join [10%N] (y :: ls)).
    rewrite splitlines_go_line by exact Hx. rewrite List.app_nil_r.
    cbn [splitlines_go andb]. change (islinebreak 10) with true. cbv iota.
    change (N.eqb 10 13) with false. rewrite rev_involutive.
    cbn [filter]. now rewrite (IH Hls).
Qed.

Lemma plain_lines (ls : list str) :
  List.map render_line (List.map Plain ls) = ls /\
  items_of (List.map Plain ls) = [] /\
  forallb ok_line (List.map Plain ls) = forallb plain_ok ls.
Proof.
  induction ls as [|x ls (A & B & C)]; [now repeat split|].
  cbn [List.map render_line items_of flat_map forallb ok_line List.app].
  fold (items_of (List.map Plain ls)). now rewrite A, B, C.
Qed.

(** C3 (amended).  For a count between 3 and 10: whatever
    [fetch_subtopics] returns (from the cache or from the backend, after
    any retry) is a list of at most [count] strings.  When it misses the
    cache and the backend answers [text], it returns the items parsed
    from [text]: the first [count] captures of the list pattern over the
    whole text, in order, when the pattern matches at least [count]
    times, and the first [count] stripped lines longer than 5 characters
    when it matches nowhere.  On a text whose lines are list lines with a
    visible content after the prefix and lines that do not start with a
    digit or a bullet, the captures are the contents of the list lines:
    with at least [count] list lines the items are the contents of the
    first [count] of them, and with no list line at all the items are the
    first [count] lines longer than 5 characters, stripped. *)
Theorem fetch_subtopics_result (theme : str) (count : Z) :
  (3 <= count <= 10)%Z ->
  (forall w r w',
     cache_ok (cache w) ->
     fetch_subtopics theme count w = (inr r, w') ->
     exists items,
       r = VList (List.map VStr items) /\
       (Z.of_nat (length items) <= count)%Z) /\
  (forall w t,
     contains (clock w) (subtopics_key theme count) (cache w) = false ->
     backend (calls w) = Text t ->
     let text := or_empty t in
     let matches := re_findall subtopic_re text in
     let items := parse_subtopics text count in
     fetch_subtopics theme count w =
     (inr (VList (List.map VStr items)),
      stored (subtopics_key theme count) (VList (List.map VStr items)) w) /\
     (count <= Z.of_nat (length matches) ->
      items = firstn (Z.to_nat count) matches /\
      Z.of_nat (length items) = count)%Z /\
     (matches = [] ->
      items = firstn (Z.to_nat count)
                (List.map strip
                   (filter (fun line => Nat.ltb 5 (length (strip line)))
                      (splitlines text))))) /\
  (isdecimal 10 = false ->
   (forall lines,
      forallb ok_line lines = true ->
      (count <= Z.of_nat (length (items_of lines)))%Z ->
      parse_subtopics (join [10%N] (List.map render_line lines)) count =
      firstn (Z.to_nat count) (items_of lines)) /\
   (forall ls,
      forallb plain_ok ls = true ->
      forallb no_break ls = true ->
      parse_subtopics (join [10%N] ls) count =
      firstn (Z.to_nat count) (List.map strip (filter long_line ls)))).
Proof.
  intros Hcount. split; [|split].
  - intros w r w' Hc Hrun.
    destruct (retry_inv _ (fetch_subtopics_func theme count)
                (fetch_func_inv theme count) w Hc) as [_ Hq].
    fold (fetch_subtopics theme count) in Hq. rewrite Hrun in Hq.
    destruct (Hq r eq_refl) as (text & ->).
    exists (parse_subtopics text count). split; trivial.
    apply slice_to_length. lia.
  - intros w t Hmiss Hb text matches items. split; [|split].
    + now apply fetch_miss_returns.
    + intros Hlen. unfold items, parse_subtopics. fold matches.
      destruct matches as [|m ms] eqn:Em; [simpl in Hlen; lia|].
      cbn [is_empty]. rewrite slice_to_firstn by lia. split; trivial.
      rewrite length_firstn. lia.
    + intros Hnone. unfold items, parse_subtopics. fold matches.
      rewrite Hnone. cbn [is_empty]. apply slice_to_firstn. lia.
  - intros Hnl. split.
    + intros lines Hok Hlen. unfold parse_subtopics.
      rewrite (findall_text lines Hnl Hok).
      destruct (items_of lines) as [|i rest_items]; [simpl in Hlen; lia|].
      cbn [is_empty]. apply slice_to_firstn. lia.
    + intros ls Hok Hnb. destruct (plain_lines ls) as (A & B & C).
      unfold parse_subtopics. rewrite <- A at 1.
      rewrite (findall_text (List.map Plain ls) Hnl) by (now rewrite C).
      rewrite B. cbn [is_empty]. rewrite slice_to_firstn by lia.
      change (fun line => Nat.ltb 5 (length (strip line))) with long_line.
      now rewrite (splitlines_join ls Hnb).
Qed.

(** ** Failures are not cached *)

Lemma retry_loop_rel {A} (R : world -> world -> Prop) (f : M world A) :
  (forall w, R w w) ->
  (forall w1 w2 w3, R w1 w2 -> R w2 w3 -> R w1 w3) ->
  (forall d w, R w (snd (sleep d w))) ->
  (forall w, R w (snd (f w))) ->
  forall fuel n w, R w (snd (retry_loop fuel n f w)).
Proof.
  intros Hrefl Htrans Hsleep Hf.
  induction fuel as [|fuel IH]; intros n w; cbn [retry_loop];
    pose proof (Hf w) as Hw;
    destruct (f w) as [[e1|r] w1]; cbn [snd] in *; trivial;
    destruct (stop_after_attempt 3 n); trivial.
  eapply Htrans; [exact Hw|]. eapply Htrans; [apply Hsleep | apply IH].
Qed.

Lemma fetch_func_raise_inv (theme : str) (count : Z) (w w' : world) (e : exn) :
  fetch_subtopics_func theme count w = (inl e, w') ->
  contains (clock w) (subtopics_key theme count) (cache w) = false /\
  w' = called w.
Proof.
  intros H.
  destruct (contains (clock w) (subtopics_key theme count) (cache w)) eqn:Hk.
  - destruct (fetch_func_hit theme count w Hk) as (x & _ & Hrun).
    rewrite Hrun in H. discriminate.
  - destruct (backend (calls w)) as [t|e'] eqn:Hb.
    + rewrite (fetch_func_miss_text theme count w Hk Hb) in H. discriminate.
    + rewrite (fetch_func_miss_raise theme count w Hk Hb) in H.
      injection H as _ <-. now split.
Qed.

Lemma choose_func_raise_inv (theme : str) (l : list str) (w w' : world) (e : exn) :
  choose_subtopic_func theme l w = (inl e, w') ->
  contains (clock w) (choice_key theme l) (cache w) = false /\
  w' = called w.
Proof.
  intros H.
  destruct (contains (clock w) (choice_key theme l) (cache w)) eqn:Hk.
  - destruct (choose_func_hit theme l w Hk) as (x & _ & Hrun).
    rewrite Hrun in H. discriminate.
  - destruct (backend (calls w)) as [t|e'] eqn:Hb.
    + destruct (parse_choice_pure (or_empty t) l) as ([e'|v] & Hp).
      * rewrite (choose_func_miss_index theme l w Hk Hb Hp) in H.
        injection H as _ <-. now split.
      * rewrite (choose_func_miss_text theme l w Hk Hb Hp) in H. discriminate.
    + rewrite (choose_func_miss_raise theme l w Hk Hb) in H.
      injection H as _ <-. now split.
Qed.

Lemma fetch_func_miss_calls (theme : str) (count : Z) (w : world) :
  contains (clock w) (subtopics_key theme count) (cache w) = false ->
  calls (snd (fetch_subtopics_func theme count w)) = S (calls w).
Proof.
  intros Hk. destruct (backend (calls w)) as [t|e] eqn:Hb.
  - now rewrite (fetch_func_miss_text theme count w Hk Hb).
  - now rewrite (fetch_func_miss_raise theme count w Hk Hb).
Qed.

Lemma choose_func_miss_calls (theme : str) (l : list str) (w : world) :
  contains (clock w) (choice_key theme l) (cache w) = false ->
  calls (snd (choose_subtopic_func theme l w)) = S (calls w).
Proof.
  intros Hk. destruct (backend (calls w)) as [t|e] eqn:Hb.
  - destruct (parse_choice_pure (or_empty t) l) as ([e|v] & Hp).
    + now rewrite (choose_func_miss_index theme l w Hk Hb Hp).
    + now rewrite (choose_func_miss_text theme l w Hk Hb Hp).
  - now rewrite (choose_func_miss_raise theme l w Hk Hb).
Qed.

Lemma fetch_func_calls (theme : str) (count : Z) (w : world) :
  calls w <= calls (snd (fetch_subtopics_func theme count w)).
Proof.
  destruct (contains (clock w) (subtopics_key theme count) (cache w)) eqn:Hk.
  - destruct (fetch_func_hit theme count w Hk) as (x & _ & ->). simpl. lia.
  - rewrite fetch_func_miss_calls by exact Hk. lia.
Qed.

Lemma choose_func_calls (theme : str) (l : list str) (w : world) :
  calls w <= calls (snd (choose_subtopic_func theme l w)).
Proof.
  destruct (contains (clock w) (choice_key theme l) (cache w)) eqn:Hk.
  - destruct (choose_func_hit theme l w Hk) as (x & _ & ->). simpl. lia.
  - rewrite choose_func_miss_calls by exact Hk. lia.
Qed.

Lemma wrapper_calls {A} (func : M world A) (w : world) :
  calls (snd (wrapper func w)) = calls (snd (func w)).
Proof.
  rewrite wrapper_run. now destruct (func w) as [[e|r] w'].
Qed.

(** A call of a caching step that raises: the first attempt missed the
    cache, the cache is as before, time has not gone back. *)
Lemma retry_raise_cache {A} (func : M world A) (k : str) (w w' : world) (e : exn) :
  (forall w e w', func w = (inl e, w') ->
     contains (clock w) k (cache w) = false /\ w' = called w) ->
  retry_on_failure func w = (inl e, w') ->
  contains (clock w) k (cache w) = false /\
  cache w' = cache w /\ (clock w <= clock w')%Z.
Proof.
  intros Hf H. split.
  - unfold retry_on_failure in H. rewrite retry_loop_step, wrapper_run in H.
    destruct (func w) as [[e1|r] w1] eqn:E; [|discriminate].
    now apply Hf in E.
  - apply (retry_loop_raise
             (fun w w' => cache w' = cache w /\ (clock w <= clock w')%Z)
             (wrapper func)) with (fuel := 3) (n := 1) (e := e); trivial.
    + intros u. split; [reflexivity|lia].
    + intros w1 w2 w3 [H1 H2] [H3 H4]. split; [congruence|lia].
    + intros n u. simpl. split; trivial.
      pose proof (wait_exponential_bounds n). lia.
    + intros u e1 u' Hu. rewrite wrapper_run in Hu.
      destruct (func u) as [[e2|r] u2] eqn:E; [|discriminate].
      injection Hu as _ <-. apply Hf in E. destruct E as [_ ->].
      simpl. split; [reflexivity|lia].
Qed.

(** The call after a miss invokes the backend. *)
Lemma retry_miss_calls {A} (func : M world A) (w : world) :
  (forall w, calls w <= calls (snd (func w))) ->
  calls (snd (func w)) = S (calls w) ->
  calls w < calls (snd (retry_on_failure func w)).
Proof.
  intros Hmono Hfirst. unfold retry_on_failure.
  rewrite retry_loop_step.
  pose proof (wrapper_calls func w) as Hw. rewrite Hfirst in Hw.
  destruct (wrapper func w) as [[e1|r] w1]; cbn [snd] in *; [|lia].
  change (stop_after_attempt 3 1) with false. cbv iota.
  pose proof (retry_loop_rel (fun w w' => calls w <= calls w') (wrapper func)) as Hrel.
  specialize (Hrel (fun u => le_n _) (fun a b c => @Nat.le_trans _ _ _)).
  specialize (Hrel (fun d u => le_n _)).
  assert (Hf : forall u, calls u <= calls (snd (wrapper func u))).
  { intros u. rewrite wrapper_calls. apply Hmono. }
  specialize (Hrel Hf 2 2 (snd (sleep (wait_exponential 1 2 10 1) w1))).
  simpl in Hrel |- *. lia.
Qed.

(** C8.  A call of [fetch_subtopics] or [choose_subtopic] that raises
    leaves the cache exactly as it was: nothing is stored for the key, the
    key is still absent afterwards, and the next identical call invokes
    the backend again. *)
Theorem no_negative_caching (w w' : world) (e : exn) :
  (forall theme count,
     fetch_subtopics theme count w = (inl e, w') ->
     cache w' = cache w /\
     contains (clock w') (subtopics_key theme count) (cache w') = false /\
     calls w' < calls (snd (fetch_subtopics theme count w'))) /\
  (forall theme subtopics,
     choose_subtopic theme subtopics w = (inl e, w') ->
     cache w' = cache w /\
     contains (clock w') (choice_key theme subtopics) (cache w') = false /\
     calls w' < calls (snd (choose_subtopic theme subtopics w'))).
Proof.
  split.
  - intros theme count H.
    destruct (retry_raise_cache (fetch_subtopics_func theme count)
                (subtopics_key theme count) w
                (fun u e1 u' => @fetch_func_raise_inv theme count u u' e1) H)
      as (Hmiss & Hc & Ht).
    assert (Hmiss' : contains (clock w') (subtopics_key theme count) (cache w') = false).
    { rewrite Hc. now apply contains_later with (now := clock w). }
    repeat split; trivial.
    apply retry_miss_calls.
    + apply fetch_func_calls.
    + now apply fetch_func_miss_calls.
  - intros theme l H.
    destruct (retry_raise_cache (choose_subtopic_func theme l)
                (choice_key theme l) w
                (fun u e1 u' => @choose_func_raise_inv theme l u u' e1) H)
      as (Hmiss & Hc & Ht).
    assert (Hmiss' : contains (clock w') (choice_key theme l) (cache w') = false).
    { rewrite Hc. now apply contains_later with (now := clock w). }
    repeat split; trivial.
    apply retry_miss_calls.
    + apply choose_func_calls.
    + now apply choose_func_miss_calls.
Qed.

(** ** Reading a key back *)

Lemma below_all (P : N -> bool) (k : nat) :
  forallb P (List.map N.of_nat (seq 0 k)) = true ->
  forall n, (n < N.of_nat k)%N -> P n = true.
Proof.
  intros H n Hn. rewrite forallb_forall in H. apply H.
  apply in_map_iff. exists (N.to_nat n). split; [apply N2Nat.id|].
  apply in_seq. lia.
Qed.

Lemma hexval_hexdigit (n : N) : (n < 16)%N -> hexval (hexdigit n) = Some n.
Proof.
  intros Hn.
  pose proof (@below_all (fun m => match hexval (hexdigit m) with
                                  | Some v => N.eqb v m
                                  | None => false
                                  end) 16 eq_refl n Hn) as H.
  cbv beta in H. destruct (hexval (hexdigit n)) as [v|]; [|discriminate].
  apply N.eqb_eq in H. now subst.
Qed.

Lemma hexdigit_low (n : N) : (48 <= hexdigit n)%N.
Proof. unfold hexdigit. destruct (N.ltb n 10); lia. Qed.

Lemma hex_fixed_length (w : nat) (n : N) : length (hex_fixed w n) = w.
Proof.
  revert n. induction w as [|w IH]; intros n; simpl; trivial.
  rewrite length_app, IH. simpl. lia.
Qed.

Lemma unhex_hex_fixed (w : nat) (n : N) :
  (n < 16 ^ N.of_nat w)%N -> unhex (hex_fixed w n) = Some n.
Proof.
  unfold unhex. revert n. induction w as [|w IH]; intros n Hn.
  - simpl in *. f_equal. lia.
  - cbn [hex_fixed]. rewrite fold_left_app.
    assert (Hpow : (16 ^ N.of_nat (S w) = 16 * 16 ^ N.of_nat w)%N).
    { rewrite Nat2N.inj_succ. apply N.pow_succ_r'. }
    rewrite IH.
    + cbn [fold_left]. rewrite hexval_hexdigit by (apply N.mod_lt; lia).
      f_equal. rewrite (N.div_mod n 16) at 3 by lia. lia.
    + apply N.Div0.div_lt_upper_bound. lia.
Qed.

Lemma unhex_head (w : nat) (n : N) (post : str) :
  (n < 16 ^ N.of_nat w)%N ->
  unhex (firstn w (hex_fixed w n ++ post)) = Some n /\
  skipn w (hex_fixed w n ++ post) = post.
Proof.
  intros Hn. pose proof (hex_fixed_length w n) as L. split.
  - rewrite firstn_app, L, Nat.sub_diag, firstn_O, List.app_nil_r.
    rewrite <- L at 1. rewrite firstn_all. now apply unhex_hex_fixed.
  - rewrite skipn_app, L, Nat.sub_diag. cbn [skipn].
    rewrite <- L at 1. now rewrite skipn_all.
Qed.

(** What [repr_char] writes is read back, whatever follows. *)
Lemma unrepr_repr_char (q c : char) (post : str) :
  q = 34%N \/ q = 39%N ->
  valid_char c = true ->
  unrepr_char (repr_char q c ++ post) = Some (c, post).
Proof.
  intros Hq Hc. unfold valid_char in Hc. apply N.leb_le in Hc.
  assert (Hx : forall w, (c < 16 ^ N.of_nat w)%N -> forall t,
             N.eqb t 92 || N.eqb t 39 || N.eqb t 34 = false ->
             N.eqb t 116 = false -> N.eqb t 110 = false -> N.eqb t 114 = false ->
             (if N.eqb t 120 then 2 else if N.eqb t 117 then 4 else 8) = w ->
             unrepr_char ((92%N :: t :: hex_fixed w c) ++ post) = Some (c, post)).
  { intros w Hw t T1 T2 T3 T4 T5. cbn [unrepr_char List.app N.eqb Pos.eqb].
    rewrite T1, T2, T3, T4, T5.
    destruct (@unhex_head w c post Hw) as [U1 U2]. unfold str, char in *.
    now rewrite U1, U2. }
  unfold repr_char, char_eqb.
  destruct (N.eqb c q || N.eqb c 92) eqn:E1.
  { cbn [unrepr_char List.app]. change (N.eqb 92 92) with true. cbv iota.
    replace (N.eqb c 92 || N.eqb c 39 || N.eqb c 34) with true; trivial.
    symmetry. apply orb_true_iff in E1. destruct E1 as [E|E].
    - apply N.eqb_eq in E. subst c. destruct Hq as [-> | ->]; reflexivity.
    - now rewrite E. }
  apply orb_false_iff in E1. destruct E1 as [E1 E2].
  destruct (N.eqb c 9) eqn:E3.
  { apply N.eqb_eq in E3. subst c. reflexivity. }
  destruct (N.eqb c 10) eqn:E4.
  { apply N.eqb_eq in E4. subst c. reflexivity. }
  destruct (N.eqb c 13) eqn:E5.
  { apply N.eqb_eq in E5. subst c. reflexivity. }
  destruct (N.ltb c 32 || N.eqb c 127) eqn:E6.
  { apply (@Hx 2%nat); trivial. apply orb_true_iff in E6.
    destruct E6 as [E|E]; [apply N.ltb_lt in E|apply N.eqb_eq in E];
      change (16 ^ N.of_nat 2)%N with 256%N; lia. }
  assert (Raw : unrepr_char ([c] ++ post) = Some (c, post)).
  { cbn [unrepr_char List.app]. now rewrite E2. }
  destruct (N.ltb c 127); [exact Raw|].
  destruct (isprintable c); [exact Raw|].
  destruct (N.ltb c 256) eqn:E7.
  { apply (@Hx 2%nat); trivial. apply N.ltb_lt in E7.
    change (16 ^ N.of_nat 2)%N with 256%N. lia. }
  destruct (N.ltb c 65536) eqn:E8.
  { apply (@Hx 4%nat); trivial. apply N.ltb_lt in E8.
    change (16 ^ N.of_nat 4)%N with 65536%N. lia. }
  apply (@Hx 8%nat); trivial.
  change (16 ^ N.of_nat 8)%N with 4294967296%N. lia.
Qed.

Lemma repr_body_inj (q : char) (s s' : str) :
  q = 34%N \/ q = 39%N ->
  valid_str s = true -> valid_str s' = true ->
  flat_map (repr_char q) s = flat_map (repr_char q) s' -> s = s'.
Proof.
  intros Hq. revert s'.
  induction s as [|c s IH]; intros [|c' s'] Hs Hs' H; trivial;
    cbn [flat_map valid_str forallb] in *.
  - apply andb_true_iff in Hs'. destruct Hs' as [Hc' _].
    pose proof (@unrepr_repr_char q c' (flat_map (repr_char q) s') Hq Hc') as U.
    rewrite <- H in U. discriminate.
  - apply andb_true_iff in Hs. destruct Hs as [Hc _].
    pose proof (@unrepr_repr_char q c (flat_map (repr_char q) s) Hq Hc) as U.
    rewrite H in U. discriminate.
  - apply andb_true_iff in Hs, Hs'. destruct Hs as [Hc Hs], Hs' as [Hc' Hs'].
    pose proof (@unrepr_repr_char q c (flat_map (repr_char q) s) Hq Hc) as U.
    rewrite H, (@unrepr_repr_char q c' _ Hq Hc') in U.
    injection U as -> E. f_equal. now apply IH.
Qed.

Lemma repr_quote (s : str) :
  exists q, (q = 34%N \/ q = 39%N) /\
            repr_str s = q :: flat_map (repr_char q) s ++ [q].
Proof.
  unfold repr_str.
  destruct (existsb (char_eqb 39) s && negb (existsb (char_eqb 34) s));
    [exists 34%N | exists 39%N]; auto.
Qed.

(** [repr] of a string determines the string. *)
Lemma repr_str_inj (s s' : str) :
  valid_str s = true -> valid_str s' = true ->
  repr_str s = repr_str s' -> s = s'.
Proof.
  intros Hs Hs' H.
  destruct (repr_quote s) as (q & Hq & E), (repr_quote s') as (q' & Hq' & E').
  rewrite E, E' in H. injection H as <- H. apply app_inj_tail in H.
  destruct H as [H _]. now apply (@repr_body_inj q).
Qed.

Lemma last_default {A} (l : list A) (x d d' : A) :
  last (x :: l) d = last (x :: l) d'.
Proof.
  revert x. induction l as [|y l IH]; intros x; trivial.
  change (last (y :: l) d = last (y :: l) d'). apply IH.
Qed.

Lemma closed_from_app (p q : char) (a b : str) :
  closed_from p q (a ++ b) = closed_from p q a && closed_from (last a p) q b.
Proof.
  revert p. induction a as [|c a IH]; intros p; trivial.
  cbn [List.app closed_from]. rewrite IH, andb_assoc. f_equal.
  destruct a as [|c0 a]; trivial.
  change (last (c :: c0 :: a) p) with (last (c0 :: a) p).
  now rewrite (last_default a c0 c p).
Qed.

(** In a closed text, the character before a quote is a backslash. *)
Lemma closed_split (p q x : char) (u v : str) :
  closed_from p q (u ++ x :: q :: v) = true -> x = 92%N.
Proof.
  revert p. induction u as [|c u IH]; intros p H; cbn [List.app closed_from] in H.
  - rewrite N.eqb_refl in H. cbn [negb orb] in H.
    apply andb_true_iff in H. destruct H as [_ H].
    apply andb_true_iff in H. destruct H as [H _]. now apply N.eqb_eq.
  - apply andb_true_iff in H. destruct H as [_ H]. now apply (IH c).
Qed.

Lemma hex_fixed_closed (p q : char) (w : nat) (n : N) :
  q = 34%N \/ q = 39%N -> closed_from p q (hex_fixed w n) = true.
Proof.
  intros Hq. revert p n. induction w as [|w IH]; intros p n; trivial.
  cbn [hex_fixed]. rewrite closed_from_app, IH. cbn [closed_from andb].
  pose proof (hexdigit_low (n mod 16)) as L.
  replace (N.eqb (hexdigit (n mod 16)) q) with false; trivial.
  symmetry. apply N.eqb_neq. destruct Hq; lia.
Qed.

Lemma repr_char_closed (p q c : char) :
  q = 34%N \/ q = 39%N -> closed_from p q (repr_char q c) = true.
Proof.
  intros Hq.
  assert (Q92 : N.eqb 92 q = false) by (destruct Hq; subst; reflexivity).
  assert (Hx : forall t w, N.eqb t q = false ->
             closed_from p q (92%N :: t :: hex_fixed w c) = true).
  { intros t w Ht. cbn [closed_from]. rewrite Q92, Ht. cbn [negb orb andb].
    now apply hex_fixed_closed. }
  assert (Ht : forall t, N.eqb t q = false ->
             closed_from p q [92%N; t] = true).
  { intros t E. cbn [closed_from]. now rewrite Q92, E. }
  unfold repr_char, char_eqb.
  destruct (N.eqb c q || N.eqb c 92) eqn:E1.
  { cbn [closed_from]. rewrite Q92, N.eqb_refl. cbn [negb orb andb].
    now rewrite orb_true_r. }
  apply orb_false_iff in E1. destruct E1 as [E1 _].
  destruct (N.eqb c 9); [apply Ht; destruct Hq; subst; reflexivity|].
  destruct (N.eqb c 10); [apply Ht; destruct Hq; subst; reflexivity|].
  destruct (N.eqb c 13); [apply Ht; destruct Hq; subst; reflexivity|].
  destruct (N.ltb c 32 || N.eqb c 127);
    [apply Hx; destruct Hq; subst; reflexivity|].
  assert (Raw : closed_from p q [c] = true)
    by (cbn [closed_from]; now rewrite E1).
  destruct (N.ltb c 127); [exact Raw|].
  destruct (isprintable c); [exact Raw|].
  destruct (N.ltb c 256); [apply Hx; destruct Hq; subst; reflexivity|].
  destruct (N.ltb c 65536); apply Hx; destruct Hq; subst; reflexivity.
Qed.

Lemma repr_body_closed (p q : char) (s : str) :
  q = 34%N \/ q = 39%N -> closed_from p q (flat_map (repr_char q) s) = true.
Proof.
  intros Hq. revert p. induction s as [|c s IH]; intros p; trivial.
  cbn [flat_map]. now rewrite closed_from_app, repr_char_closed, IH.
Qed.

Lemma repr_str_quoted (s : str) : quoted (repr_str s).
Proof.
  destruct (repr_quote s) as (q & Hq & E). exists q, (flat_map (repr_char q) s).
  split; [exact E|]. split; [exact Hq|]. now apply repr_body_closed.
Qed.

(** Two quoted texts that end at the same place, each after a character
    that is not a backslash, begin at the same place. *)
Lemma quoted_align (q p p' : char) (b b' X X' : str) :
  closed_from 0 q b = true -> closed_from 0 q b' = true ->
  p <> 92%N -> p' <> 92%N ->
  X ++ p :: q :: b = X' ++ p' :: q :: b' ->
  X = X' /\ p = p' /\ b = b'.
Proof.
  intros Hb Hb' Hp Hp' H.
  assert (Half : forall (Y Y' : str) (r r' : char) (c c' : str) (l : str),
            closed_from 0 q c' = true -> r <> 92%N ->
            Y = Y' ++ l -> r' :: q :: c' = l ++ r :: q :: c ->
            l = []).
  { intros Y Y' r r' c c' l Hc Hr _ E.
    destruct l as [|x [|y l]]; trivial; exfalso.
    - cbn [List.app] in E. injection E as _ _ E. subst c'.
      cbn [closed_from] in Hc. rewrite N.eqb_refl in Hc. discriminate.
    - cbn [List.app] in E. injection E as _ _ E. subst c'.
      apply closed_split in Hc. contradiction. }
  apply app_eq_app in H. destruct H as (l & [[E1 E2]|[E1 E2]]).
  - assert (l = []) as -> by (eapply (Half X X' p p' b b'); eauto).
    rewrite List.app_nil_r in E1. cbn [List.app] in E2.
    injection E2 as -> ->. now subst.
  - assert (l = []) as -> by (eapply (Half X' X p' p b' b); eauto).
    rewrite List.app_nil_r in E1. cbn [List.app] in E2.
    injection E2 as -> ->. now subst.
Qed.

Lemma join_snoc (sep : str) (l : list str) (x : str) :
  l <> [] -> join sep (l ++ [x]) = join sep l ++ sep ++ x.
Proof.
  induction l as [|a l IH]; intros Hl; [congruence|].
  destruct l as [|b l]; [reflexivity|].
  change (join sep ((a :: b :: l) ++ [x]))
    with (a ++ sep ++ join sep ((b :: l) ++ [x])).
  rewrite IH by discriminate.
  change (join sep (a :: b :: l)) with (a ++ sep ++ join sep (b :: l)).
  now rewrite <- !app_assoc.
Qed.

(** The texts of a tuple, after its parenthesis, determine where the
    tuple begins and what it holds. *)
Lemma joined_align (es : list str) :
  forall (es' : list str) (X X' : str),
    Forall quoted es -> Forall quoted es' -> es <> [] -> es' <> [] ->
    X ++ 40%N :: join (lit ", ") es = X' ++ 40%N :: join (lit ", ") es' ->
    X = X' /\ es = es'.
Proof.
  induction es as [|e fs IH] using rev_ind; intros es' X X' Hes Hes' Hne Hne' H;
    [congruence|].
  destruct (exists_last Hne') as (fs' & e' & ->).
  apply Forall_app in Hes, Hes'.
  destruct Hes as [Hfs He], Hes' as [Hfs' He'].
  inversion He as [|? ? (q & b & Ee & Hq & Hb) _]; subst.
  inversion He' as [|? ? (q' & b' & Ee' & Hq' & Hb') _]; subst.
  assert (Hend : forall (Y Y' : str) (p p' : char),
            p <> 92%N -> p' <> 92%N ->
            Y ++ p :: q :: b ++ [q] = Y' ++ p' :: q' :: b' ++ [q'] ->
            Y = Y' /\ p = p' /\ q :: b ++ [q] = q' :: b' ++ [q']).
  { intros Y Y' p p' Hp Hp' E.
    change (Y ++ p :: q :: b ++ [q]) with (Y ++ (p :: q :: b) ++ [q]) in E.
    change (Y' ++ p' :: q' :: b' ++ [q']) with (Y' ++ (p' :: q' :: b') ++ [q']) in E.
    rewrite !app_assoc in E. apply app_inj_tail in E. destruct E as [E <-].
    destruct (quoted_align q b b' Y Y' Hb Hb' Hp Hp' E) as (-> & -> & ->).
    now repeat split. }
  assert (Js : forall (gs : list str) (g : str),
            join (lit ", ") (gs ++ [g]) =
            match gs with
            | [] => g
            | _ => (join (lit ", ") gs ++ [44%N]) ++ 32%N :: g
            end).
  { intros [|g0 gs] g; trivial. rewrite join_snoc by discriminate.
    now rewrite <- app_assoc. }
  rewrite !Js in H.
  assert (Re : forall (Y J g : str),
            Y ++ 40%N :: (J ++ [44%N]) ++ 32%N :: g =
            (Y ++ (40%N :: J) ++ [44%N]) ++ 32%N :: g).
  { intros Y J g. now rewrite <- !app_assoc. }
  destruct fs as [|f fs], fs' as [|f' fs'].
  - destruct (Hend X X' 40%N 40%N) as (-> & _ & ->); trivial; try discriminate.
    now split.
  - exfalso. rewrite Re in H.
    destruct (Hend X _ 40%N 32%N ltac:(discriminate) ltac:(discriminate) H)
      as (_ & Hp & _). discriminate.
  - exfalso. rewrite Re in H.
    destruct (Hend _ X' 32%N 40%N ltac:(discriminate) ltac:(discriminate) H)
      as (_ & Hp & _). discriminate.
  - rewrite !Re in H.
    destruct (Hend _ _ 32%N 32%N ltac:(discriminate) ltac:(discriminate) H)
      as (E & _ & Ee).
    rewrite !app_assoc in E. apply app_inj_tail in E. destruct E as [E _].
    destruct (IH (f' :: fs') X X' Hfs Hfs') as (-> & ->); trivial;
      try discriminate.
    split; trivial. now rewrite Ee.
Qed.

Lemma quoted_items (l : list str) : Forall quoted (List.map repr_str l).
Proof. induction l; constructor; trivial. apply repr_str_quoted. Qed.

Lemma join_ends_quoted (es : list str) :
  Forall quoted es -> es <> [] ->
  exists Y q, join (lit ", ") es = Y ++ [q] /\ (q = 34%N \/ q = 39%N).
Proof.
  intros Hes Hne. destruct (exists_last Hne) as (fs & e & ->).
  apply Forall_app in Hes. destruct Hes as [_ He].
  inversion He as [|? ? (q & b & -> & Hq & _) _]; subst.
  destruct fs as [|f fs].
  - exists (q :: b), q. now split.
  - rewrite join_snoc by discriminate.
    exists (join (lit ", ") (f :: fs) ++ lit ", " ++ q :: b), q. split; trivial.
    now rewrite <- !app_assoc.
Qed.

(** The three shapes of a tuple text, each with its last character but
    one apart. *)
Lemma repr_tuple_cases (l : list str) :
  (l = [] /\ repr_tuple l = [40%N] ++ [41%N]) \/
  (exists x, l = [x] /\
             repr_tuple l = ((40%N :: repr_str x) ++ [44%N]) ++ [41%N]) \/
  (exists Y q,
     (q = 34%N \/ q = 39%N) /\ List.map repr_str l <> [] /\
     (forall x, l <> [x]) /\
     join (lit ", ") (List.map repr_str l) = Y ++ [q] /\
     repr_tuple l = ((40%N :: Y) ++ [q]) ++ [41%N]).
Proof.
  destruct l as [|x [|y l]].
  - left. now split.
  - right. left. exists x. split; trivial. unfold repr_tuple.
    change (lit "(") with [40%N]. change (lit ",)") with [44%N; 41%N].
    cbn [List.app]. now rewrite <- app_assoc.
  - right. right.
    destruct (join_ends_quoted (quoted_items (x :: y :: l))) as (Y & q & E & Hq);
      [discriminate|].
    exists Y, q. repeat split; trivial; try discriminate.
    unfold repr_tuple. rewrite E. change (lit "(") with [40%N].
    change (lit ")") with [41%N]. reflexivity.
Qed.

Lemma map_repr_inj (l l' : list str) :
  forallb valid_str l = true -> forallb valid_str l' = true ->
  List.map repr_str l = List.map repr_str l' -> l = l'.
Proof.
  revert l'. induction l as [|x l IH]; intros [|x' l'] Hl Hl' H;
    try discriminate; trivial.
  cbn [forallb List.map] in *. apply andb_true_iff in Hl, Hl'.
  destruct Hl as [Hx Hl], Hl' as [Hx' Hl'].
  pose proof (f_equal (hd []) H) as Hh. pose proof (f_equal (@tl _) H) as Ht.
  cbn [hd tl] in Hh, Ht.
  f_equal; [now apply repr_str_inj | now apply IH].
Qed.

(** The text of a tuple of strings determines where it begins and what
    the tuple holds, whatever stands before it. *)
Lemma repr_tuple_align (l l' : list str) (A A' : str) :
  forallb valid_str l = true -> forallb valid_str l' = true ->
  A ++ repr_tuple l = A' ++ repr_tuple l' ->
  A = A' /\ l = l'.
Proof.
  intros Hl Hl' H.
  assert (Tail : forall (X Y : str) (c d : char),
            X ++ [c] = Y ++ [d] -> X = Y /\ c = d)
    by (intros; now apply app_inj_tail).
  destruct (repr_tuple_cases l) as
    [[-> E]|[(x & -> & E)|(Y & q & Hq & Hne & Hns & Ej & E)]];
  destruct (repr_tuple_cases l') as
    [[-> E']|[(x' & -> & E')|(Y' & q' & Hq' & Hne' & Hns' & Ej' & E')]];
  rewrite E in H; try rewrite E' in H; rewrite !app_assoc in H;
  apply Tail in H; destruct H as [H _]; rewrite ?app_assoc in H.
  - apply Tail in H. destruct H as [-> _]. now split.
  - apply Tail in H. destruct H as [_ H]. discriminate.
  - apply Tail in H. destruct H as [_ H]. destruct Hq'; subst; discriminate.
  - apply Tail in H. destruct H as [_ H]. discriminate.
  - apply Tail in H. destruct H as [H _].
    destruct (@joined_align [repr_str x] [repr_str x'] A A') as [-> Ee];
      try discriminate; try apply (quoted_items [_]).
    + cbn [join]. rewrite <- ?app_assoc in H. exact H.
    + split; trivial. apply (@map_repr_inj [x] [x'] Hl Hl'). exact Ee.
  - apply Tail in H. destruct H as [_ H]. destruct Hq'; subst; discriminate.
  - apply Tail in H. destruct H as [_ H]. destruct Hq; subst; discriminate.
  - apply Tail in H. destruct H as [_ H]. destruct Hq; subst; discriminate.
  - rewrite <- !app_assoc in H. cbn [List.app] in H. rewrite <- Ej, <- Ej' in H.
    destruct (@joined_align (List.map repr_str l) (List.map repr_str l') A A')
      as [-> Ee]; trivial; try apply quoted_items.
    split; trivial. now apply map_repr_inj.
Qed.

(** The key of [choose_subtopic] determines the theme and the
    subtopics. *)
Lemma choice_key_inj (theme theme' : str) (l l' : list str) :
  forallb valid_str l = true -> forallb valid_str l' = true ->
  choice_key theme l = choice_key theme' l' ->
  theme = theme' /\ l = l'.
Proof.
  intros Hl Hl' H. unfold choice_key in H. apply app_inv_head in H.
  rewrite !app_assoc in H. apply repr_tuple_align in H; trivial.
  destruct H as [H ->]. apply app_inj_tail in H. now destruct H as [-> _].
Qed.

Lemma entries_filter (P : entry -> Prop) (p : entry -> bool) (c : ttlcache) :
  Forall P c -> Forall P (filter p c).
Proof.
  rewrite !Forall_forall. intros H e He. apply filter_In in He. now apply H.
Qed.

Lemma entries_setitem (P : entry -> Prop) (now : Z) (k : str) (v : value)
    (c : ttlcache) :
  Forall P c -> P (Entry k v (now + ttl)) -> Forall P (setitem now k v c).
Proof.
  intros Hc He. unfold setitem. apply Forall_app. split.
  - apply entries_filter.
    destruct (find (has_key k) (expire now c)).
    + now apply entries_filter.
    + rewrite Forall_forall. intros e Hin.
      assert (Hin' : In e (expire now c)).
      { rewrite <- (firstn_skipn (length (expire now c) + 1 - maxsize)
                      (expire now c)).
        apply in_or_app. now right. }
      apply filter_In in Hin'. rewrite Forall_forall in Hc. now apply Hc.
  - constructor; [exact He|constructor].
Qed.

Lemma entries_moved (P : entry -> Prop) (k : str) (c : ttlcache) (e : entry) :
  Forall P c -> find (has_key k) c = Some e -> Forall P (remove k c ++ [e]).
Proof.
  intros Hc Hf. apply Forall_app. split.
  - now apply entries_filter.
  - constructor; [|constructor].
    apply find_key in Hf. destruct Hf as [Hin _].
    rewrite Forall_forall in Hc. now apply Hc.
Qed.

(** The two caching steps only write entries for the inputs they are
    called with. *)
Lemma cache_unicode_kept (w : world) :
  cache_unicode (cache w) ->
  (forall theme count,
     cache_unicode (cache (snd (fetch_subtopics theme count w)))) /\
  (forall theme subtopics,
     forallb valid_str subtopics = true ->
     cache_unicode (cache (snd (choose_subtopic theme subtopics w)))).
Proof.
  intros Hc. split.
  - intros theme count. unfold fetch_subtopics, retry_on_failure.
    apply (retry_loop_inv (fun u => cache_unicode (cache u)) (fun _ => True));
      trivial.
    apply (wrapper_inv (fun u => cache_unicode (cache u)) (fun _ => True));
      trivial.
    intros u Hu. split; trivial.
    destruct (contains (clock u) (subtopics_key theme count) (cache u)) eqn:Hk.
    + destruct (fetch_func_hit theme count u Hk) as (e & Hf & ->). simpl.
      now apply entries_moved.
    + destruct (backend (calls u)) as [t|e] eqn:Hb.
      * rewrite (fetch_func_miss_text theme count u Hk Hb). simpl.
        apply entries_setitem; trivial. left.
        exists theme, count, (or_empty t). now split.
      * now rewrite (fetch_func_miss_raise theme count u Hk Hb).
  - intros theme l Hl. unfold choose_subtopic, retry_on_failure.
    apply (retry_loop_inv (fun u => cache_unicode (cache u)) (fun _ => True));
      trivial.
    apply (wrapper_inv (fun u => cache_unicode (cache u)) (fun _ => True));
      trivial.
    intros u Hu. split; trivial.
    destruct (contains (clock u) (choice_key theme l) (cache u)) eqn:Hk.
    + destruct (choose_func_hit theme l u Hk) as (e & Hf & ->). simpl.
      now apply entries_moved.
    + destruct (backend (calls u)) as [t|e] eqn:Hb.
      * destruct (parse_choice_pure (or_empty t) l) as ([e|v] & Hp).
        -- now rewrite (choose_func_miss_index theme l u Hk Hb Hp).
        -- rewrite (choose_func_miss_text theme l u Hk Hb Hp). simpl.
           apply entries_setitem; trivial. right.
           exists theme, l, (or_empty t). now repeat split.
      * now rewrite (choose_func_miss_raise theme l u Hk Hb).
Qed.

(** ** Cache keys *)

(** C10.  The key of [fetch_subtopics] determines the theme and the count
    (for every count, 3 to 10 included); it is never a key of
    [choose_subtopic]; the key of [choose_subtopic] determines the theme
    and the subtopics.  Hence an entry found under a key of
    [fetch_subtopics] in a well-formed cache holds the items
    [fetch_subtopics] parsed for that very count, and an entry found under
    a key of [choose_subtopic] was written by [choose_subtopic], for the
    very subtopics of the key in a cache that the two steps have filled
    from the empty one. *)
Theorem cache_keys_do_not_alias :
  (forall theme count theme' count',
     subtopics_key theme count = subtopics_key theme' count' ->
     theme = theme' /\ count = count') /\
  (forall theme count theme' subtopics,
     subtopics_key theme count <> choice_key theme' subtopics) /\
  (forall theme count c e,
     cache_ok c ->
     find (has_key (subtopics_key theme count)) c = Some e ->
     exists text, evalue e = VList (List.map VStr (parse_subtopics text count))) /\
  (forall theme subtopics c e,
     cache_ok c ->
     find (has_key (choice_key theme subtopics)) c = Some e ->
     choice_entry e) /\
  (forall theme subtopics theme' subtopics',
     forallb valid_str subtopics = true ->
     forallb valid_str subtopics' = true ->
     choice_key theme subtopics = choice_key theme' subtopics' ->
     theme = theme' /\ subtopics = subtopics') /\
  (forall theme subtopics c e,
     cache_unicode c ->
     forallb valid_str subtopics = true ->
     find (has_key (choice_key theme subtopics)) c = Some e ->
     exists raw, parse_choice raw subtopics tt = (inr (evalue e), tt)) /\
  cache_unicode [] /\
  (forall w,
     cache_unicode (cache w) ->
     (forall theme count,
        cache_unicode (cache (snd (fetch_subtopics theme count w)))) /\
     (forall theme subtopics,
        forallb valid_str subtopics = true ->
        cache_unicode (cache (snd (choose_subtopic theme subtopics w))))).
Proof.
  split; [|split; [|split; [|split; [|split; [|split; [|split]]]]]].
  - intros theme count theme' count'. apply subtopics_key_inj.
  - intros theme count theme' l. apply subtopics_key_not_choice.
  - intros theme count c e. apply fetch_hit_origin.
  - intros theme l c e Hc Hf. apply find_key in Hf. destruct Hf as [Hin Hk].
    unfold cache_ok in Hc. rewrite Forall_forall in Hc.
    destruct (Hc e Hin) as [(t & n & text & Hk' & _) | He]; trivial.
    rewrite Hk in Hk'. symmetry in Hk'. now apply subtopics_key_not_choice in Hk'.
  - intros theme l theme' l'. apply choice_key_inj.
  - intros theme l c e Hc Hl Hf. apply find_key in Hf. destruct Hf as [Hin Hk].
    unfold cache_unicode in Hc. rewrite Forall_forall in Hc.
    destruct (Hc e Hin) as [(t & n & text & Hk' & _) | (t & l' & raw & Hl' & Hk' & Hp)].
    + rewrite Hk in Hk'. symmetry in Hk'.
      now apply subtopics_key_not_choice in Hk'.
    + rewrite Hk in Hk'. apply choice_key_inj in Hk'; trivial.
      destruct Hk' as [_ ->]. now exists raw.
  - constructor.
  - apply cache_unicode_kept.
Qed.

(** ** Subtopic selection *)

Lemma decode_selection_some (raw : str) (c r : value) :
  decodes raw c r -> decode_selection raw = Some (selection c r).
Proof.
  intros (doc & Hd & Hc & Hr). unfold decode_selection. now rewrite Hd, Hc, Hr.
Qed.

Lemma decode_selection_none (raw : str) :
  ~ structured raw -> decode_selection raw = None.
Proof.
  intros H. unfold decode_selection.
  destruct (json_loads raw) as [doc|] eqn:Hd; trivial.
  destruct (subscript doc (lit "choice")) as [c|] eqn:Hc; trivial.
  destruct (subscript doc (lit "reason")) as [r|] eqn:Hr; trivial.
  exfalso. apply H. exists c, r, doc. now repeat split.
Qed.

Lemma choose_miss_returns (theme : str) (l : list str) (w : world)
    (t : option str) (v : value) :
  contains (clock w) (choice_key theme l) (cache w) = false ->
  backend (calls w) = Text t ->
  parse_choice (or_empty t) l tt = (inr v, tt) ->
  choose_subtopic theme l w = (inr v, stored (choice_key theme l) v w).
Proof.
  intros Hmiss Hb Hp. unfold choose_subtopic.
  now rewrite (retry_returns _ _ (choose_func_miss_text theme l w Hmiss Hb Hp)).
Qed.

(** The three ways [parse_choice] builds its result from a non-empty
    list. *)
Lemma parse_choice_cases (raw first : str) (others : list str) :
  exists v,
    parse_choice raw (first :: others) tt = (inr v, tt) /\
    (forall c r, decodes raw c r -> v = selection c r) /\
    (~ structured raw ->
     forall m, re_search choice_re raw = Some m ->
       v = selection (VStr (strip (group1 m))) (VStr raw)) /\
    (~ structured raw -> re_search choice_re raw = None ->
     v = selection (VStr first) (VStr raw)).
Proof.
  unfold parse_choice. run_step.
  destruct (decode_selection raw) as [sel|] eqn:Hd.
  - exists sel. split; [reflexivity|]. split; [|split].
    + intros c r H. apply decode_selection_some in H. congruence.
    + intros H. apply decode_selection_none in H. congruence.
    + intros H. apply decode_selection_none in H. congruence.
  - assert (Hn : forall c r, ~ decodes raw c r).
    { intros c r H. apply decode_selection_some in H. congruence. }
    destruct (re_search choice_re raw) as [m|] eqn:Hm.
    + eexists. split; [reflexivity|]. split; [|split].
      * intros c r H. now apply Hn in H.
      * intros _ m' [= <-]. reflexivity.
      * intros _ [=].
    + eexists. split; [reflexivity|]. split; [|split].
      * intros c r H. now apply Hn in H.
      * intros _ m' [=].
      * intros _ _. reflexivity.
Qed.

(** C4.  For a non-empty list of subtopics, on a cache miss and with a
    backend that answers [raw], [choose_subtopic] returns: the [choice]
    and [reason] fields when [raw] decodes as a dictionary that has both;
    otherwise the stripped text after the first [Choice:] marker as
    choice, with [raw] as reason; otherwise the first subtopic as choice,
    with [raw] as reason.  The marker is found wherever [Choice], a colon
    and a value up to the end of the line follow a text without capital
    C. *)
Theorem choose_subtopic_parse_order (theme first : str) (others : list str)
    (w : world) (t : option str) :
  contains (clock w) (choice_key theme (first :: others)) (cache w) = false ->
  backend (calls w) = Text t ->
  let raw := or_empty t in
  exists v,
    choose_subtopic theme (first :: others) w =
    (inr v, stored (choice_key theme (first :: others)) v w) /\
    (forall c r, decodes raw c r -> v = selection c r) /\
    (~ structured raw ->
     forall m, re_search choice_re raw = Some m ->
       v = selection (VStr (strip (group1 m))) (VStr raw)) /\
    (~ structured raw -> re_search choice_re raw = None ->
     v = selection (VStr first) (VStr raw)) /\
    (~ structured raw ->
     forall pre ws1 ws2 c cs post,
       raw = pre ++ lit "Choice" ++ ws1 ++ [58%N] ++ ws2 ++ (c :: cs) ++ post ->
       ~ In 67%N pre ->
       forallb isspace ws1 = true ->
       forallb isspace ws2 = true ->
       isspace c = false ->
       forallb dot (c :: cs) = true ->
       line_end post = true ->
       v = selection (VStr (strip (c :: cs))) (VStr raw)).
Proof.
  intros Hmiss Hb raw.
  destruct (parse_choice_cases raw first others) as (v & Hp & H1 & H2 & H3).
  exists v. split; [|repeat split; trivial].
  - now apply choose_miss_returns with (t := t).
  - intros Hs pre ws1 ws2 c cs post Hraw Hpre Hw1 Hw2 Hc Hdot Hend.
    destruct (search_marker pre ws1 ws2 c cs post Hpre Hw1 Hw2 Hc Hdot Hend)
      as (m & Hm & Hg).
    assert (Hm' : re_search choice_re raw = Some m) by (rewrite Hraw; exact Hm).
    rewrite (H2 Hs m Hm'). now rewrite Hg.
Qed.

(** C5 (amended).  For a non-empty list of subtopics, when the backend
    text neither decodes as a dictionary with both fields nor contains a
    [Choice:] marker, the choice returned is one of the input subtopics
    (the first). *)
Theorem choice_among_subtopics (theme first : str) (others : list str)
    (w : world) (t : option str) :
  contains (clock w) (choice_key theme (first :: others)) (cache w) = false ->
  backend (calls w) = Text t ->
  ~ structured (or_empty t) ->
  re_search choice_re (or_empty t) = None ->
  exists c w',
    choose_subtopic theme (first :: others) w =
    (inr (selection (VStr c) (VStr (or_empty t))), w') /\
    In c (first :: others).
Proof.
  intros Hmiss Hb Hs Hm.
  destruct (parse_choice_cases (or_empty t) first others) as (v & Hp & _ & _ & H3).
  rewrite (H3 Hs Hm) in Hp.
  exists first. eexists. split.
  - now apply choose_miss_returns with (t := t).
  - now left.
Qed.

(** [generate_caption] returns whenever the backend answers. *)
Lemma generate_caption_total (subtopic : value) (len formality : str)
    (w : world) (t : option str) :
  backend (calls w) = Text t ->
  generate_caption subtopic len formality w =
  (inr (caption_of (or_empty t)), answered w).
Proof.
  intros Hb. unfold generate_caption.
  now rewrite (retry_returns _ _ (caption_func_text subtopic len formality w Hb)).
Qed.

Lemma generate_image_prompt_total (subtopic : value) (w : world) (t : option str) :
  backend (calls w) = Text t ->
  generate_image_prompt subtopic w = (inr (or_empty t), answered w).
Proof.
  intros Hb. unfold generate_image_prompt.
  now rewrite (retry_returns _ _ (image_func_text subtopic w Hb)).
Qed.

(** With an empty list of subtopics and a text without structure or
    marker, every attempt of [choose_subtopic] ends in [IndexError]. *)
Lemma choose_subtopic_empty_list (theme : str) (w : world) (t : nat -> option str) :
  contains (clock w) (choice_key theme []) (cache w) = false ->
  (forall n, backend n = Text (t n)) ->
  (forall n, decode_selection (or_empty (t n)) = None) ->
  (forall n, re_search choice_re (or_empty (t n)) = None) ->
  choose_subtopic theme [] w = (inl IndexError, exhausted 2 2 w).
Proof.
  intros Hmiss Hb Hd Hm. unfold choose_subtopic.
  apply (retry_backend_raises (choose_subtopic_func theme []) (fun _ => IndexError)).
  intros w' Hc Ht. apply choose_func_miss_index with (t := t (calls w')).
  - rewrite Hc. now apply contains_later with (now := clock w).
  - apply Hb.
  - unfold parse_choice. run_step. now rewrite Hd, Hm.
Qed.

(** ** Empty backend text *)

Lemma findall_empty : re_findall subtopic_re [] = [].
Proof. reflexivity. Qed.

Lemma search_empty : re_search choice_re [] = None.
Proof. reflexivity. Qed.

Lemma json_loads_empty : json_loads [] = None.
Proof. reflexivity. Qed.

(** What the steps do with an absent or empty text, where they return. *)
Lemma empty_text_results (w : world) (t : option str) :
  backend (calls w) = Text t ->
  or_empty t = [] ->
  (forall subtopic,
     generate_image_prompt subtopic w = (inr [], answered w)) /\
  (forall subtopic len formality,
     generate_caption subtopic len formality w =
     (inr (VDict [(lit "caption", VStr [])]), answered w)) /\
  (forall theme count,
     contains (clock w) (subtopics_key theme count) (cache w) = false ->
     fetch_subtopics theme count w =
     (inr (VList []), stored (subtopics_key theme count) (VList []) w)) /\
  (forall theme first others,
     contains (clock w) (choice_key theme (first :: others)) (cache w) = false ->
     choose_subtopic theme (first :: others) w =
     (inr (selection (VStr first) (VStr [])),
      stored (choice_key theme (first :: others))
        (selection (VStr first) (VStr [])) w)).
Proof.
  intros Hb He. repeat split.
  - intros s. rewrite (generate_image_prompt_total s w Hb). now rewrite He.
  - intros s len f. rewrite (generate_caption_total s len f w Hb).
    now rewrite He.
  - intros theme count Hmiss.
    rewrite (fetch_miss_returns theme count w Hmiss Hb). rewrite He.
    assert (P : parse_subtopics [] count = []).
    { unfold parse_subtopics. rewrite findall_empty. simpl.
      unfold slice_to. destruct (0 <=? count)%Z; apply firstn_nil. }
    now rewrite P.
  - intros theme first others Hmiss.
    apply choose_miss_returns with (t := t); trivial. now rewrite He.
Qed.

(** ** The session state *)

Ltac run_script :=
  cbv beta iota zeta delta
    [script bind ret raise get_session put_session set_theme set_subtopics
     set_chosen set_caption_res set_img_prompt set_history unless present
     lookup item dict_get_default run_in_executor lift sess wld is_empty
     as_strs checkboxes with_defaults no_session
     ss_theme ss_subtopics ss_chosen ss_caption_res ss_img_prompt ss_history
     negb andb fst snd].

Lemma strs_of_strings (l : list str) : strs_of (List.map VStr l) = Some l.
Proof. induction l as [|x l IH]; simpl; trivial. now rewrite IH. Qed.

(** C6 (amended).  A run of the script in which a new theme is entered,
    on a session that already holds subtopics, a selection and a caption
    result, replaces the theme and keeps subtopics, selection, caption
    result and image prompt as they were computed for the previous theme;
    the backend is not invoked.  When the session is one that earlier runs
    leave (distinct subtopics, a selection with both keys, a caption
    result that is a dictionary), the run finishes and passes the new
    theme, with the selection and the caption of the previous theme, to
    the history. *)
Theorem new_theme_keeps_downstream (ui : widgets) (s : session) (w : world)
    (subs chosen res : value) :
  next_button ui = true ->
  strip (theme_input ui) <> [] ->
  caption_button ui = false ->
  image_button ui = false ->
  ss_subtopics s = Some subs ->
  ss_chosen s = Some chosen ->
  ss_caption_res s = Some res ->
  let new := strip (theme_input ui) in
  let after := snd (script ui (App s w)) in
  (ss_theme (sess after) = Some new /\
   ss_subtopics (sess after) = ss_subtopics s /\
   ss_chosen (sess after) = ss_chosen s /\
   ss_caption_res (sess after) = ss_caption_res s /\
   ss_img_prompt (sess after) = ss_img_prompt s /\
   wld after = w) /\
  (forall l choice reason d h,
     subs = VList (List.map VStr l) ->
     has_duplicates l = false ->
     subscript chosen (lit "choice") = Some choice ->
     subscript chosen (lit "reason") = Some reason ->
     res = VDict d ->
     ss_history s = Some h ->
     script ui (App s w) =
     (inr Finished,
      App (Session (Some new) (ss_subtopics s) (ss_chosen s) (ss_caption_res s)
             (ss_img_prompt s)
             (Some (record_history new choice (caption_text d) h))) w)).
Proof.
  intros Hnext Hnew Hcap Himg Hsubs Hchosen Hres new after.
  destruct s as [th so co ro ip ho]. simpl in Hsubs, Hchosen, Hres.
  subst so co ro. subst after new.
  assert (B : forall b : bool, (if b then false else false) = false)
    by (now intros []).
  split.
  - run_script. rewrite Hnext, Hcap, Himg.
    destruct (strip (theme_input ui)) as [|c new] eqn:E; [congruence|].
    destruct ho as [h|]; run_script;
      (destruct subs as [| | | | |l0|]; run_script; try (repeat split; fail);
       destruct (strs_of l0) as [l|]; run_script; try (repeat split; fail);
       destruct (has_duplicates l); run_script; try (repeat split; fail);
       destruct (subscript chosen (lit "choice")) as [choice|]; run_script;
         try (repeat split; fail);
       destruct (subscript chosen (lit "reason")) as [reason|]; run_script;
         try (repeat split; fail);
       destruct res; run_script; rewrite ?B; try (repeat split; fail);
       destruct (dict_get (lit "caption") d); run_script; rewrite ?B;
         repeat split).
  - intros l choice reason d h -> Hdup Hc Hr -> Hh. simpl in Hh. subst ho.
    run_script. rewrite Hnext, Hcap, Himg.
    destruct (strip (theme_input ui)) as [|c new] eqn:E; [congruence|].
    run_script. rewrite strs_of_strings. run_script. rewrite Hdup, Hc, Hr.
    run_script. unfold caption_text.
    destruct (dict_get (lit "caption") d); run_script; rewrite ?B; reflexivity.
Qed.

(** ** Cache expiry *)

(** Once [ttl] has elapsed since a value was stored, the key is absent
    again and the next call invokes the backend. *)
Lemma cache_expiry (theme : str) (count : Z) (w : world) (v : value) (dt : Z) :
  (ttl <= dt)%Z ->
  let k := subtopics_key theme count in
  let w' := elapse dt (stored k v w) in
  contains (clock w') k (cache w') = false /\
  calls w' < calls (snd (fetch_subtopics theme count w')).
Proof.
  intros Hdt k w'.
  assert (Hmiss : contains (clock w') k (cache w') = false).
  { unfold w'. simpl. unfold contains. rewrite find_setitem.
    unfold live. simpl. apply Z.ltb_ge. lia. }
  split; trivial.
  apply retry_miss_calls.
  - apply fetch_func_calls.
  - now apply fetch_func_miss_calls.
Qed.

(** * Further properties *)

(** ** The retry decorator, beyond exhaustion *)

(** A second attempt that returns, after one that raised. *)
Lemma retry_second {A} (func : M world A) (w w1 w2 : world) (e1 : exn) (r : A) :
  func w = (inl e1, w1) ->
  func (snd (sleep 2 w1)) = (inr r, w2) ->
  retry_on_failure func w = (inr r, snd (log_info w2)).
Proof.
  intros H1 H2. unfold retry_on_failure.
  rewrite retry_loop_step, wrapper_run, H1.
  change (stop_after_attempt 3 1) with false. cbv iota. rewrite wait_first.
  now rewrite retry_loop_step, wrapper_run, H2.
Qed.

(** A third attempt that returns, after two that raised. *)
Lemma retry_third {A} (func : M world A) (w w1 w2 w3 : world) (e1 e2 : exn) (r : A) :
  func w = (inl e1, w1) ->
  func (snd (sleep 2 w1)) = (inl e2, w2) ->
  func (snd (sleep 2 w2)) = (inr r, w3) ->
  retry_on_failure func w = (inr r, snd (log_info w3)).
Proof.
  intros H1 H2 H3. unfold retry_on_failure.
  rewrite retry_loop_step, wrapper_run, H1.
  change (stop_after_attempt 3 1) with false. cbv iota. rewrite wait_first.
  rewrite retry_loop_step, wrapper_run, H2.
  change (stop_after_attempt 3 2) with false. cbv iota. rewrite wait_second.
  now rewrite retry_loop_step, wrapper_run, H3.
Qed.

(** X1.  Whatever the decorated function does, a call that returns at
    its first attempt returns that result unchanged, without sleeping,
    and leaves exactly one log record more than the function itself. *)
Theorem retry_transparent_on_success {A} (func : M world A) (w w' : world) (r : A) :
  func w = (inr r, w') ->
  retry_on_failure func w =
  (inr r, World (clock w') (cache w') (calls w') (sleeps w') (S (logged w'))).
Proof. intros H. now rewrite (retry_returns _ _ H). Qed.

(** X2.  A transient failure is hidden from the caller: when the backend
    raises once and then answers, [fetch_subtopics] (on a cache miss)
    sleeps 2 once, invokes the backend twice, returns the items parsed
    from the answer and stores them; when it raises twice and then
    answers, it sleeps 2 and 2 and invokes the backend three times. *)
Theorem fetch_subtopics_recovers (theme : str) (count : Z) (w : world)
    (t : option str) :
  contains (clock w) (subtopics_key theme count) (cache w) = false ->
  let k := subtopics_key theme count in
  let v := VList (List.map VStr (parse_subtopics (or_empty t) count)) in
  (forall e,
     backend (calls w) = Raises e ->
     backend (S (calls w)) = Text t ->
     fetch_subtopics theme count w =
     (inr v,
      World (clock w + 2) (setitem (clock w + 2) k v (cache w))
        (calls w + 2) (sleeps w ++ [2%Z]) (S (logged w)))) /\
  (forall e1 e2,
     backend (calls w) = Raises e1 ->
     backend (S (calls w)) = Raises e2 ->
     backend (S (S (calls w))) = Text t ->
     fetch_subtopics theme count w =
     (inr v,
      World (clock w + 2 + 2) (setitem (clock w + 2 + 2) k v (cache w))
        (calls w + 3) (sleeps w ++ [2; 2]%Z) (S (logged w)))).
Proof.
  intros Hmiss k v.
  assert (L1 : contains (clock w + 2) (subtopics_key theme count) (cache w) = false).
  { apply contains_later with (now := clock w); trivial. lia. }
  assert (L2 : contains (clock w + 2 + 2) (subtopics_key theme count) (cache w)
               = false).
  { apply contains_later with (now := clock w); trivial. lia. }
  split.
  - intros e H1 H2. unfold fetch_subtopics.
    rewrite (retry_second (fetch_subtopics_func theme count) w
               (fetch_func_miss_raise theme count w Hmiss H1)
               (fetch_func_miss_text theme count (snd (sleep 2 (called w))) L1 H2)).
    unfold k, v. simpl. f_equal. f_equal. lia.
  - intros e1 e2 H1 H2 H3. unfold fetch_subtopics.
    rewrite (retry_third (fetch_subtopics_func theme count) w
               (fetch_func_miss_raise theme count w Hmiss H1)
               (fetch_func_miss_raise theme count (snd (sleep 2 (called w))) L1 H2)
               (fetch_func_miss_text theme count
                  (snd (sleep 2 (called (snd (sleep 2 (called w)))))) L2 H3)).
    unfold k, v. simpl. f_equal. f_equal.
    + lia.
    + now rewrite <- app_assoc.
Qed.

Lemma fetch_func_single (theme : str) (count : Z) :
  single_call (fetch_subtopics_func theme count).
Proof.
  intros w.
  destruct (contains (clock w) (subtopics_key theme count) (cache w)) eqn:Hk.
  - destruct (fetch_func_hit theme count w Hk) as (x & _ & ->). simpl. split; [lia|reflexivity].
  - destruct (backend (calls w)) as [t|e] eqn:Hb.
    + rewrite (fetch_func_miss_text theme count w Hk Hb). simpl. split; [lia|reflexivity].
    + rewrite (fetch_func_miss_raise theme count w Hk Hb). simpl. split; [lia|reflexivity].
Qed.

Lemma choose_func_single (theme : str) (l : list str) :
  single_call (choose_subtopic_func theme l).
Proof.
  intros w.
  destruct (contains (clock w) (choice_key theme l) (cache w)) eqn:Hk.
  - destruct (choose_func_hit theme l w Hk) as (x & _ & ->). simpl. split; [lia|reflexivity].
  - destruct (backend (calls w)) as [t|e] eqn:Hb.
    + destruct (parse_choice_pure (or_empty t) l) as ([e|v] & Hp).
      * rewrite (choose_func_miss_index theme l w Hk Hb Hp). simpl. split; [lia|reflexivity].
      * rewrite (choose_func_miss_text theme l w Hk Hb Hp). simpl. split; [lia|reflexivity].
    + rewrite (choose_func_miss_raise theme l w Hk Hb). simpl. split; [lia|reflexivity].
Qed.

Lemma caption_func_single (subtopic : value) (len formality : str) :
  single_call (generate_caption_func subtopic len formality).
Proof.
  intros w. destruct (backend (calls w)) as [t|e] eqn:Hb.
  - rewrite (caption_func_text subtopic len formality w Hb). simpl. split; [lia|reflexivity].
  - rewrite (caption_func_raise subtopic len formality w Hb). simpl. split; [lia|reflexivity].
Qed.

Lemma image_func_single (subtopic : value) :
  single_call (generate_image_prompt_func subtopic).
Proof.
  intros w. destruct (backend (calls w)) as [t|e] eqn:Hb.
  - rewrite (image_func_text subtopic w Hb). simpl. split; [lia|reflexivity].
  - rewrite (image_func_raise subtopic w Hb). simpl. split; [lia|reflexivity].
Qed.

Lemma wrapper_single {A} (func : M world A) :
  single_call func -> single_call (wrapper func).
Proof.
  intros H w. rewrite wrapper_run. specialize (H w).
  destruct (func w) as [[e|r] w']; simpl in *; exact H.
Qed.

(** At most three attempts, hence at most three backend invocations and
    at most two sleeps, of 2 each. *)
Lemma retry_bounded {A} (func : M world A) (w : world) :
  single_call func ->
  calls w <= calls (snd (retry_on_failure func w)) <= calls w + 3 /\
  (sleeps (snd (retry_on_failure func w)) = sleeps w \/
   sleeps (snd (retry_on_failure func w)) = sleeps w ++ [2%Z] \/
   sleeps (snd (retry_on_failure func w)) = sleeps w ++ [2; 2]%Z).
Proof.
  intros Hs. apply wrapper_single in Hs. unfold retry_on_failure.
  rewrite retry_loop_step.
  pose proof (Hs w) as H1.
  destruct (wrapper func w) as [[e1|r1] w1]; simpl in H1;
    [|simpl; split; [lia|now left]].
  change (stop_after_attempt 3 1) with false. cbv iota. rewrite wait_first.
  rewrite retry_loop_step.
  pose proof (Hs (snd (sleep 2 w1))) as H2.
  destruct (wrapper func (snd (sleep 2 w1))) as [[e2|r2] w2]; simpl in H2;
    [|simpl; split; [lia|right; left; destruct H1 as [_ <-]; apply H2]].
  change (stop_after_attempt 3 2) with false. cbv iota. rewrite wait_second.
  rewrite retry_loop_step.
  pose proof (Hs (snd (sleep 2 w2))) as H3.
  assert (S3 : sleeps w ++ [2; 2]%Z = (sleeps w1 ++ [2%Z]) ++ [2%Z]).
  { destruct H1 as [_ ->]. now rewrite <- app_assoc. }
  destruct (wrapper func (snd (sleep 2 w2))) as [[e3|r3] w3]; simpl in H3.
  - change (stop_after_attempt 3 3) with true. cbv iota. simpl.
    split; [lia|]. right; right. rewrite S3.
    destruct H3 as [_ ->]. destruct H2 as [_ ->]. reflexivity.
  - simpl. split; [lia|]. right; right. rewrite S3.
    destruct H3 as [_ ->]. destruct H2 as [_ ->]. reflexivity.
Qed.

(** X3.  Whatever the backend does, one call of any of the four steps
    invokes it at most three times and sleeps at most twice, 2 each
    time. *)
Theorem steps_bounded (w : world) :
  let bounded (w' : world) :=
    calls w <= calls w' <= calls w + 3 /\
    (sleeps w' = sleeps w \/ sleeps w' = sleeps w ++ [2%Z] \/
     sleeps w' = sleeps w ++ [2; 2]%Z) in
  (forall theme count, bounded (snd (fetch_subtopics theme count w))) /\
  (forall theme subtopics, bounded (snd (choose_subtopic theme subtopics w))) /\
  (forall subtopic len formality,
     bounded (snd (generate_caption subtopic len formality w))) /\
  (forall subtopic, bounded (snd (generate_image_prompt subtopic w))).
Proof.
  cbv zeta. repeat split; intros.
  all: try (apply retry_bounded; auto using fetch_func_single,
              choose_func_single, caption_func_single, image_func_single).
Qed.

(** ** The cache, beyond the first step *)

(** X4.  [choose_subtopic] is cached like [fetch_subtopics]: on a cache
    that holds no live entry for [(theme, subtopics)], with a backend that
    answers and a text from which a selection can be built, a second call
    less than [ttl] later invokes the backend no more and returns the
    same selection. *)
Theorem choose_subtopic_idempotent (theme : str) (subtopics : list str)
    (w : world) (t : option str) (v : value) (dt : Z) :
  contains (clock w) (choice_key theme subtopics) (cache w) = false ->
  backend (calls w) = Text t ->
  parse_choice (or_empty t) subtopics tt = (inr v, tt) ->
  (0 <= dt < ttl)%Z ->
  exists w1 w2,
    choose_subtopic theme subtopics w = (inr v, w1) /\
    choose_subtopic theme subtopics (elapse dt w1) = (inr v, w2) /\
    calls w2 = S (calls w).
Proof.
  intros Hmiss Hb Hp Hdt.
  set (k := choice_key theme subtopics).
  assert (Hhit : contains (clock (elapse dt (stored k v w))) k
                   (cache (elapse dt (stored k v w))) = true).
  { simpl. apply contains_setitem. lia. }
  destruct (choose_func_hit theme subtopics _ Hhit) as (e & Hf & Hrun).
  simpl in Hf. fold k in Hf. rewrite find_setitem in Hf. injection Hf as <-.
  eexists (stored k v w), _. split; [|split].
  - now apply choose_miss_returns with (t := t).
  - unfold choose_subtopic. rewrite (retry_returns _ _ Hrun). reflexivity.
  - reflexivity.
Qed.

(** X5.  An entry is used for [ttl] seconds and no longer: when the
    second call with the same [(theme, count)] comes [ttl] or more after
    the first, the backend is invoked again and the items of its new
    answer are returned. *)
Theorem fetch_subtopics_refetches (theme : str) (count : Z) (w : world)
    (t1 t2 : option str) (dt : Z) :
  contains (clock w) (subtopics_key theme count) (cache w) = false ->
  backend (calls w) = Text t1 ->
  backend (S (calls w)) = Text t2 ->
  (ttl <= dt)%Z ->
  exists w1 w2,
    fetch_subtopics theme count w =
    (inr (VList (List.map VStr (parse_subtopics (or_empty t1) count))), w1) /\
    fetch_subtopics theme count (elapse dt w1) =
    (inr (VList (List.map VStr (parse_subtopics (or_empty t2) count))), w2) /\
    calls w2 = S (S (calls w)).
Proof.
  intros Hmiss H1 H2 Hdt.
  set (k := subtopics_key theme count).
  set (v := VList (List.map VStr (parse_subtopics (or_empty t1) count))).
  assert (Hgone : contains (clock (elapse dt (stored k v w))) k
                    (cache (elapse dt (stored k v w))) = false).
  { simpl. unfold contains. rewrite find_setitem.
    unfold live. simpl. apply Z.ltb_ge. lia. }
  eexists (stored k v w), _. split; [|split].
  - now apply fetch_miss_returns.
  - apply fetch_miss_returns; trivial.
  - reflexivity.
Qed.

Lemma caption_wrapper_cache (subtopic : value) (len formality : str) (w : world) :
  cache (snd (wrapper (generate_caption_func subtopic len formality) w)) = cache w.
Proof.
  rewrite wrapper_run. destruct (backend (calls w)) as [t|e] eqn:Hb.
  - now rewrite (caption_func_text subtopic len formality w Hb).
  - now rewrite (caption_func_raise subtopic len formality w Hb).
Qed.

Lemma image_wrapper_cache (subtopic : value) (w : world) :
  cache (snd (wrapper (generate_image_prompt_func subtopic) w)) = cache w.
Proof.
  rewrite wrapper_run. destruct (backend (calls w)) as [t|e] eqn:Hb.
  - now rewrite (image_func_text subtopic w Hb).
  - now rewrite (image_func_raise subtopic w Hb).
Qed.

(** X6.  The last two steps are not cached: whatever the backend does and
    whatever the cache holds, every call of [generate_caption] and of
    [generate_image_prompt] invokes the backend and leaves the cache as
    it was. *)
Theorem uncached_steps (w : world) :
  (forall subtopic len formality,
     cache (snd (generate_caption subtopic len formality w)) = cache w /\
     calls w < calls (snd (generate_caption subtopic len formality w))) /\
  (forall subtopic,
     cache (snd (generate_image_prompt subtopic w)) = cache w /\
     calls w < calls (snd (generate_image_prompt subtopic w))).
Proof.
  split.
  - intros s len f. split.
    + unfold generate_caption, retry_on_failure.
      apply (retry_loop_rel (fun u u' => cache u' = cache u));
        [reflexivity | congruence | reflexivity | apply caption_wrapper_cache].
    + apply retry_miss_calls.
      * intros u. apply (caption_func_single s len f u).
      * destruct (backend (calls w)) as [t|e] eqn:Hb.
        -- now rewrite (caption_func_text s len f w Hb).
        -- now rewrite (caption_func_raise s len f w Hb).
  - intros s. split.
    + unfold generate_image_prompt, retry_on_failure.
      apply (retry_loop_rel (fun u u' => cache u' = cache u));
        [reflexivity | congruence | reflexivity | apply image_wrapper_cache].
    + apply retry_miss_calls.
      * intros u. apply (image_func_single s u).
      * destruct (backend (calls w)) as [t|e] eqn:Hb.
        -- now rewrite (image_func_text s w Hb).
        -- now rewrite (image_func_raise s w Hb).
Qed.

(** *** Capacity *)

Lemma remove_length (k : str) (c : ttlcache) : length (remove k c) <= length c.
Proof. unfold remove. apply filter_length_le. Qed.

Lemma remove_found (k : str) (c : ttlcache) (e : entry) :
  find (has_key k) c = Some e -> length (remove k c) < length c.
Proof.
  unfold remove. induction c as [|x c IH]; simpl; [discriminate|].
  destruct (has_key k x) eqn:Hx; simpl.
  - intros _. pose proof (filter_length_le (fun e0 => negb (has_key k e0)) c). lia.
  - intros H. apply IH in H. lia.
Qed.

Lemma setitem_capacity (now : Z) (k : str) (v : value) (c : ttlcache) :
  length c <= maxsize -> length (setitem now k v c) <= maxsize.
Proof.
  intros Hc. unfold setitem. rewrite length_app. cbn [length].
  pose proof (filter_length_le (live now) c) as Hf. fold (expire now c) in Hf.
  destruct (find (has_key k) (expire now c)) as [e|] eqn:E.
  - apply remove_found in E. lia.
  - pose proof (remove_length k (skipn (length (expire now c) + 1 - maxsize)
                                   (expire now c))) as Hr.
    rewrite length_skipn in Hr. unfold maxsize in *. lia.
Qed.

Lemma moved_capacity (k : str) (c : ttlcache) (e : entry) :
  find (has_key k) c = Some e -> length (remove k c ++ [e]) <= length c.
Proof.
  intros H. apply remove_found in H. rewrite length_app. cbn [length]. lia.
Qed.

Lemma fetch_func_capacity (theme : str) (count : Z) (w : world) :
  length (cache w) <= maxsize ->
  length (cache (snd (fetch_subtopics_func theme count w))) <= maxsize /\
  forall r : value, fst (fetch_subtopics_func theme count w) = inr r -> True.
Proof.
  intros Hc. split; trivial.
  destruct (contains (clock w) (subtopics_key theme count) (cache w)) eqn:Hk.
  - destruct (fetch_func_hit theme count w Hk) as (e & Hf & ->). simpl.
    apply moved_capacity in Hf. lia.
  - destruct (backend (calls w)) as [t|e] eqn:Hb.
    + rewrite (fetch_func_miss_text theme count w Hk Hb). simpl.
      now apply setitem_capacity.
    + now rewrite (fetch_func_miss_raise theme count w Hk Hb).
Qed.

Lemma choose_func_capacity (theme : str) (l : list str) (w : world) :
  length (cache w) <= maxsize ->
  length (cache (snd (choose_subtopic_func theme l w))) <= maxsize /\
  forall r : value, fst (choose_subtopic_func theme l w) = inr r -> True.
Proof.
  intros Hc. split; trivial.
  destruct (contains (clock w) (choice_key theme l) (cache w)) eqn:Hk.
  - destruct (choose_func_hit theme l w Hk) as (e & Hf & ->). simpl.
    apply moved_capacity in Hf. lia.
  - destruct (backend (calls w)) as [t|e] eqn:Hb.
    + destruct (parse_choice_pure (or_empty t) l) as ([e|v] & Hp).
      * now rewrite (choose_func_miss_index theme l w Hk Hb Hp).
      * rewrite (choose_func_miss_text theme l w Hk Hb Hp). simpl.
        now apply setitem_capacity.
    + now rewrite (choose_func_miss_raise theme l w Hk Hb).
Qed.

(** X7.  The cache never grows beyond its [maxsize] of 100 entries:
    whatever the backend does, the two caching steps leave at most 100
    entries in a cache that held at most 100. *)
Theorem cache_capacity (w : world) :
  length (cache w) <= maxsize ->
  (forall theme count,
     length (cache (snd (fetch_subtopics theme count w))) <= maxsize) /\
  (forall theme subtopics,
     length (cache (snd (choose_subtopic theme subtopics w))) <= maxsize).
Proof.
  intros Hc. split.
  - intros theme count. unfold fetch_subtopics, retry_on_failure.
    apply (retry_loop_inv (fun u => length (cache u) <= maxsize) (fun _ => True));
      trivial.
    apply (wrapper_inv (fun u => length (cache u) <= maxsize) (fun _ => True));
      trivial.
    apply fetch_func_capacity.
  - intros theme l. unfold choose_subtopic, retry_on_failure.
    apply (retry_loop_inv (fun u => length (cache u) <= maxsize) (fun _ => True));
      trivial.
    apply (wrapper_inv (fun u => length (cache u) <= maxsize) (fun _ => True));
      trivial.
    apply choose_func_capacity.
Qed.

(** X8.  When the cache is full of live entries, storing under a new key
    evicts the least recently used entry and only that one. *)
Theorem setitem_evicts_oldest (now : Z) (k : str) (v : value)
    (oldest : entry) (others : ttlcache) :
  length (oldest :: others) = maxsize ->
  forallb (live now) (oldest :: others) = true ->
  find (has_key k) (oldest :: others) = None ->
  setitem now k v (oldest :: others) = others ++ [Entry k v (now + ttl)].
Proof.
  intros Hfull Hlive Hnew. unfold setitem, expire.
  rewrite (forallb_filter_id _ _ Hlive). rewrite Hnew.
  replace (length (oldest :: others) + 1 - maxsize) with 1 by lia.
  cbn [skipn]. f_equal.
  unfold remove. apply forallb_filter_id.
  simpl in Hnew. destruct (has_key k oldest); [discriminate|].
  apply forallb_forall. intros e He.
  apply (find_none _ _ Hnew) in He. now rewrite He.
Qed.

(** ** What the items look like *)

Lemma star_sound (p : char -> bool) (s : str) (pr : option char)
    (k : option char -> str -> option mstate) (r : mstate) :
  star p pr s k = Some r ->
  exists u v, s = u ++ v /\ forallb p u = true /\ k (prev_after pr u) v = Some r.
Proof.
  revert pr. induction s as [|c s IH]; intros pr H; simpl in H.
  - exists [], []. now repeat split.
  - destruct (p c) eqn:Hc.
    + destruct (star p (Some c) s k) as [r'|] eqn:E.
      * injection H as <-. destruct (IH _ E) as (u & v & -> & Hu & Hk).
        exists (c :: u), v. simpl. rewrite Hc. now repeat split.
      * exists [], (c :: s). now repeat split.
    + exists [], (c :: s). now repeat split.
Qed.

Lemma plus_sound (p : char -> bool) (st : mstate) (k : mstate -> option mstate)
    (r : mstate) :
  run (Plus p) st k = Some r ->
  exists c u v pr',
    rest st = (c :: u) ++ v /\ forallb p (c :: u) = true /\
    k (MState pr' v (grp st)) = Some r.
Proof.
  cbn [run Plus]. destruct (rest st) as [|c s] eqn:E; [discriminate|].
  destruct (p c) eqn:Hc; [|discriminate].
  cbn [prev rest grp]. intros H. apply star_sound in H.
  destruct H as (u & v & -> & Hu & Hk).
  exists c, u, v, (prev_after (Some c) u). simpl. rewrite Hc. now repeat split.
Qed.

Lemma chr_sound (p : char -> bool) (st : mstate) (k : mstate -> option mstate)
    (r : mstate) :
  run (Chr p) st k = Some r -> exists st', grp st' = grp st /\ k st' = Some r.
Proof.
  cbn [run]. destruct (rest st) as [|c s]; [discriminate|].
  destruct (p c); [|discriminate]. intros H. eexists. split; [|exact H]. reflexivity.
Qed.

Lemma run_alt (r1 r2 : regex) (st : mstate) (k : mstate -> option mstate) :
  run (Alt r1 r2) st k =
  match run r1 st k with
  | Some st' => Some st'
  | None => run r2 st k
  end.
Proof. reflexivity. Qed.

Lemma run_star (p : char -> bool) (st : mstate) (k : mstate -> option mstate) :
  run (Star p) st k =
  star p (prev st) (rest st) (fun pr s => k (MState pr s (grp st))).
Proof. reflexivity. Qed.

Lemma run_group (r : regex) (st : mstate) (k : mstate -> option mstate) :
  run (Group r) st k =
  run r st (fun st' =>
    k (MState (prev st') (rest st')
         (Some (firstn (length (rest st) - length (rest st')) (rest st))))).
Proof. reflexivity. Qed.

Lemma run_eol (st r : mstate) : run Eol st Some = Some r -> r = st.
Proof.
  cbn [run]. destruct (rest st) as [|x v]; [now intros [= <-]|].
  destruct (x =? 10)%N; [now intros [= <-]|discriminate].
Qed.

(** Whatever the list pattern matches, its group holds at least one
    character and no line feed. *)
Lemma match_group (pr : option char) (s : str) (st : mstate) :
  match_at subtopic_re pr s = Some st ->
  exists c u, grp st = Some (c :: u) /\ forallb dot (c :: u) = true.
Proof.
  unfold match_at, subtopic_re. intros H.
  assert (H1 : run (Seq (Star isspace)
                     (Seq (Alt (Seq (Plus isdecimal) (Chr (one_of (lit ".)"))))
                               (Chr (one_of [45%N; bullet])))
                          (Seq (Star isspace) (Seq (Group (Plus dot)) Eol))))
                 (MState pr s None) Some = Some st).
  { rewrite run_seq in H. cbn [run prev] in H. destruct pr as [c|]; [|exact H].
    destruct (c =? 10)%N; [exact H|discriminate]. }
  clear H. rewrite run_seq, run_star in H1.
  apply star_sound in H1. destruct H1 as (u1 & v1 & _ & _ & H).
  rewrite run_seq, run_alt in H.
  assert (H2 : exists st1,
             run (Seq (Star isspace) (Seq (Group (Plus dot)) Eol)) st1 Some = Some st).
  { match type of H with
    | match ?a with Some _ => _ | None => _ end = _ =>
        destruct a as [r|] eqn:Ea; [injection H as ->|]
    end.
    - rewrite run_seq in Ea. apply plus_sound in Ea.
      destruct Ea as (c & u & v & pr' & _ & _ & Hk).
      apply chr_sound in Hk. destruct Hk as (st' & _ & Hk). now exists st'.
    - apply chr_sound in H. destruct H as (st' & _ & Hk). now exists st'. }
  clear H. destruct H2 as (st1 & H).
  rewrite run_seq, run_star in H.
  apply star_sound in H. destruct H as (u2 & v2 & _ & _ & H).
  rewrite run_seq, run_group in H.
  apply plus_sound in H. destruct H as (c & u & v & pr' & E & Hd & Hk).
  cbn [rest prev grp] in E, Hk. subst v2.
  assert (G : firstn (length ((c :: u) ++ v) - length v) ((c :: u) ++ v) = c :: u).
  { rewrite length_app.
    replace (length (c :: u) + length v - length v) with (length (c :: u)) by lia.
    rewrite firstn_app, firstn_all, Nat.sub_diag. cbn [firstn].
    apply List.app_nil_r. }
  rewrite G in Hk. apply run_eol in Hk. subst st.
  exists c, u. now split.
Qed.

Lemma findall_forall (P : str -> Prop) (r : regex) :
  (forall pr s st, match_at r pr s = Some st -> P (group1 st)) ->
  forall s pr skip, Forall P (findall_from r pr s skip).
Proof.
  intros H. induction s as [|c s IH]; intros pr [|n]; simpl.
  - destruct (match_at r pr []) as [st|] eqn:E; constructor; trivial.
    now apply (H pr []).
  - constructor.
  - destruct (match_at r pr (c :: s)) as [st|] eqn:E; [|apply IH].
    constructor; [now apply (H pr (c :: s))|apply IH].
  - apply IH.
Qed.

(** *** The fallback *)

Lemma forallb_reversed (p : char -> bool) (l : str) :
  forallb p l = true -> forallb p (rev l) = true.
Proof.
  rewrite !forallb_forall. intros H c Hc. apply H. now apply in_rev.
Qed.

Lemma splitlines_go_lines (s cur : str) (b : bool) (line : str) :
  forallb (fun c => negb (islinebreak c)) cur = true ->
  In line (splitlines_go b cur s) ->
  forallb (fun c => negb (islinebreak c)) line = true.
Proof.
  revert cur b. induction s as [|c s IH]; intros cur b Hcur Hin; simpl in Hin.
  - destruct cur as [|x cur]; [contradiction|].
    destruct Hin as [<-|[]]. now apply forallb_reversed.
  - destruct (b && (c =? 10)%N).
    + now apply (IH cur false).
    + destruct (islinebreak c) eqn:Hc.
      * destruct Hin as [<-|Hin].
        -- now apply forallb_reversed.
        -- now apply (IH [] (c =? 13)%N).
      * apply (IH (c :: cur) false); trivial. simpl. now rewrite Hc.
Qed.

Lemma lstrip_incl (s : str) (c : char) : In c (lstrip s) -> In c s.
Proof.
  induction s as [|x s IH]; simpl; trivial.
  destruct (isspace x); [right; now apply IH|trivial].
Qed.

Lemma strip_incl (s : str) (c : char) : In c (strip s) -> In c s.
Proof.
  unfold strip, rstrip. intros H. apply in_rev in H.
  apply lstrip_incl in H. apply in_rev in H. now apply lstrip_incl in H.
Qed.

Lemma lstrip_visible (s : str) : visible_head s = true -> lstrip s = s.
Proof.
  destruct s as [|c s]; simpl; trivial. intros H. apply negb_true_iff in H.
  now rewrite H.
Qed.

Lemma lstrip_keeps_last (u : str) (a : char) :
  isspace a = false -> exists p, lstrip (u ++ [a]) = p ++ [a].
Proof.
  intros Ha. induction u as [|c u (p & IH)]; simpl.
  - rewrite Ha. now exists [].
  - destruct (isspace c); [now exists p|]. now exists (c :: u).
Qed.

(** Stripping twice is stripping once. *)
Lemma strip_strip (s : str) : strip (strip s) = strip s.
Proof.
  destruct (lstrip_split s) as (w & _ & _ & Hv).
  assert (Hhead : visible_head (strip s) = true).
  { unfold strip, rstrip. destruct (lstrip s) as [|a l]; [reflexivity|].
    simpl in Hv. apply negb_true_iff in Hv. simpl rev.
    destruct (lstrip_keeps_last (rev l) a Hv) as (p & ->).
    rewrite rev_app_distr. simpl. now rewrite Hv. }
  unfold strip at 1. rewrite (lstrip_visible _ Hhead).
  unfold strip, rstrip. rewrite rev_involutive.
  destruct (lstrip_split (rev (lstrip s))) as (w' & _ & _ & Hv').
  now rewrite (lstrip_visible _ Hv').
Qed.

Lemma in_firstn {A} (n : nat) (l : list A) (x : A) :
  In x (firstn n l) -> In x l.
Proof.
  intros H. rewrite <- (firstn_skipn n l). apply in_or_app. now left.
Qed.

(** X9.  No item of [fetch_subtopics] is empty or holds a line feed.
    The items of the fallback moreover are longer than 5 characters, hold
    no line break of any kind and are stripped. *)
Theorem items_are_lines (text : str) (count : Z) (item : str) :
  In item (parse_subtopics text count) ->
  item <> [] /\ ~ In 10%N item /\
  (re_findall subtopic_re text = [] ->
   5 < length item /\
   forallb (fun c => negb (islinebreak c)) item = true /\
   strip item = item).
Proof.
  unfold parse_subtopics. intros Hin.
  assert (Hin' : In item
            (if is_empty (re_findall subtopic_re text)
             then List.map strip
                    (filter (fun line => Nat.ltb 5 (length (strip line)))
                       (splitlines text))
             else re_findall subtopic_re text)).
  { revert Hin. unfold slice_to.
    destruct (0 <=? count)%Z; apply in_firstn. }
  clear Hin.
  assert (Fallback : In item (List.map strip
                        (filter (fun line => Nat.ltb 5 (length (strip line)))
                           (splitlines text))) ->
            5 < length item /\
            forallb (fun c => negb (islinebreak c)) item = true /\
            strip item = item).
  { intros H. apply in_map_iff in H. destruct H as (line & <- & Hl).
    apply filter_In in Hl. destruct Hl as [Hl Hlen].
    apply Nat.ltb_lt in Hlen. split; [exact Hlen|]. split; [|apply strip_strip].
    apply forallb_forall. intros c Hc. apply strip_incl in Hc.
    pose proof (splitlines_go_lines text [] false line eq_refl Hl) as Hb.
    rewrite forallb_forall in Hb. now apply Hb. }
  destruct (re_findall subtopic_re text) as [|m ms] eqn:E; cbn [is_empty] in Hin'.
  - destruct (Fallback Hin') as (Hlen & Hb & Hs). repeat split; trivial.
    + intros ->. simpl in Hlen. lia.
    + intros H10. rewrite forallb_forall in Hb. apply Hb in H10. discriminate.
  - assert (F : Forall (fun g => exists c u, g = c :: u /\ forallb dot (c :: u) = true)
                  (re_findall subtopic_re text)).
    { apply findall_forall. intros pr s st Hm.
      destruct (match_group pr s Hm) as (c & u & Hg & Hd).
      exists c, u. unfold group1. now rewrite Hg. }
    rewrite E in F. rewrite Forall_forall in F.
    destruct (F item Hin') as (c & u & -> & Hd).
    split; [discriminate|]. split; [|discriminate].
    intros H10. rewrite forallb_forall in Hd. apply Hd in H10. discriminate.
Qed.

(** ** The result of the selection *)

Lemma parse_choice_shape (raw : str) (l : list str) (v : value) :
  parse_choice raw l tt = (inr v, tt) -> exists c r, v = selection c r.
Proof.
  unfold parse_choice. run_step.
  destruct (decode_selection raw) as [sel|] eqn:Hd.
  - intros [= <-]. unfold decode_selection in Hd.
    destruct (json_loads raw) as [doc|]; [|discriminate].
    destruct (subscript doc (lit "choice")) as [c|]; [|discriminate].
    destruct (subscript doc (lit "reason")) as [r|]; [|discriminate].
    injection Hd as <-. now exists c, r.
  - destruct (re_search choice_re raw) as [m|].
    + intros [= <-]. eexists _, _. reflexivity.
    + destruct l as [|x l]; [discriminate|].
      intros [= <-]. eexists _, _. reflexivity.
Qed.

Lemma choose_func_shape (theme : str) (l : list str) (w : world) :
  cache_ok (cache w) ->
  cache_ok (cache (snd (choose_subtopic_func theme l w))) /\
  forall v, fst (choose_subtopic_func theme l w) = inr v ->
    exists c r, v = selection c r.
Proof.
  intros Hc. split; [now apply choose_func_inv|].
  destruct (contains (clock w) (choice_key theme l) (cache w)) eqn:Hk.
  - destruct (choose_func_hit theme l w Hk) as (e & Hf & ->). simpl.
    intros v [= <-]. apply find_key in Hf. destruct Hf as [Hin Hkey].
    unfold cache_ok in Hc. rewrite Forall_forall in Hc.
    destruct (Hc e Hin) as [(t & n & text & Hk' & _) | (t & l' & raw & _ & Hp)].
    + rewrite Hkey in Hk'. symmetry in Hk'.
      now apply subtopics_key_not_choice in Hk'.
    + now apply parse_choice_shape in Hp.
  - destruct (backend (calls w)) as [t|e] eqn:Hb.
    + destruct (parse_choice_pure (or_empty t) l) as ([e|v'] & Hp).
      * rewrite (choose_func_miss_index theme l w Hk Hb Hp). intros v. discriminate.
      * rewrite (choose_func_miss_text theme l w Hk Hb Hp). simpl.
        intros v [= <-]. now apply parse_choice_shape in Hp.
    + rewrite (choose_func_miss_raise theme l w Hk Hb). intros v. discriminate.
Qed.

(** X10.  Whatever [choose_subtopic] returns, from the backend or from a
    well-formed cache, at the first attempt or after a retry, is a
    dictionary with exactly the keys [choice] and [reason], so that
    reading either key from it never fails. *)
Theorem choose_subtopic_returns_selection (theme : str) (subtopics : list str)
    (w w' : world) (v : value) :
  cache_ok (cache w) ->
  choose_subtopic theme subtopics w = (inr v, w') ->
  exists c r,
    v = selection c r /\
    subscript v (lit "choice") = Some c /\
    subscript v (lit "reason") = Some r.
Proof.
  intros Hc Hrun.
  destruct (retry_inv _ (choose_subtopic_func theme subtopics)
              (choose_func_shape theme subtopics) w Hc) as [_ Hq].
  fold (choose_subtopic theme subtopics) in Hq. rewrite Hrun in Hq.
  destruct (Hq v eq_refl) as (c & r & ->). exists c, r. now repeat split.
Qed.

(** ** Runs of the script *)

(** X11.  Without a theme the script stops at once: when the session
    holds no theme and none is submitted (the button is not pressed, or
    the text is empty or white space), the run ends before any step, the
    backend is not invoked, and the session only gains the empty history
    and the empty caption result of the initial state. *)
Theorem script_waits_for_theme (ui : widgets) (s : session) (w : world) :
  ss_theme s = None ->
  next_button ui = false \/ strip (theme_input ui) = [] ->
  script ui (App s w) = (inr Stopped, App (with_defaults s) w).
Proof.
  intros Hth Hui. destruct s as [th so co ro ip ho]. simpl in Hth. subst th.
  run_script.
  destruct Hui as [Hn|He].
  - rewrite Hn. destruct ho, ro; reflexivity.
  - rewrite He. destruct ho, ro; destruct (next_button ui); reflexivity.
Qed.


Lemma find_absent (k : str) (c : ttlcache) :
  find (has_key k) c = None <-> forall e, In e c -> has_key k e = false.
Proof.
  split.
  - apply find_none.
  - intros H. induction c as [|x c IH]; simpl; trivial.
    rewrite (H x (or_introl eq_refl)). apply IH. intros e He. apply H. now right.
Qed.


Lemma record_history_known (theme : str) (choice caption : value)
    (h : list post) :
  truthy caption = false \/
  existsb (same_post (Post theme choice caption)) h = true ->
  record_history theme choice caption h = h.
Proof.
  unfold record_history. intros [H|H].
  - now rewrite H.
  - rewrite H. now destruct (truthy caption).
Qed.

(** X12.  A run in which nothing is asked invokes no backend and changes
    nothing but the history: when the session holds a theme, distinct
    subtopics, a selection and a caption result that is a dictionary, and
    neither the theme button nor the caption button is pressed, nor the
    image button while no image prompt is held, the script finishes,
    leaves theme, subtopics, selection, caption result, image prompt and
    cache as they were, and passes the held caption to the history.
    Nothing at all changes when the held caption counts as false or the
    history already has an entry with the theme and the selection. *)
Theorem script_rerun_is_silent (ui : widgets) (w : world) (theme : str)
    (l : list str) (chosen c r : value) (d : list (str * value))
    (ip : option str) (h : list post) :
  next_button ui = false ->
  caption_button ui = false ->
  (ip = None -> image_button ui = false) ->
  has_duplicates l = false ->
  subscript chosen (lit "choice") = Some c ->
  subscript chosen (lit "reason") = Some r ->
  let held hist :=
    Session (Some theme) (Some (VList (List.map VStr l))) (Some chosen)
      (Some (VDict d)) ip (Some hist) in
  script ui (App (held h) w) =
  (inr Finished,
   App (held (record_history theme c (caption_text d) h)) w) /\
  (truthy (caption_text d) = false \/
   existsb (same_post (Post theme c (caption_text d))) h = true ->
   script ui (App (held h) w) = (inr Finished, App (held h) w)).
Proof.
  intros Hn Hc Hi Hdup Hch Hre held.
  assert (Hrun : script ui (App (held h) w) =
                 (inr Finished,
                  App (held (record_history theme c (caption_text d) h)) w)).
  { unfold held. run_script. rewrite Hn, Hc. rewrite strs_of_strings.
    run_script. rewrite Hdup, Hch, Hre. run_script. unfold caption_text.
    destruct (dict_get (lit "caption") d); run_script;
      (destruct ip; [reflexivity|]; now rewrite (Hi eq_refl)). }
  split; [exact Hrun|].
  intros Hknown. rewrite Hrun. now rewrite record_history_known.
Qed.


(** X14.  A caption answer that is valid JSON but not an object breaks
    the script and keeps breaking it: [generate_caption] returns the
    decoded value as it is, the script stores it and raises
    [AttributeError] when it reads the caption from it, and so does every
    later run in which neither the theme button nor the caption button is
    pressed.  The history is not touched. *)
Theorem non_object_caption_breaks_script (ui : widgets) (w : world) (theme : str)
    (l : list str) (chosen c r res : value) (ip : option str)
    (h : list post) (t : option str) (doc : value) :
  has_duplicates l = false ->
  subscript chosen (lit "choice") = Some c ->
  subscript chosen (lit "reason") = Some r ->
  next_button ui = false ->
  caption_button ui = true ->
  backend (calls w) = Text t ->
  json_loads (or_empty t) = Some doc ->
  (forall d, doc <> VDict d) ->
  let held result :=
    Session (Some theme) (Some (VList (List.map VStr l))) (Some chosen)
      (Some result) ip (Some h) in
  script ui (App (held res) w) =
  (inl AttributeError, App (held doc) (answered w)) /\
  forall ui' w',
    next_button ui' = false ->
    caption_button ui' = false ->
    script ui' (App (held doc) w') = (inl AttributeError, App (held doc) w').
Proof.
  intros Hdup Hch Hre Hn Hc Hb Hj Hdoc held. unfold held. split.
  - run_script. rewrite Hn, Hc. rewrite strs_of_strings. run_script.
    rewrite Hdup, Hch, Hre. run_script.
    rewrite (generate_caption_total c (length_radio ui) (formality_radio ui) w Hb).
    unfold caption_of. rewrite Hj. run_script.
    destruct doc; try reflexivity. now destruct (Hdoc d).
  - intros ui' w' Hn' Hc'. run_script. rewrite Hn', Hc'.
    rewrite strs_of_strings. run_script. rewrite Hdup, Hch, Hre. run_script.
    destruct doc; try reflexivity. now destruct (Hdoc d).
Qed.


(** ** The downloaded image prompt *)

Lemma scanstring_plain (c : char) (acc s : str) :
  N.eqb c 34 = false -> N.eqb c 92 = false -> N.leb c 31 = false ->
  scanstring acc (c :: s) = scanstring (c :: acc) s.
Proof. intros H1 H2 H3. cbn [scanstring]. now rewrite H1, H2, H3. Qed.

Lemma scanstring_simple (e x : char) (acc s : str) :
  N.eqb e 117 = false -> unescape e = Some x ->
  scanstring acc (92%N :: e :: s) = scanstring (x :: acc) s.
Proof. intros H1 H2. cbn [scanstring]. simpl N.eqb. now rewrite H1, H2. Qed.

Lemma scanstring_hex (a b c d u : char) (acc s : str) :
  hex4 a b c d = Some u -> in_range 55296 56319 u = false ->
  scanstring acc (92%N :: 117%N :: a :: b :: c :: d :: s) = scanstring (u :: acc) s.
Proof.
  intros H1 H2. cbn [scanstring]. simpl N.eqb. cbv iota. rewrite H1.
  destruct s as [|? [|? [|? [|? [|? [|? ?]]]]]]; trivial.
  now rewrite H2.
Qed.

Lemma control_hex (c : char) :
  N.leb c 31 = true ->
  hex4 48 48 (hexdigit (c / 16)) (hexdigit (c mod 16)) = Some c /\
  in_range 55296 56319 c = false.
Proof.
  intros H. apply N.leb_le in H.
  assert (Hall : forallb
            (fun n => match hex4 48 48 (hexdigit (n / 16)) (hexdigit (n mod 16)) with
                      | Some m => N.eqb m n
                      | None => false
                      end && negb (in_range 55296 56319 n))
            (List.map N.of_nat (seq 0 32)) = true) by (vm_compute; reflexivity).
  rewrite forallb_forall in Hall.
  specialize (Hall c). rewrite in_map_iff in Hall.
  assert (Hin : exists n, N.of_nat n = c /\ In n (seq 0 32)).
  { exists (N.to_nat c). split; [apply N2Nat.id|]. apply in_seq. lia. }
  specialize (Hall Hin). apply andb_true_iff in Hall. destruct Hall as [H1 H2].
  destruct (hex4 48 48 (hexdigit (c / 16)) (hexdigit (c mod 16))) as [m|];
    [|discriminate].
  apply N.eqb_eq in H1. subst m. split; trivial.
  now destruct (in_range 55296 56319 c).
Qed.

(** The decoder reads back each character the encoder writes. *)
Lemma scanstring_escape_char (c : char) (acc s : str) :
  scanstring acc (escape_char c ++ s) = scanstring (c :: acc) s.
Proof.
  unfold escape_char.
  destruct (N.eqb c 34) eqn:E1.
  { apply N.eqb_eq in E1. subst c. now apply scanstring_simple. }
  destruct (N.eqb c 92) eqn:E2.
  { apply N.eqb_eq in E2. subst c. now apply scanstring_simple. }
  destruct (N.eqb c 10) eqn:E3.
  { apply N.eqb_eq in E3. subst c. now apply scanstring_simple. }
  destruct (N.eqb c 13) eqn:E4.
  { apply N.eqb_eq in E4. subst c. now apply scanstring_simple. }
  destruct (N.eqb c 9) eqn:E5.
  { apply N.eqb_eq in E5. subst c. now apply scanstring_simple. }
  destruct (N.eqb c 12) eqn:E6.
  { apply N.eqb_eq in E6. subst c. now apply scanstring_simple. }
  destruct (N.eqb c 8) eqn:E7.
  { apply N.eqb_eq in E7. subst c. now apply scanstring_simple. }
  destruct (N.leb c 31) eqn:E8.
  - destruct (control_hex c E8) as [H1 H2]. now apply scanstring_hex.
  - now apply scanstring_plain.
Qed.

Lemma scanstring_encoded (p acc post : str) :
  scanstring acc (flat_map escape_char p ++ 34%N :: post) =
  Some (rev acc ++ p, post).
Proof.
  revert acc. induction p as [|c p IH]; intros acc.
  - simpl. now rewrite List.app_nil_r.
  - cbn [flat_map]. rewrite <- app_assoc, scanstring_escape_char, IH.
    simpl. now rewrite <- app_assoc.
Qed.

(** X16.  The image prompt offered for download decodes to the prompt:
    for every prompt, with any quotes, backslashes, line breaks or
    control characters in it, [json.loads] accepts the text that line 215
    produces and returns the object whose only member is the prompt,
    unchanged. *)
Theorem downloaded_prompt_decodes (prompt : str) :
  json_loads (dumps_prompt prompt) = Some (VDict [(lit "prompt", VStr prompt)]).
Proof.
  assert (Hscan : forall fuel,
            scan (S (S (S fuel))) JValue (dumps_prompt prompt) =
            Some (VDict [(lit "prompt", VStr prompt)], [])).
  { intros fuel. unfold dumps_prompt, encode_basestring.
    cbn. rewrite <- app_assoc. simpl List.app.
    rewrite (scanstring_encoded prompt []). reflexivity. }
  unfold json_loads.
  destruct (2 * length (dumps_prompt prompt) + 2) as [|[|[|fuel]]] eqn:E;
    try (unfold dumps_prompt in E; simpl in E; lia).
  change (skip_ws (dumps_prompt prompt)) with (dumps_prompt prompt).
  rewrite Hscan. reflexivity.
Qed.

(** ** The history *)

Lemma no_repeat_record (theme : str) (choice caption : value)
    (history : list post) :
  no_repeat history -> no_repeat (record_history theme choice caption history).
Proof.
  intros Hinv. unfold record_history.
  destruct (truthy caption) eqn:Ht; trivial.
  destruct (existsb _ history) eqn:Hex; trivial.
  intros before entry after E.
  destruct (exists_last (l := entry :: after)) as (mid & z & Hz); [discriminate|].
  rewrite Hz, app_assoc in E. apply app_inj_tail in E. destruct E as [E1 E2].
  destruct mid as [|m mid].
  - simpl in Hz. injection Hz as <- _. rewrite List.app_nil_r in E1. subst.
    split; [exact Ht|]. intros h Hh.
    destruct (same_post _ h) eqn:Hs; trivial.
    assert (existsb (same_post (Post theme choice caption)) before = true)
      by (apply existsb_exists; eauto).
    congruence.
  - simpl in Hz. injection Hz as -> _. apply (Hinv before m mid E1).
Qed.

Lemma same_post_key (theme c : str) (caption : value) (p : post) :
  same_post (Post theme (VStr c) caption) p = true <->
  post_key p = (theme, VStr c).
Proof.
  unfold same_post, post_key. cbn [tema subtema]. destruct p as [t x cap].
  cbn [tema subtema]. split.
  - intros H. apply andb_true_iff in H. destruct H as [H1 H2].
    apply str_eqb_eq in H1. subst t.
    destruct x; try discriminate. simpl in H2. apply str_eqb_eq in H2.
    now subst.
  - intros H. injection H as -> ->. simpl. now rewrite !str_eqb_refl.
Qed.

Lemma existsb_same_post (theme c : str) (caption : value) (h : list post) :
  existsb (same_post (Post theme (VStr c) caption)) h = true <->
  In (theme, VStr c) (List.map post_key h).
Proof.
  rewrite existsb_exists, in_map_iff. split.
  - intros (p & Hp & Hs). exists p. split; trivial. now apply same_post_key in Hs.
  - intros (p & Hk & Hp). exists p. split; trivial.
    now apply (same_post_key theme c caption).
Qed.

Lemma history_fold (runs : list (str * value * value)) :
  string_choices runs ->
  forall h0,
    let after :=
      fold_left (fun h r => record_history (fst (fst r)) (snd (fst r)) (snd r) h)
        runs h0 in
    (NoDup (List.map post_key h0) -> NoDup (List.map post_key after)) /\
    (forall p, In p after ->
       In p h0 \/
       (In (tema p, subtema p, legenda p) runs /\ truthy (legenda p) = true)) /\
    (forall p, In p h0 -> In p after) /\
    (forall theme c caption,
       In (theme, VStr c, caption) runs -> truthy caption = true ->
       exists first, In (Post theme (VStr c) first) after).
Proof.
  induction 1 as [|[[t x] cap] runs [c Hc] Hruns IH]; intros h0; cbn zeta.
  - simpl. repeat split; auto. intros theme c caption [].
  - simpl in Hc. subst x. cbn [fold_left fst snd].
    set (h1 := record_history t (VStr c) cap h0).
    destruct (IH h1) as (A & B & C & D).
    assert (Hin : forall p, In p h0 -> In p h1).
    { intros p Hp. unfold h1, record_history.
      destruct (truthy cap); trivial.
      destruct (existsb _ h0); trivial. apply in_or_app. now left. }
    assert (Hnew : forall p, In p h1 ->
              In p h0 \/ (p = Post t (VStr c) cap /\ truthy cap = true)).
    { intros p Hp. unfold h1, record_history in Hp.
      destruct (truthy cap) eqn:Ht; [|now left].
      destruct (existsb _ h0); [now left|].
      apply in_app_or in Hp. destruct Hp as [Hp|[<-|[]]]; [now left|now right]. }
    repeat split.
    + intros Hnd. apply A. unfold h1, record_history.
      destruct (truthy cap); trivial.
      destruct (existsb _ h0) eqn:Hex; trivial.
      rewrite map_app. cbn [List.map]. apply NoDup_app.
      * exact Hnd.
      * constructor; [intros []|constructor].
      * intros k Hk [<-|[]]. unfold post_key at 1 in Hk. cbn [tema subtema] in Hk.
        apply (existsb_same_post t c cap) in Hk. congruence.
    + intros p Hp. destruct (B p Hp) as [Hp1|[Hp1 Hp2]].
      * destruct (Hnew p Hp1) as [Hp0|[-> Ht]]; [now left|].
        right. split; trivial. now left.
      * right. split; trivial. now right.
    + intros p Hp. apply C. now apply Hin.
    + intros theme c' caption [E|Hr] Ht.
      * injection E as <- <- <-.
        assert (Hhas : exists first, In (Post t (VStr c) first) h1).
        { unfold h1, record_history. rewrite Ht.
          destruct (existsb _ h0) eqn:Hex.
          - apply existsb_same_post in Hex. apply in_map_iff in Hex.
            destruct Hex as ([t0 x0 cap0] & Hk & Hp). unfold post_key in Hk.
            cbn [tema subtema] in Hk. injection Hk as -> ->. now exists cap0.
          - exists cap. apply in_or_app. right. now left. }
        destruct Hhas as (first & Hf). exists first. now apply C.
      * now apply D with (caption := caption).
Qed.

(** X17.  The history never lists a post twice.  After any sequence of
    runs, starting from the empty history, every entry has a caption that
    counts as true and no entry has the theme of an earlier one and a
    subtopic equal to it under [==].  When the choices of the runs are
    strings, no two entries have the same theme and subtopic, every entry
    comes from a run whose caption counts as true, and every such run has
    an entry with its theme and its subtopic; a caption generated again
    for the same theme and subtopic is therefore not recorded. *)
Theorem history_has_no_repeat (runs : list (str * value * value)) :
  no_repeat (history_after runs) /\
  (string_choices runs ->
   NoDup (List.map post_key (history_after runs)) /\
   (forall p, In p (history_after runs) ->
      In (tema p, subtema p, legenda p) runs /\ truthy (legenda p) = true) /\
   (forall theme c caption,
      In (theme, VStr c, caption) runs -> truthy caption = true ->
      exists first, In (Post theme (VStr c) first) (history_after runs))).
Proof.
  split.
  - unfold history_after.
    assert (Hgen : forall h, no_repeat h ->
              no_repeat (fold_left
                (fun h r => record_history (fst (fst r)) (snd (fst r)) (snd r) h)
                runs h)).
    { induction runs as [|r runs IH]; intros h Hh; simpl; trivial.
      apply IH. now apply no_repeat_record. }
    apply Hgen. intros before entry after E. now destruct before.
  - intros Hs. destruct (history_fold Hs []) as (A & B & _ & D).
    unfold history_after. split; [|split].
    + apply A. constructor.
    + intros p Hp. destruct (B p Hp) as [[]|H]; exact H.
    + exact D.
Qed.

(** X18.  The sidebar lists the three most recent entries of the history,
    the newest first, numbered from 1; with fewer than four entries it
    lists them all, and it never lists more than three. *)
Theorem sidebar_shows_latest (history : list post) :
  length (sidebar_history history) <= 3 /\
  (length history <= 3 ->
   List.map snd (sidebar_history history) = rev history) /\
  (forall older a b c,
     history = older ++ [a; b; c] ->
     sidebar_history history = [(1, c); (2, b); (3, a)]).
Proof.
  unfold sidebar_history, slice_last. repeat split.
  - rewrite length_map.
    assert (L : forall A (l : list A) i, length (enumerate i l) = length l).
    { intros A l. induction l; intros i; simpl; auto. }
    rewrite L, length_rev, length_skipn. lia.
  - intros Hl. replace (length history - 3) with 0 by lia. simpl.
    rewrite map_map. simpl.
    assert (L : forall A (l : list A) i, List.map snd (enumerate i l) = l).
    { intros A l. induction l; intros i; simpl; auto. now rewrite IHl. }
    apply L.
  - intros older a b c ->. rewrite length_app. simpl.
    replace (length older + 3 - 3) with (length older + 0) by lia.
    rewrite skipn_app, Nat.add_0_r, skipn_all. simpl.
    replace (length older - length older) with 0 by lia. reflexivity.
Qed.

(** ** Captions that are not JSON *)

Lemma scan_prose (fuel : nat) (raw : str) :
  prose raw = true -> scan fuel JValue (skip_ws raw) = None.
Proof.
  unfold prose. intros H. destruct fuel as [|fuel]; trivial.
  destruct (skip_ws raw) as [|c post]; trivial.
  apply negb_true_iff in H. unfold json_start in H.
  repeat (apply orb_false_iff in H; destruct H as [H ?]).
  assert (SP : forall x rest, N.eqb c x = false ->
                 strip_prefix (x :: rest) (c :: post) = None).
  { intros x rest E. simpl. unfold char_eqb. now rewrite N.eqb_sym, E. }
  cbn [scan].
  change (strip_prefix (lit "null")) with (strip_prefix (110%N :: lit "ull")).
  change (strip_prefix (lit "true")) with (strip_prefix (116%N :: lit "rue")).
  change (strip_prefix (lit "false")) with (strip_prefix (102%N :: lit "alse")).
  change (strip_prefix (lit "NaN")) with (strip_prefix (78%N :: lit "aN")).
  change (strip_prefix (lit "Infinity"))
    with (strip_prefix (73%N :: lit "nfinity")).
  change (strip_prefix (lit "-Infinity"))
    with (strip_prefix (45%N :: lit "Infinity")).
  rewrite (SP 110%N (lit "ull")), (SP 116%N (lit "rue")),
    (SP 102%N (lit "alse")), (SP 78%N (lit "aN")), (SP 73%N (lit "nfinity")),
    (SP 45%N (lit "Infinity")) by assumption.
  unfold match_number.
  repeat match goal with
         | E : ?x = false |- context [?x] => rewrite E
         end.
  reflexivity.
Qed.

Lemma prose_not_json (raw : str) : prose raw = true -> json_loads raw = None.
Proof.
  intros H. unfold json_loads. rewrite (scan_prose _ raw H).
  destruct raw as [|c post]; trivial.
  destruct c as [|p]; trivial.
  repeat (destruct p as [p|p|]; trivial).
Qed.

(** X19.  An answer that does not begin like a JSON document becomes the
    caption as it is: when the text of the backend is empty or blank, or
    its first character after white space cannot begin a JSON document,
    [generate_caption] returns the dictionary whose only member is the
    whole text under [caption], and the script, on a session with
    distinct subtopics and a selection, finishes with this result in the
    session and passes the text as caption to the history. *)
Theorem prose_caption_is_kept (ui : widgets) (w : world) (theme : str)
    (l : list str) (chosen c r res : value) (ip : option str)
    (h : list post) (t : option str) :
  backend (calls w) = Text t ->
  prose (or_empty t) = true ->
  let kept := VDict [(lit "caption", VStr (or_empty t))] in
  (forall subtopic len formality,
     generate_caption subtopic len formality w = (inr kept, answered w)) /\
  (has_duplicates l = false ->
   subscript chosen (lit "choice") = Some c ->
   subscript chosen (lit "reason") = Some r ->
   next_button ui = false ->
   caption_button ui = true ->
   (ip = None -> image_button ui = false) ->
   script ui
     (App (Session (Some theme) (Some (VList (List.map VStr l))) (Some chosen)
             (Some res) ip (Some h)) w) =
   (inr Finished,
    App (Session (Some theme) (Some (VList (List.map VStr l))) (Some chosen)
           (Some kept) ip
           (Some (record_history theme c (VStr (or_empty t)) h)))
        (answered w))).
Proof.
  intros Hb Hp kept.
  assert (Hcap : forall subtopic len formality,
            generate_caption subtopic len formality w = (inr kept, answered w)).
  { intros subtopic len formality.
    rewrite (generate_caption_total subtopic len formality w Hb).
    unfold caption_of. now rewrite (prose_not_json _ Hp). }
  split; trivial.
  intros Hdup Hch Hre Hn Hc Hi. run_script. rewrite Hn, Hc.
  rewrite strs_of_strings. run_script. rewrite Hdup, Hch, Hre. run_script.
  rewrite Hcap. unfold kept. run_script.
  destruct ip; [reflexivity|]. now rewrite (Hi eq_refl).
Qed.

(** ** Recency in the cache *)

(** X20.  Reading an entry makes it the most recently used one: when the
    cache is full of live entries and no other entry has the key of the
    oldest one, a read of the oldest entry followed by a store under a new
    key evicts the second oldest entry and keeps the entry that was
    read. *)
Theorem hit_protects_from_eviction (now : Z) (k : str) (v : value)
    (oldest second : entry) (others : ttlcache) :
  length (oldest :: second :: others) = maxsize ->
  forallb (live now) (oldest :: second :: others) = true ->
  forallb (fun e => negb (has_key (ekey oldest) e)) (second :: others) = true ->
  find (has_key k) (oldest :: second :: others) = None ->
  getitem now (ekey oldest) (oldest :: second :: others) =
  (Some (evalue oldest), second :: others ++ [oldest]) /\
  setitem now k v (second :: others ++ [oldest]) =
  others ++ [oldest; Entry k v (now + ttl)].
Proof.
  intros Hfull Hlive Hdist Hnew.
  assert (Hself : has_key (ekey oldest) oldest = true) by apply str_eqb_refl.
  assert (Hlive' : forallb (live now) (second :: others ++ [oldest]) = true).
  { change (forallb (live now) ((second :: others) ++ [oldest]) = true).
    rewrite forallb_app. cbn [forallb] in Hlive |- *.
    apply andb_true_iff in Hlive. destruct Hlive as [H1 H2].
    now rewrite H1, H2. }
  assert (Hnew' : forall e, In e (second :: others ++ [oldest]) ->
                    has_key k e = false).
  { intros e He. apply (find_none _ _ Hnew).
    change (In e ((second :: others) ++ [oldest])) in He.
    apply in_app_or in He. destruct He as [He|[<-|[]]]; [now right|now left]. }
  split.
  - unfold getitem. cbn [find]. rewrite Hself.
    cbn [forallb] in Hlive. apply andb_true_iff in Hlive.
    destruct Hlive as [-> _]. f_equal.
    assert (E : forall f (x : entry) l,
               f x = false -> filter f (x :: l) = filter f l)
      by (intros f x l H; simpl; now rewrite H).
    unfold remove. rewrite E by now rewrite Hself.
    now rewrite (forallb_filter_id _ _ Hdist).
  - unfold setitem, expire. rewrite (forallb_filter_id _ _ Hlive').
    rewrite (proj2 (find_absent k _) Hnew').
    replace (length (second :: others ++ [oldest]) + 1 - maxsize) with 1
      by (cbn [length] in *; rewrite length_app; cbn [length]; lia).
    cbn [skipn].
    change (others ++ [oldest; Entry k v (now + ttl)])
      with (others ++ [oldest] ++ [Entry k v (now + ttl)]).
    rewrite app_assoc. f_equal. unfold remove. apply forallb_filter_id.
    apply forallb_forall. intros e He. rewrite Hnew'; trivial. now right.
Qed.

End Orchestrator.

(** * Closed instances *)

(** C1, at a backend that raises at every invocation. *)
Lemma retry_bound_witness :
  (forall n, failing_backend n = Raises (BackendError n)) /\
  fetch_subtopics ascii_digit failing_backend (lit "sustentabilidade") 5 fresh =
  (inl (BackendError 2), exhausted 2 2 fresh).
Proof.
  split; [reflexivity|].
  apply (@retry_bound ascii_digit ascii_printable failing_backend BackendError
           (fun n => eq_refl) fresh).
  reflexivity.
Defined.

(** C1 as stated fails: with three raising attempts the two waits are 2
    and 2, not 2 and 4, and the total wait is 4, below 6. *)
Lemma retry_waits_counterexample :
  sleeps (snd (fetch_subtopics ascii_digit failing_backend
                 (lit "sustentabilidade") 5 fresh)) = [2; 2]%Z /\
  (total_wait (snd (fetch_subtopics ascii_digit failing_backend
                      (lit "sustentabilidade") 5 fresh)) < 6)%Z /\
  calls (snd (fetch_subtopics ascii_digit failing_backend
                (lit "sustentabilidade") 5 fresh)) = 3.
Proof. vm_compute. repeat split. Qed.

(** C2, on an empty cache, the second call 599 seconds after the first. *)
Lemma cache_idempotence_witness :
  contains (clock fresh) (subtopics_key (lit "sustentabilidade") 5) (cache fresh)
  = false /\
  listing_backend (calls fresh) = Text (Some five_lines) /\
  (0 <= 599 < ttl)%Z /\
  exists v w1 w2,
    fetch_subtopics ascii_digit listing_backend (lit "sustentabilidade") 5 fresh
    = (inr v, w1) /\
    fetch_subtopics ascii_digit listing_backend (lit "sustentabilidade") 5
      (elapse 599 w1) = (inr v, w2) /\
    calls w2 = 1.
Proof.
  split; [reflexivity|]. split; [reflexivity|].
  assert (H : (0 <= 599 < ttl)%Z) by (unfold ttl; lia).
  split; [exact H|].
  exact (@cache_idempotence ascii_digit listing_backend (lit "sustentabilidade")
           5 fresh (Some five_lines) 599 eq_refl eq_refl H).
Defined.

(** C3 (amended), for five numbered lines and a count of 5, and for two
    lines without a prefix, of which one is short. *)
Lemma fetch_subtopics_result_witness :
  (3 <= 5 <= 10)%Z /\
  fetch_subtopics ascii_digit listing_backend (lit "sustentabilidade") 5 fresh =
  (inr (VList (List.map VStr five_items)),
   stored (subtopics_key (lit "sustentabilidade") 5)
     (VList (List.map VStr five_items)) fresh) /\
  ascii_digit 10 = false /\
  forallb (plain_ok ascii_digit) [lit "Moda circular"; lit "sol"] = true /\
  forallb no_break [lit "Moda circular"; lit "sol"] = true /\
  parse_subtopics ascii_digit
    (join [10%N] [lit "Moda circular"; lit "sol"]) 5 =
  [lit "Moda circular"].
Proof.
  assert (H : (3 <= 5 <= 10)%Z) by lia.
  split; [exact H|].
  destruct (@fetch_subtopics_result ascii_digit ascii_printable listing_backend
              (lit "sustentabilidade") 5 H) as [_ [R L]].
  destruct (R fresh (Some five_lines) eq_refl eq_refl) as [Hrun _].
  split; [exact Hrun|].
  split; [reflexivity|]. split; [reflexivity|]. split; [reflexivity|].
  exact (proj2 (L eq_refl) [lit "Moda circular"; lit "sol"] eq_refl eq_refl).
Defined.

(** C3 as stated fails.  In the first text the three lines match the
    pattern one by one, yet only two items are returned and the first of
    them is a whole line: the white space after the first prefix runs
    over the line break.  In the second text no line matches the pattern,
    yet the fallback is not taken: the item is the line after the bare
    prefix. *)
Lemma matching_lines_counterexample :
  splitlines gapped_text = [lit "1. "; lit "2. Praia"; lit "3. Neve"] /\
  forallb (matches_alone ascii_digit) (splitlines gapped_text) = true /\
  fst (fetch_subtopics ascii_digit gapped_backend (lit "tema") 3 fresh) =
  inr (VList [VStr (lit "2. Praia"); VStr (lit "Neve")]) /\
  existsb (matches_alone ascii_digit) (splitlines bare_text) = false /\
  List.map strip (filter long_line (splitlines bare_text)) =
  [lit "Longer line here"] /\
  fst (fetch_subtopics ascii_digit bare_backend (lit "tema") 3 fresh) =
  inr (VList [VStr (lit "abc")]).
Proof. vm_compute. repeat split. Qed.

Lemma marked_text_unstructured : ~ structured marked_text.
Proof. intros (c & r & doc & Hd & _). vm_compute in Hd. discriminate. Qed.

Lemma hello_unstructured : ~ structured (lit "hello").
Proof. intros (c & r & doc & Hd & _). vm_compute in Hd. discriminate. Qed.

(** C4, for a marker inside unstructured text. *)
Lemma choose_subtopic_parse_order_witness :
  contains (clock fresh) (choice_key ascii_printable (lit "tema") topics)
    (cache fresh) = false /\
  marker_backend (calls fresh) = Text (Some marked_text) /\
  choose_subtopic ascii_printable marker_backend (lit "tema") topics fresh =
  (inr (selection (VStr (lit "Topic B")) (VStr marked_text)),
   stored (choice_key ascii_printable (lit "tema") topics)
     (selection (VStr (lit "Topic B")) (VStr marked_text)) fresh).
Proof.
  split; [reflexivity|]. split; [reflexivity|].
  destruct (@choose_subtopic_parse_order ascii_printable marker_backend
              (lit "tema") (lit "Topic A") [lit "Topic B"; lit "Topic C"]
              fresh (Some marked_text) eq_refl eq_refl)
    as (v & Hrun & _ & Hmark & _).
  rewrite (Hmark marked_text_unstructured _ eq_refl) in Hrun.
  exact Hrun.
Defined.

(** C5 (amended), for plain prose. *)
Lemma choice_among_subtopics_witness :
  contains (clock fresh) (choice_key ascii_printable (lit "tema") topics)
    (cache fresh) = false /\
  prose_backend (calls fresh) = Text (Some (lit "hello")) /\
  ~ structured (lit "hello") /\
  re_search choice_re (lit "hello") = None /\
  exists c w',
    choose_subtopic ascii_printable prose_backend (lit "tema") topics fresh =
    (inr (selection (VStr c) (VStr (lit "hello"))), w') /\
    In c topics.
Proof.
  split; [reflexivity|]. split; [reflexivity|].
  split; [exact hello_unstructured|]. split; [reflexivity|].
  exact (@choice_among_subtopics ascii_printable prose_backend (lit "tema")
           (lit "Topic A") [lit "Topic B"; lit "Topic C"] fresh
           (Some (lit "hello")) eq_refl eq_refl hello_unstructured eq_refl).
Defined.

(** C5 as stated fails: a marker naming [Topic D] makes [Topic D] the
    choice, which is none of the three subtopics. *)
Lemma choice_outside_subtopics_counterexample :
  fst (choose_subtopic ascii_printable stray_backend (lit "tema") topics fresh) =
  inr (selection (VStr (lit "Topic D")) (VStr (lit "Choice: Topic D"))) /\
  existsb (str_eqb (lit "Topic D")) topics = false.
Proof. vm_compute. split; reflexivity. Qed.

(** C6 (amended), for a session that holds a caption for a first theme:
    the run for the new theme records the old selection and the old
    caption under the new theme. *)
Lemma new_theme_keeps_downstream_witness :
  let ui := enter_theme (lit "neve") in
  next_button ui = true /\
  strip (theme_input ui) <> [] /\
  caption_button ui = false /\
  image_button ui = false /\
  script ascii_digit ascii_printable silent_backend any_float never_eq ui
    (App captioned fresh) =
  (inr Finished,
   App (Session (Some (lit "neve")) (ss_subtopics captioned)
          (ss_chosen captioned) (ss_caption_res captioned)
          (ss_img_prompt captioned)
          (Some [first_post;
                 Post (lit "neve") (VStr (lit "Moda circular"))
                   (VStr (lit "Sol e mar"))]))
       fresh).
Proof.
  intros ui.
  assert (Hnew : strip (theme_input ui) <> []) by (vm_compute; discriminate).
  split; [reflexivity|]. split; [exact Hnew|].
  split; [reflexivity|]. split; [reflexivity|].
  destruct (@new_theme_keeps_downstream ascii_digit ascii_printable
              silent_backend any_float never_eq ui captioned fresh _ _ _
              eq_refl Hnew eq_refl eq_refl eq_refl eq_refl eq_refl) as [_ B].
  exact (B five_items (VStr (lit "Moda circular")) (VStr (lit "raw"))
           [(lit "caption", VStr (lit "Sol e mar"))] [first_post]
           eq_refl eq_refl eq_refl eq_refl eq_refl eq_refl).
Defined.

(** C6 as stated fails: after a run for the theme [praia], a run that
    sets the theme [neve] keeps the subtopics and the selection computed
    for [praia], without invoking the backend. *)
Lemma new_theme_counterexample :
  let a1 := snd (script ascii_digit ascii_printable pipeline_backend any_float never_eq
                   (enter_theme (lit "praia")) (App no_session fresh)) in
  let a2 := snd (script ascii_digit ascii_printable pipeline_backend any_float never_eq
                   (enter_theme (lit "neve")) a1) in
  ss_theme (sess a1) = Some (lit "praia") /\
  ss_theme (sess a2) = Some (lit "neve") /\
  ss_subtopics (sess a1) = Some (VList (List.map VStr five_items)) /\
  ss_subtopics (sess a2) = Some (VList (List.map VStr five_items)) /\
  ss_chosen (sess a2) = ss_chosen (sess a1) /\
  ss_chosen (sess a2) =
    Some (selection (VStr (lit "Energia solar em casa"))
            (VStr (lit "Choice: Energia solar em casa"))) /\
  calls (wld a2) = calls (wld a1).
Proof. vm_compute. repeat split. Qed.

(** C7 fails on the code: with an empty list of subtopics and a backend
    that answers plain prose, the fallback of [choose_subtopic] raises
    [IndexError] at each of the three attempts and the caller receives
    it. *)
Theorem parse_failure_propagates :
  choose_subtopic ascii_printable prose_backend (lit "tema") [] fresh =
  (inl IndexError, exhausted 2 2 fresh).
Proof. vm_compute. reflexivity. Qed.

(** C8, for a backend that raises at every invocation. *)
Lemma no_negative_caching_witness :
  fetch_subtopics ascii_digit failing_backend (lit "tema") 5 fresh =
  (inl (BackendError 2), exhausted 2 2 fresh) /\
  cache (exhausted 2 2 fresh) = cache fresh /\
  contains (clock (exhausted 2 2 fresh)) (subtopics_key (lit "tema") 5)
    (cache (exhausted 2 2 fresh)) = false /\
  calls (exhausted 2 2 fresh) <
  calls (snd (fetch_subtopics ascii_digit failing_backend (lit "tema") 5
                (exhausted 2 2 fresh))).
Proof.
  assert (H : fetch_subtopics ascii_digit failing_backend (lit "tema") 5 fresh =
              (inl (BackendError 2), exhausted 2 2 fresh)) by reflexivity.
  split; [exact H|].
  exact (proj1 (@no_negative_caching ascii_digit ascii_printable failing_backend
                  fresh (exhausted 2 2 fresh) (BackendError 2))
           (lit "tema") 5%Z H).
Defined.

(** C9 fails on the code: with an empty list of subtopics, a response
    without text makes [choose_subtopic] raise [IndexError]. *)
Theorem empty_text_raises :
  choose_subtopic ascii_printable silent_backend (lit "tema") [] fresh =
  (inl IndexError, exhausted 2 2 fresh).
Proof. vm_compute. reflexivity. Qed.

(** The empty list is what the pipeline itself produces: when the backend
    keeps answering without text, [fetch_subtopics] stores an empty list
    and the script stops in [choose_subtopic] with [IndexError]. *)
Lemma silent_pipeline_raises :
  fst (script ascii_digit ascii_printable silent_backend any_float never_eq
         (enter_theme (lit "praia")) (App no_session fresh)) = inl IndexError /\
  ss_subtopics (sess (snd (script ascii_digit ascii_printable silent_backend any_float never_eq
                             (enter_theme (lit "praia"))
                             (App no_session fresh)))) = Some (VList []).
Proof. vm_compute. split; reflexivity. Qed.

(** C10, for the cache that a call of [choose_subtopic] leaves: the entry
    under its key was written for these very subtopics. *)
Lemma cache_keys_do_not_alias_witness :
  let w1 := snd (choose_subtopic ascii_printable marker_backend (lit "tema")
                   topics fresh) in
  forallb valid_str topics = true /\
  cache_unicode ascii_digit ascii_printable (cache w1) /\
  exists e,
    find (has_key (choice_key ascii_printable (lit "tema") topics)) (cache w1) =
    Some e /\
    evalue e = selection (VStr (lit "Topic B")) (VStr marked_text) /\
    exists raw, parse_choice raw topics tt = (inr (evalue e), tt).
Proof.
  intros w1.
  destruct (cache_keys_do_not_alias ascii_digit ascii_printable marker_backend)
    as (_ & _ & _ & _ & _ & Hit & Hnil & Hkept).
  assert (Hl : forallb valid_str topics = true) by reflexivity.
  assert (Hc : cache_unicode ascii_digit ascii_printable (cache w1))
    by (apply (proj2 (Hkept fresh Hnil)); exact Hl).
  split; [exact Hl|]. split; [exact Hc|].
  exists (Entry (choice_key ascii_printable (lit "tema") topics)
            (selection (VStr (lit "Topic B")) (VStr marked_text)) 600).
  split; [reflexivity|]. split; [reflexivity|].
  exact (Hit (lit "tema") topics (cache w1) _ Hc Hl eq_refl).
Defined.

(** The five numbered lines are well formed and their contents are the
    five items. *)
Example five_lines_well_formed :
  forallb (well_formed ascii_digit) five_item_lines = true /\
  join [10%N] (List.map render five_item_lines) = five_lines /\
  List.map content five_item_lines = five_items.
Proof. repeat split. Qed.

(** A sentence and an empty line before the list do not change the
    items. *)
Example announced_list :
  forallb (ok_line ascii_digit) announced_lines = true /\
  parse_subtopics ascii_digit
    (join [10%N] (List.map render_line announced_lines)) 5 = five_items.
Proof. split; reflexivity. Qed.

(** A prefix alone on its line: the white space after it runs over the
    line break, and the next line becomes its item. *)
Example prefix_alone_on_its_line :
  re_findall (subtopic_re ascii_digit)
    (lit "1." ++ [10%N] ++ lit "2. Praia" ++ [10%N] ++ lit "3. Neve") =
  [lit "2. Praia"; lit "Neve"].
Proof. reflexivity. Qed.

(** The fallback of [fetch_subtopics] on prose: stripped lines longer
    than five characters. *)
Example prose_lines :
  parse_subtopics ascii_digit
    (lit "  Praias do sul  " ++ [13%N; 10%N] ++ lit "Neve" ++ [10%N] ++
     lit "Trilhas e montanhas") 5 =
  [lit "Praias do sul"; lit "Trilhas e montanhas"].
Proof. reflexivity. Qed.

(** Structured output of the selection step. *)
Example structured_selection :
  decode_selection
    (lit "{" ++ [34%N] ++ lit "choice" ++ [34%N] ++ lit ": " ++
     [34%N] ++ lit "Topic C" ++ [34%N] ++ lit ", " ++
     [34%N] ++ lit "reason" ++ [34%N] ++ lit ": " ++
     [34%N] ++ lit "timely" ++ [34%N] ++ lit "}") =
  Some (selection (VStr (lit "Topic C")) (VStr (lit "timely"))).
Proof. reflexivity. Qed.

(** A backend failure in the second tab: the script raises after three
    attempts and the session only holds the theme and the initial history
    and caption result. *)
Example backend_failure_halts_script :
  script ascii_digit ascii_printable failing_backend any_float never_eq
    (enter_theme (lit "praia")) (App no_session fresh) =
  (inl (BackendError 2),
   App (Session (Some (lit "praia")) None None (Some (VDict [])) None (Some []))
     (exhausted 2 2 fresh)).
Proof. reflexivity. Qed.

(** X1, for the image step at a backend that answers. *)
Lemma retry_transparent_on_success_witness :
  generate_image_prompt_func prose_backend (VStr (lit "Topic A")) fresh =
  (inr (lit "hello"), called fresh) /\
  generate_image_prompt prose_backend (VStr (lit "Topic A")) fresh =
  (inr (lit "hello"), answered fresh).
Proof.
  split; [reflexivity|].
  exact (@retry_transparent_on_success _
           (generate_image_prompt_func prose_backend (VStr (lit "Topic A")))
           fresh (called fresh) (lit "hello") eq_refl).
Defined.

(** X2, at a backend that raises once. *)
Lemma fetch_subtopics_recovers_witness :
  contains (clock fresh) (subtopics_key (lit "sustentabilidade") 5) (cache fresh)
  = false /\
  flaky_backend 0 = Raises (BackendError 0) /\
  flaky_backend 1 = Text (Some five_lines) /\
  fetch_subtopics ascii_digit flaky_backend (lit "sustentabilidade") 5 fresh =
  (inr (VList (List.map VStr five_items)),
   World 2
     (setitem 2 (subtopics_key (lit "sustentabilidade") 5)
        (VList (List.map VStr five_items)) [])
     2 [2%Z] 1).
Proof.
  split; [reflexivity|]. split; [reflexivity|]. split; [reflexivity|].
  exact (proj1 (@fetch_subtopics_recovers ascii_digit flaky_backend
                  (lit "sustentabilidade") 5 fresh (Some five_lines) eq_refl)
           (BackendError 0) eq_refl eq_refl).
Defined.

(** X4, for a marker answer, the second call 599 seconds later. *)
Lemma choose_subtopic_idempotent_witness :
  contains (clock fresh) (choice_key ascii_printable (lit "tema") topics)
    (cache fresh) = false /\
  marker_backend (calls fresh) = Text (Some marked_text) /\
  (0 <= 599 < ttl)%Z /\
  exists w1 w2,
    choose_subtopic ascii_printable marker_backend (lit "tema") topics fresh =
    (inr (selection (VStr (lit "Topic B")) (VStr marked_text)), w1) /\
    choose_subtopic ascii_printable marker_backend (lit "tema") topics
      (elapse 599 w1) =
    (inr (selection (VStr (lit "Topic B")) (VStr marked_text)), w2) /\
    calls w2 = 1.
Proof.
  split; [reflexivity|]. split; [reflexivity|].
  assert (H : (0 <= 599 < ttl)%Z) by (unfold ttl; lia).
  split; [exact H|].
  exact (@choose_subtopic_idempotent ascii_printable marker_backend (lit "tema")
           topics fresh (Some marked_text)
           (selection (VStr (lit "Topic B")) (VStr marked_text)) 599
           eq_refl eq_refl eq_refl H).
Defined.

(** X5, the second call 600 seconds after the first, at a backend whose
    second answer differs. *)
Lemma fetch_subtopics_refetches_witness :
  contains (clock fresh) (subtopics_key (lit "sustentabilidade") 5) (cache fresh)
  = false /\
  pipeline_backend 0 = Text (Some five_lines) /\
  pipeline_backend 1 = Text (Some (lit "Choice: Energia solar em casa")) /\
  (ttl <= 600)%Z /\
  exists w1 w2,
    fetch_subtopics ascii_digit pipeline_backend (lit "sustentabilidade") 5 fresh
    = (inr (VList (List.map VStr five_items)), w1) /\
    fetch_subtopics ascii_digit pipeline_backend (lit "sustentabilidade") 5
      (elapse 600 w1)
    = (inr (VList [VStr (lit "Choice: Energia solar em casa")]), w2) /\
    calls w2 = 2.
Proof.
  split; [reflexivity|]. split; [reflexivity|]. split; [reflexivity|].
  assert (H : (ttl <= 600)%Z) by (unfold ttl; lia).
  split; [exact H|].
  exact (@fetch_subtopics_refetches ascii_digit pipeline_backend
           (lit "sustentabilidade") 5 fresh (Some five_lines)
           (Some (lit "Choice: Energia solar em casa")) 600
           eq_refl eq_refl eq_refl H).
Defined.

(** X7, on a cache that is full. *)
Lemma cache_capacity_witness :
  length (cache full_world) <= maxsize /\
  length (cache (snd (fetch_subtopics ascii_digit listing_backend
                        (lit "sustentabilidade") 5 full_world))) <= maxsize /\
  length (cache (snd (choose_subtopic ascii_printable marker_backend
                        (lit "tema") topics full_world))) <= maxsize.
Proof.
  assert (H : length (cache full_world) <= maxsize)
    by (apply Nat.leb_le; reflexivity).
  split; [exact H|].
  destruct (@cache_capacity ascii_digit ascii_printable listing_backend
              full_world H) as [F _].
  destruct (@cache_capacity ascii_digit ascii_printable marker_backend
              full_world H) as [_ C].
  split; [apply F | apply C].
Defined.

(** X8, on a cache of one hundred live entries. *)
Lemma setitem_evicts_oldest_witness :
  length full_cache = maxsize /\
  forallb (live 0) full_cache = true /\
  find (has_key (lit "novo")) full_cache = None /\
  setitem 0 (lit "novo") VNone full_cache =
  tl full_cache ++ [Entry (lit "novo") VNone (0 + ttl)].
Proof.
  split; [reflexivity|]. split; [reflexivity|]. split; [reflexivity|].
  exact (@setitem_evicts_oldest 0 (lit "novo") VNone
           (Entry (lit "k0") VNone 600) (tl full_cache)
           eq_refl eq_refl eq_refl).
Defined.

(** X9, for a text without list lines. *)
Lemma items_are_lines_witness :
  In (lit "Moda circular") (parse_subtopics ascii_digit plain_text 5) /\
  re_findall (subtopic_re ascii_digit) plain_text = [] /\
  lit "Moda circular" <> [] /\
  ~ In 10%N (lit "Moda circular") /\
  5 < length (lit "Moda circular") /\
  forallb (fun c => negb (islinebreak c)) (lit "Moda circular") = true /\
  strip (lit "Moda circular") = lit "Moda circular".
Proof.
  assert (Hin : In (lit "Moda circular") (parse_subtopics ascii_digit plain_text 5))
    by (left; reflexivity).
  assert (Hno : re_findall (subtopic_re ascii_digit) plain_text = [])
    by reflexivity.
  split; [exact Hin|]. split; [exact Hno|].
  destruct (@items_are_lines ascii_digit plain_text 5 (lit "Moda circular") Hin)
    as (A & B & C).
  split; [exact A|]. split; [exact B|]. exact (C Hno).
Defined.

(** X10, for a marker answer on an empty cache. *)
Lemma choose_subtopic_returns_selection_witness :
  cache_ok ascii_digit ascii_printable (cache fresh) /\
  choose_subtopic ascii_printable marker_backend (lit "tema") topics fresh =
  (inr (selection (VStr (lit "Topic B")) (VStr marked_text)),
   stored (choice_key ascii_printable (lit "tema") topics)
     (selection (VStr (lit "Topic B")) (VStr marked_text)) fresh) /\
  exists c r,
    selection (VStr (lit "Topic B")) (VStr marked_text) = selection c r /\
    subscript (selection (VStr (lit "Topic B")) (VStr marked_text))
      (lit "choice") = Some c /\
    subscript (selection (VStr (lit "Topic B")) (VStr marked_text))
      (lit "reason") = Some r.
Proof.
  assert (Hok : cache_ok ascii_digit ascii_printable (cache fresh))
    by (apply Forall_nil).
  assert (Hrun :
    choose_subtopic ascii_printable marker_backend (lit "tema") topics fresh =
    (inr (selection (VStr (lit "Topic B")) (VStr marked_text)),
     stored (choice_key ascii_printable (lit "tema") topics)
       (selection (VStr (lit "Topic B")) (VStr marked_text)) fresh))
    by reflexivity.
  split; [exact Hok|]. split; [exact Hrun|].
  exact (@choose_subtopic_returns_selection ascii_digit ascii_printable
           marker_backend (lit "tema") topics fresh _ _ Hok Hrun).
Defined.

(** X11, for a theme of white space only. *)
Lemma script_waits_for_theme_witness :
  ss_theme no_session = None /\
  strip (theme_input (enter_theme (lit "   "))) = [] /\
  script ascii_digit ascii_printable listing_backend any_float never_eq
    (enter_theme (lit "   ")) (App no_session fresh) =
  (inr Stopped,
   App (Session None None None (Some (VDict [])) None (Some [])) fresh).
Proof.
  split; [reflexivity|]. split; [reflexivity|].
  exact (@script_waits_for_theme ascii_digit ascii_printable listing_backend
           any_float never_eq (enter_theme (lit "   ")) no_session fresh
           eq_refl (or_intror eq_refl)).
Defined.

(** X12, for a session whose caption is in the history and no button
    pressed. *)
Lemma script_rerun_is_silent_witness :
  next_button idle = false /\
  caption_button idle = false /\
  image_button idle = false /\
  has_duplicates five_items = false /\
  existsb (same_post never_eq
             (Post (lit "praia") (VStr (lit "Moda circular"))
                (VStr (lit "Sol e mar")))) [first_post] = true /\
  script ascii_digit ascii_printable failing_backend any_float never_eq idle
    (App captioned fresh) =
  (inr Finished, App captioned fresh).
Proof.
  split; [reflexivity|]. split; [reflexivity|]. split; [reflexivity|].
  split; [reflexivity|]. split; [reflexivity|].
  exact (proj2 (@script_rerun_is_silent ascii_digit ascii_printable
                  failing_backend any_float never_eq idle fresh (lit "praia")
                  five_items
                  (selection (VStr (lit "Moda circular")) (VStr (lit "raw")))
                  (VStr (lit "Moda circular")) (VStr (lit "raw"))
                  [(lit "caption", VStr (lit "Sol e mar"))] None [first_post]
                  eq_refl eq_refl (fun _ => eq_refl) eq_refl eq_refl eq_refl)
           (or_intror eq_refl)).
Defined.


(** X14, for a backend that answers with a number. *)
Lemma non_object_caption_breaks_script_witness :
  has_duplicates five_items = false /\
  next_button press_caption = false /\
  caption_button press_caption = true /\
  json_loads (lit "42") = Some (VInt 42) /\
  (forall d, VInt 42 <> VDict d) /\
  script ascii_digit ascii_printable number_backend any_float never_eq
    press_caption (App filled fresh) =
  (inl AttributeError,
   App (Session (ss_theme filled) (ss_subtopics filled) (ss_chosen filled)
          (Some (VInt 42)) None (Some [])) (answered fresh)) /\
  script ascii_digit ascii_printable number_backend any_float never_eq idle
    (App (Session (ss_theme filled) (ss_subtopics filled) (ss_chosen filled)
            (Some (VInt 42)) None (Some [])) (answered fresh)) =
  (inl AttributeError,
   App (Session (ss_theme filled) (ss_subtopics filled) (ss_chosen filled)
          (Some (VInt 42)) None (Some [])) (answered fresh)).
Proof.
  split; [reflexivity|].
  split; [reflexivity|]. split; [reflexivity|]. split; [reflexivity|].
  assert (Hd : forall d, VInt 42 <> VDict d) by (intros d E; discriminate E).
  split; [exact Hd|].
  destruct (@non_object_caption_breaks_script ascii_digit ascii_printable
              number_backend any_float never_eq press_caption fresh
              (lit "praia") five_items
              (selection (VStr (lit "Moda circular")) (VStr (lit "raw")))
              (VStr (lit "Moda circular")) (VStr (lit "raw")) (VDict []) None
              [] (Some (lit "42")) (VInt 42)
              eq_refl eq_refl eq_refl eq_refl eq_refl eq_refl eq_refl Hd)
    as [A B].
  split; [exact A|]. exact (B idle (answered fresh) eq_refl eq_refl).
Defined.


(** X17, for four runs of which two are recorded. *)
Lemma history_has_no_repeat_witness :
  string_choices four_runs /\
  history_after any_float never_eq four_runs =
  [Post (lit "praia") (VStr (lit "Moda circular")) (VStr (lit "primeira"));
   Post (lit "neve") (VStr (lit "Moda circular")) (VStr (lit "terceira"))] /\
  no_repeat any_float never_eq (history_after any_float never_eq four_runs) /\
  NoDup (List.map post_key (history_after any_float never_eq four_runs)).
Proof.
  assert (Hs : string_choices four_runs)
    by (repeat constructor; eexists; reflexivity).
  split; [exact Hs|]. split; [reflexivity|].
  destruct (@history_has_no_repeat any_float never_eq four_runs) as [A B].
  split; [exact A|]. exact (proj1 (B Hs)).
Defined.

(** X18, for a history of four entries. *)
Lemma sidebar_shows_latest_witness :
  length (sidebar_history four_posts) <= 3 /\
  sidebar_history four_posts =
  [(1, Post (lit "d") VNone VNone); (2, Post (lit "c") VNone VNone);
   (3, Post (lit "b") VNone VNone)].
Proof.
  destruct (sidebar_shows_latest four_posts) as (A & _ & C).
  split; [exact A|].
  exact (C [Post (lit "a") VNone VNone] _ _ _ eq_refl).
Defined.

(** X19, for plain prose. *)
Lemma prose_caption_is_kept_witness :
  prose_backend (calls fresh) = Text (Some (lit "hello")) /\
  prose (lit "hello") = true /\
  has_duplicates five_items = false /\
  generate_caption prose_backend (VStr (lit "Moda circular")) (lit "Media")
    (lit "Media") fresh =
  (inr (VDict [(lit "caption", VStr (lit "hello"))]), answered fresh) /\
  script ascii_digit ascii_printable prose_backend any_float never_eq
    press_caption (App filled fresh) =
  (inr Finished,
   App (Session (ss_theme filled) (ss_subtopics filled) (ss_chosen filled)
          (Some (VDict [(lit "caption", VStr (lit "hello"))])) None
          (Some [Post (lit "praia") (VStr (lit "Moda circular"))
                   (VStr (lit "hello"))]))
       (answered fresh)).
Proof.
  split; [reflexivity|]. split; [reflexivity|]. split; [reflexivity|].
  destruct (@prose_caption_is_kept ascii_digit ascii_printable prose_backend
              any_float never_eq press_caption fresh (lit "praia") five_items
              (selection (VStr (lit "Moda circular")) (VStr (lit "raw")))
              (VStr (lit "Moda circular")) (VStr (lit "raw")) (VDict []) None
              [] (Some (lit "hello")) eq_refl eq_refl) as [A B].
  split; [apply A|].
  exact (B eq_refl eq_refl eq_refl eq_refl eq_refl (fun _ => eq_refl)).
Defined.

(** X20, on the cache of one hundred live entries. *)
Lemma hit_protects_from_eviction_witness :
  length full_cache = maxsize /\
  forallb (live 0) full_cache = true /\
  forallb (fun e => negb (has_key (lit "k0") e)) (tl full_cache) = true /\
  find (has_key (lit "novo")) full_cache = None /\
  getitem 0 (lit "k0") full_cache =
  (Some VNone, tl full_cache ++ [Entry (lit "k0") VNone 600]) /\
  setitem 0 (lit "novo") VNone (tl full_cache ++ [Entry (lit "k0") VNone 600]) =
  tl (tl full_cache) ++
  [Entry (lit "k0") VNone 600; Entry (lit "novo") VNone (0 + ttl)].
Proof.
  split; [reflexivity|]. split; [reflexivity|]. split; [reflexivity|].
  split; [reflexivity|].
  exact (@hit_protects_from_eviction 0 (lit "novo") VNone
           (Entry (lit "k0") VNone 600) (Entry (lit "k1") VNone 600)
           (tl (tl full_cache)) eq_refl eq_refl eq_refl eq_refl).
Defined.
